(** * Business-closure prediction: ingestion, configuration and logging helpers

    A shallow embedding of [src/utils/config.py], [src/utils/logger.py] and
    [src/ingestion/download_data.py], and the properties of the bulk-download
    workflow proved over it.

    Python objects are modelled by the data they carry: YAML documents by
    [value], insertion-ordered dictionaries by association lists, exceptions
    by their class, and every effect (file system, network, clock, log calls)
    by an event appended to a trace, its outcome being read from an
    environment that may depend on everything that happened before. *)

From Stdlib Require Import ZArith Lia Bool List Ascii.
From stdpp Require Import gmap strings list fin_maps.
Import ListNotations.

Local Open Scope Z_scope.

(** ** Python strings *)

(** [s.endswith(suffix)]. *)
Definition endswith (s suffix : string) : bool :=
  let n := String.length s in
  let k := String.length suffix in
  if (k <=? n)%nat then String.eqb (String.substring (n - k) k s) suffix else false.

(** [s.startswith(p)]. *)
Definition startswith (s p : string) : bool := String.prefix p s.

(** [s.replace(old, new)] for a non-empty [old]: one pass from the left, every
    non-overlapping occurrence of [old] becomes [new]. [skip] counts the
    characters of an occurrence that are still to be dropped. *)
Fixpoint replace_from (old new : string) (skip : nat) (s : string) : string :=
  match s with
  | EmptyString => EmptyString
  | String c s' =>
      match skip with
      | S k => replace_from old new k s'
      | O =>
          if startswith s old
          then new +:+ replace_from old new (String.length old - 1) s'
          else String c (replace_from old new O s')
      end
  end.

Definition str_replace (s old new : string) : string := replace_from old new O s.

(** [s.split(sep)] for a one-character separator: the pieces between the
    separators, empty pieces included; the result is never empty. *)
Fixpoint str_split (sep : ascii) (s : string) : list string :=
  match s with
  | EmptyString => [EmptyString]
  | String c s' =>
      if Ascii.eqb c sep then EmptyString :: str_split sep s'
      else match str_split sep s' with
           | piece :: rest => String c piece :: rest
           | [] => [String c EmptyString]
           end
  end.

(** [l[-1]] on the result of a split. *)
Definition last_item (l : list string) : string := List.last l EmptyString.

(** Decimal rendering of a non-negative number, as [strftime] needs it. *)
Definition digit_char (d : Z) : ascii := ascii_of_nat (48 + Z.to_nat d).

Fixpoint decimal_from (fuel : nat) (n : Z) (acc : string) : string :=
  match fuel with
  | O => acc
  | S fuel' =>
      let acc' := String (digit_char (n mod 10)) acc in
      if n / 10 =? 0 then acc' else decimal_from fuel' (n / 10) acc'
  end.

Definition decimal (n : Z) : string := decimal_from (S (Z.to_nat (Z.log2 n))) n EmptyString.

(** Left padding with zeros up to [width] characters (["%02d"], ["%04d"]). *)
Definition zero_pad (width : nat) (s : string) : string :=
  String.string_of_list_ascii (repeat "0"%char (width - String.length s)) +:+ s.

(** [int(s)] for the string of a response header, whose characters are those
    of Latin-1. White space around the numeral is dropped: tab to carriage
    return and the space, and beyond ASCII the next-line and the no-break
    space characters; one sign is allowed, and the digits may be separated by
    single underscores. A numeral of more than 4300 digits is refused.
    [None] stands for the [ValueError] Python raises. *)
Definition is_digit (c : ascii) : bool :=
  let n := nat_of_ascii c in ((48 <=? n) && (n <=? 57))%nat.

Definition is_py_space (c : ascii) : bool :=
  let n := nat_of_ascii c in
  (((9 <=? n) && (n <=? 13)) || (n =? 32) || (n =? 133) || (n =? 160))%nat.

Fixpoint lstrip (l : list ascii) : list ascii :=
  match l with
  | c :: l' => if is_py_space c then lstrip l' else l
  | [] => []
  end.

Definition strip (l : list ascii) : list ascii := rev (lstrip (rev (lstrip l))).

(** [digits_value seen acc l]: [seen] tells whether the previous character was
    a digit, which is where an underscore or the end of the numeral may come. *)
Fixpoint digits_value (seen : bool) (acc : Z) (l : list ascii) : option Z :=
  match l with
  | [] => if seen then Some acc else None
  | c :: l' =>
      if is_digit c then digits_value true (10 * acc + (Z.of_nat (nat_of_ascii c) - 48)) l'
      else if Ascii.eqb c "_"%char then (if seen then digits_value false acc l' else None)
      else None
  end.

(** [sys.get_int_max_str_digits()], as Python sets it. *)
Definition int_max_str_digits : nat := 4300.

(** The digits of a numeral, leading zeros counted, are not more than the
    limit. *)
Definition within_digit_limit (l : list ascii) : bool :=
  (length (List.filter is_digit l) <=? int_max_str_digits)%nat.

Definition numeral_value (l : list ascii) : option Z :=
  if within_digit_limit l then digits_value false 0 l else None.

Definition int_of_str (s : string) : option Z :=
  match strip (String.list_ascii_of_string s) with
  | c :: l =>
      if Ascii.eqb c "-"%char then option_map Z.opp (numeral_value l)
      else if Ascii.eqb c "+"%char then numeral_value l
      else numeral_value (c :: l)
  | [] => None
  end.

(** [a / b] on Python integers is a correctly rounded float; it raises
    [OverflowError] when the rounded quotient leaves the range of a double,
    that is from [2^1024 - 2^970] on. *)
Definition float_overflow_bound : Z := 2 ^ 1024 - 2 ^ 970.

Definition truediv_overflows (a b : Z) : bool := float_overflow_bound * b <=? Z.abs a.

(** [a + 0.5] turns the integer into a float first, which raises
    [OverflowError] from the same bound on. *)
Definition to_float_overflows (a : Z) : bool := float_overflow_bound <=? Z.abs a.


(** ** Exceptions *)

(** The exception classes the three modules can meet: Python's built-in ones,
    those of [requests.exceptions] and [yaml.YAMLError]. [IOError] is
    [OSError] under another name. *)
Inductive exc_class : Type :=
| BaseException | Exception
| ArithmeticError | OverflowError
| LookupError | KeyError
| ValueError | UnicodeError | UnicodeDecodeError | UnicodeEncodeError
| TypeError | AttributeError
| OSError | FileNotFoundError | FileExistsError | PermissionError
| NotADirectoryError | IsADirectoryError
| RequestException | HTTPError | ConnectionError | SSLError
| Timeout | ConnectTimeout | ReadTimeout
| TooManyRedirects | MissingSchema | InvalidURL
| ChunkedEncodingError | ContentDecodingError
| YAMLError.

#[global] Instance exc_class_eq_dec : EqDecision exc_class.
Proof. solve_decision. Defined.

(** Direct base classes, as in the class statements. *)
Definition bases (c : exc_class) : list exc_class :=
  match c with
  | BaseException => []
  | Exception => [BaseException]
  | ArithmeticError | LookupError | ValueError | TypeError | AttributeError
  | OSError | YAMLError => [Exception]
  | OverflowError => [ArithmeticError]
  | KeyError => [LookupError]
  | UnicodeError => [ValueError]
  | UnicodeDecodeError | UnicodeEncodeError => [UnicodeError]
  | FileNotFoundError | FileExistsError | PermissionError
  | NotADirectoryError | IsADirectoryError => [OSError]
  | RequestException => [OSError]
  | HTTPError | ConnectionError | Timeout | TooManyRedirects
  | ChunkedEncodingError | ContentDecodingError => [RequestException]
  | SSLError => [ConnectionError]
  | ConnectTimeout => [ConnectionError; Timeout]
  | ReadTimeout => [Timeout]
  | MissingSchema | InvalidURL => [RequestException; ValueError]
  end.

Fixpoint issubclass_upto (depth : nat) (c d : exc_class) : bool :=
  bool_decide (c = d) ||
  match depth with
  | O => false
  | S depth' => existsb (fun b => issubclass_upto depth' b d) (bases c)
  end.

(** [issubclass(c, d)]; no chain of bases is longer than five. *)
Definition issubclass (c d : exc_class) : bool := issubclass_upto 5 c d.

(** What the file system can answer: the [OSError] family, without the
    subclasses that belong to [requests]. *)
Inductive os_error : Type :=
| OsGeneric | OsFileNotFound | OsFileExists | OsPermission | OsNotADirectory
| OsIsADirectory.

Definition exc_of_os (e : os_error) : exc_class :=
  match e with
  | OsGeneric => OSError
  | OsFileNotFound => FileNotFoundError
  | OsFileExists => FileExistsError
  | OsPermission => PermissionError
  | OsNotADirectory => NotADirectoryError
  | OsIsADirectory => IsADirectoryError
  end.

(** What a call that takes a path can answer when it fails: an error of the
    file system, or the refusal of Python itself to hand the path over, a
    [ValueError] for a path with a NUL character in it and a
    [UnicodeEncodeError] for one with a lone surrogate. *)
Inductive path_error : Type :=
| PathOs (e : os_error) | PathNul | PathSurrogate.

Definition exc_of_path (e : path_error) : exc_class :=
  match e with
  | PathOs e' => exc_of_os e'
  | PathNul => ValueError
  | PathSurrogate => UnicodeEncodeError
  end.

(** What [requests] raises while connecting or while the body is read. An HTTP
    status is no exception at this point: [raise_for_status] makes it one. *)
Inductive request_error : Type :=
| ReqGeneric | ReqConnection | ReqSSL
| ReqTimeout | ReqConnectTimeout | ReqReadTimeout
| ReqTooManyRedirects | ReqMissingSchema | ReqInvalidURL
| ReqChunkedEncoding | ReqContentDecoding.

Definition exc_of_request (e : request_error) : exc_class :=
  match e with
  | ReqGeneric => RequestException
  | ReqConnection => ConnectionError
  | ReqSSL => SSLError
  | ReqTimeout => Timeout
  | ReqConnectTimeout => ConnectTimeout
  | ReqReadTimeout => ReadTimeout
  | ReqTooManyRedirects => TooManyRedirects
  | ReqMissingSchema => MissingSchema
  | ReqInvalidURL => InvalidURL
  | ReqChunkedEncoding => ChunkedEncodingError
  | ReqContentDecoding => ContentDecodingError
  end.

(** What reading the configuration document can raise once the file exists. *)
Inductive load_error : Type :=
| LoadOs (e : os_error) | LoadDecode | LoadYaml.

Definition exc_of_load (e : load_error) : exc_class :=
  match e with
  | LoadOs e' => exc_of_os e'
  | LoadDecode => UnicodeDecodeError
  | LoadYaml => YAMLError
  end.

(** ** Values and dictionaries *)

(** What [yaml.safe_load] yields, [None] for the empty document. A mapping
    whose keys are all strings, as the annotations [Dict[str, Any]] have it,
    is a [VDict]; a mapping with a key of another kind, a number or a date
    as YAML reads them from an unquoted key, is a [VMap], which keeps every
    key as the value it is. [VOther] stands for the objects the program has
    no use for: a float, a date, a set. *)
#[warnings="-register-all"]
Inductive value : Type :=
| VNone
| VBool (b : bool)
| VInt (n : Z)
| VStr (s : string)
| VList (l : list value)
| VDict (d : list (string * value))
| VBytes (b : list Byte.byte)
| VOther (repr : string)
| VMap (items : list (value * value)).

(** A Python [dict] keeps its keys in insertion order: an association list
    whose keys are pairwise different. *)
Definition dict (V : Type) : Type := list (string * V).

(** [d.get(k)], [None] when the key is missing. *)
Fixpoint dict_get {V} (k : string) (d : dict V) : option V :=
  match d with
  | [] => None
  | (k', v) :: d' => if String.eqb k k' then Some v else dict_get k d'
  end.

(** [d[k] = v]: a known key keeps its place and takes the new value, a new key
    goes to the end. *)
Fixpoint dict_set {V} (k : string) (v : V) (d : dict V) : dict V :=
  match d with
  | [] => [(k, v)]
  | (k', v') :: d' =>
      if String.eqb k k' then (k', v) :: d' else (k', v') :: dict_set k v d'
  end.

Definition dict_keys {V} (d : dict V) : list string := map fst d.
Definition dict_values {V} (d : dict V) : list V := map snd d.

(** [m.get(k)] for a string [k] on a mapping with keys of any kind: only a
    key that is a string can be equal to [k]. *)
Fixpoint item_get (k : string) (items : list (value * value)) : option value :=
  match items with
  | [] => None
  | (VStr k', v) :: items' => if String.eqb k k' then Some v else item_get k items'
  | _ :: items' => item_get k items'
  end.

(** The entries of a mapping, whatever its keys. *)
Definition items_of (obj : value) : option (list (value * value)) :=
  match obj with
  | VDict d => Some (map (fun kv => (VStr (fst kv), snd kv)) d)
  | VMap items => Some items
  | _ => None
  end.

(** [x in l] for a list of strings. *)
Definition str_in (x : string) (l : list string) : bool := existsb (String.eqb x) l.

(** ** Effects *)

(** A computation either returns or raises. *)
Inductive outcome (A : Type) : Type :=
| Ok (a : A)
| Raise (e : exc_class).
Arguments Ok {A} a.
Arguments Raise {A} e.

(** State and exceptions: the state survives a raise, as a file written or a
    handler attached before the fault does. *)
Definition M (S A : Type) : Type := S -> outcome A * S.

Definition ret {S A} (a : A) : M S A := fun s => (Ok a, s).

Definition raise {S A} (e : exc_class) : M S A := fun s => (Raise e, s).

Definition bind {S A B} (m : M S A) (k : A -> M S B) : M S B :=
  fun s => match m s with
           | (Ok a, s') => k a s'
           | (Raise e, s') => (Raise e, s')
           end.

(** [try: m except ...: h]: the handler sees the exception and the state the
    body left. *)
Definition try_except {S A} (m : M S A) (h : exc_class -> M S A) : M S A :=
  fun s => match m s with
           | (Ok a, s') => (Ok a, s')
           | (Raise e, s') => h e s'
           end.

(** [with resource: m], seen from the end: [release] runs whether [m] returned
    or raised, and an exception of its own replaces the one in flight. *)
Definition finally {S A} (m : M S A) (release : M S unit) : M S A :=
  fun s => match m s with
           | (r, s') =>
               match release s' with
               | (Ok _, s'') => (r, s'')
               | (Raise e, s'') => (Raise e, s'')
               end
           end.

Declare Scope py_scope.
Delimit Scope py_scope with py.
Notation "x <- m ;; k" := (bind m (fun x => k))
  (at level 100, m at next level, right associativity) : py_scope.
Notation "m ;;; k" := (bind m (fun _ => k))
  (at level 100, right associativity) : py_scope.

(** [for x in l: body(x)]. *)
Fixpoint for_each {S A} (l : list A) (body : A -> M S unit) : M S unit :=
  match l with
  | [] => ret tt
  | x :: l' => bind (body x) (fun _ => for_each l' body)
  end.

(** ** The world outside *)

Definition chunk : Type := list Byte.byte.

(** [datetime.now()]. *)
Record datetime : Type := {
  year : Z; month : Z; day : Z; hour : Z; minute : Z; second : Z
}.

(** [strftime("%Y-%m")]; a current year has its four digits. *)
Definition strftime_Y_m (now : datetime) : string :=
  decimal (year now) +:+ "-" +:+ zero_pad 2 (decimal (month now)).

(** [strftime("%Y%m%d_%H%M%S")]. *)
Definition strftime_Ymd_HMS (now : datetime) : string :=
  decimal (year now) +:+ zero_pad 2 (decimal (month now)) +:+ zero_pad 2 (decimal (day now))
  +:+ "_" +:+ zero_pad 2 (decimal (hour now)) +:+ zero_pad 2 (decimal (minute now))
  +:+ zero_pad 2 (decimal (second now)).

(** Levels of the [logging] module. *)
Definition DEBUG : Z := 10.
Definition INFO : Z := 20.
Definition WARNING : Z := 30.
Definition ERROR : Z := 40.

(** The log calls of [download_data.py], one constructor per call site, with
    the values its f-string shows. *)
Inductive message : Type :=
| MsgStartingDownload (url : string)
| MsgFileSize (total_size : Z)
| MsgDownloaded (local_path : string)
| MsgTimeoutError (url : string)
| MsgHTTPError (url : string) (e : exc_class)
| MsgRequestError (url : string) (e : exc_class)
| MsgWriteError (local_path : string) (e : exc_class)
| MsgStartingBatch (output_dir : string)
| MsgTimestamp (now : datetime)
| MsgFilesToDownload (file_types : list string)
| MsgDownloading (file_type filename : string)
| MsgURL (url : string)
| MsgDestination (local_path : string)
| MsgRule
| MsgSummary (successful total : nat)
| MsgFailedDownloads (failed : nat)
| MsgFailedFiles (failed_files : list string).

(** What the program does to the world, in the order it does it. *)
Inductive event : Type :=
| EvNow
| EvExists (p : string)
| EvLoadYaml (p : string)
| EvMkdir (p : string) (parents exist_ok : bool)
| EvGet (url : string) (stream : bool) (timeout : Z)
| EvOpen (p : string)
| EvWrite (p : string) (data : chunk)
| EvClose (p : string)
| EvTqdmOpen (total : Z) (desc : string)
| EvTqdmUpdate (n : Z)
| EvTqdmClose
| EvLog (level : Z) (msg : message).

Definition trace : Type := list event.

(** An HTTP response as [download_file] looks at it: the status, the
    [content-length] header when there is one, and the body cut in chunks of
    the asked size, which may break off with an exception. *)
Record response : Type := {
  status_code : Z;
  content_length : option string;
  iter_content : Z -> list chunk * option request_error
}.

(** The answers of the world; each may depend on all that happened before.
    [exists_result] answers [Path.exists], which raises the errors of the
    file system other than a missing file. [tqdm_result] answers the calls
    on the progress bar, which writes to the terminal and does arithmetic on
    the time that passed: whatever exception comes out of that library is
    named by its class. *)
Record env : Type := {
  clock : trace -> datetime;
  exists_result : trace -> string -> os_error + bool;
  load_result : trace -> string -> load_error + value;
  mkdir_result : trace -> string -> option path_error;
  get_result : trace -> string -> request_error + response;
  open_result : trace -> string -> option path_error;
  write_result : trace -> string -> chunk -> option os_error;
  close_result : trace -> string -> option os_error;
  tqdm_result : trace -> option exc_class
}.

(** [pathlib], taken as given. A path is written as the string [str] gives:
    [path_of s] is [str(Path(s))], [joinpath p s] is [str(Path(p) / s)]. *)
Class Pathlib : Type := {
  path_of : string -> string;
  joinpath : string -> string -> string;
  path_parent : string -> string;
  path_name : string -> string
}.

(** An effect is recorded after the world has answered on what came before. *)
Definition effect {A} (ev : event) (answer : trace -> outcome A) : M trace A :=
  fun t => (answer t, t ++ [ev]).

Definition os_outcome (r : option os_error) : outcome unit :=
  match r with
  | Some e => Raise (exc_of_os e)
  | None => Ok tt
  end.

Definition path_outcome (r : option path_error) : outcome unit :=
  match r with
  | Some e => Raise (exc_of_path e)
  | None => Ok tt
  end.

Definition bar_outcome (r : option exc_class) : outcome unit :=
  match r with
  | Some e => Raise e
  | None => Ok tt
  end.

Definition log (level : Z) (msg : message) : M trace unit :=
  effect (EvLog level msg) (fun _ => Ok tt).

Local Open Scope py_scope.

(** ** utils/config.py *)

Section Config.
Context {pathlib : Pathlib} (E : env).

Definition default_config_path : string := "configs/config.yaml".

Definition load_config (config_path : string) : M trace value :=
  let config_file := path_of config_path in
  found <- effect (EvExists config_file)
             (fun t => match exists_result E t config_file with
                       | inl e => Raise (exc_of_os e)
                       | inr found => Ok found
                       end);;
  if negb found then raise FileNotFoundError
  else
    effect (EvLoadYaml config_file)
      (fun t => match load_result E t config_file with
                | inl e => Raise (exc_of_load e)
                | inr config => Ok config
                end).

(** [obj.get(key, default)]: only a mapping has the method. *)
Definition py_get {S} (obj : value) (key : string) (default : value) : M S value :=
  match obj with
  | VDict d => ret (match dict_get key d with Some v => v | None => default end)
  | VMap items => ret (match item_get key items with Some v => v | None => default end)
  | _ => raise AttributeError
  end.

(** [if config is None: config = load_config()]. *)
Definition config_or_default (config : value) : M trace value :=
  match config with
  | VNone => load_config default_config_path
  | _ => ret config
  end.

Definition get_insee_urls (config : value) : M trace value :=
  config <- config_or_default config;;
  insee_config <- py_get config "insee" (VDict []);;
  py_get insee_config "download_urls" (VDict []).

Definition get_insee_metadata (config : value) : M trace value :=
  config <- config_or_default config;;
  insee_config <- py_get config "insee" (VDict []);;
  py_get insee_config "metadata" (VDict []).

Definition get_data_paths (config : value) : M trace value :=
  config <- config_or_default config;;
  py_get config "paths" (VDict []).
End Config.

(** ** utils/logger.py *)

(** Where a handler writes: [StreamHandler(sys.stdout)], a
    [FileHandler(path, mode="a")], or the module's handler of last resort. *)
Inductive sink : Type :=
| Console
| LogFile (p : string)
| LastResort.

#[global] Instance sink_eq_dec : EqDecision sink.
Proof. solve_decision. Defined.

Record handler : Type := { h_sink : sink; h_level : Z }.

(** A logger: its level, its handlers, whether its records go on to the
    logger above, and the name of that logger ([None] for the root logger). *)
Record logger : Type := {
  l_level : Z;
  l_handlers : list handler;
  l_propagate : bool;
  l_parent : option string
}.

(** The arguments of [setup_logger] after [name]. *)
Record options : Type := {
  log_dir : option string;
  log_file : option string;
  level : Z;
  console_output : bool;
  file_output : bool
}.

Definition default_options : options :=
  {| log_dir := Some "logs"; log_file := None; level := INFO;
     console_output := true; file_output := true |}.

(** What the world answers during one call of [setup_logger]. *)
Record setup_io : Type := {
  io_now : datetime;
  io_mkdir : option path_error;
  io_open : option path_error
}.

(** The loggers of the process by name; [logging.getLogger] gives the root
    logger for the empty name and for ["root"]. *)
Definition logger_key (name : string) : string :=
  if String.eqb name "" then "root" else name.

(** A logger nobody configured: no level of its own, no handler; the root
    logger starts at [WARNING] and is the one logger that has none above. *)
Definition fresh_logger (key : string) : logger :=
  {| l_level := if String.eqb key "root" then WARNING else 0;
     l_handlers := []; l_propagate := true;
     l_parent := if String.eqb key "root" then None else Some "root" |}.

Definition find_logger (reg : gmap string logger) (key : string) : logger :=
  match reg !! key with
  | Some l => l
  | None => fresh_logger key
  end.

(** [s.rfind(c, 0, bound)]: the last place before [bound] at which [s] has
    [c]. *)
Fixpoint rfind_char (c : ascii) (s : string) (bound : nat) : option nat :=
  match bound, s with
  | S bound', String c' s' =>
      match rfind_char c s' bound' with
      | Some i => Some (S i)
      | None => if Ascii.eqb c' c then Some 0%nat else None
      end
  | _, _ => None
  end.

(** The names [Manager._fixupParents] looks up for a logger, nearest first:
    [i = name.rfind(".")], then [i = name.rfind(".", 0, i - 1)] as long as
    [i > 0], and [name[:i]] each time. A dot just before the dot found is
    passed over, and a dot at the front ends the search. *)
Fixpoint loop_prefixes_from (fuel : nat) (name : string) (i : option nat) : list string :=
  match fuel, i with
  | S fuel', Some (S i') =>
      String.substring 0 (S i') name
      :: loop_prefixes_from fuel' name (rfind_char "."%char name i')
  | _, _ => []
  end.

Definition loop_prefixes (name : string) : list string :=
  loop_prefixes_from (String.length name) name
    (rfind_char "."%char name (String.length name)).

(** [Manager._fixupParents]: the logger above a new one is the nearest of
    these names that is a logger already, and the root logger when there is
    none. *)
Fixpoint nearest_logger (reg : gmap string logger) (names : list string) : string :=
  match names with
  | [] => "root"
  | n :: rest => match reg !! n with
                 | Some _ => n
                 | None => nearest_logger reg rest
                 end
  end.

(** [Manager._fixupChildren], for one logger [l] of name [c] when the logger
    [key] is created: [l] comes under the new logger when [key] is one of the
    names that were looked up for it, unless the name of its parent starts
    with [key]. *)
Definition adopt (key c : string) (l : logger) : logger :=
  match l_parent l with
  | Some p =>
      if existsb (String.eqb key) (loop_prefixes c) && negb (startswith p key)
      then {| l_level := l_level l; l_handlers := l_handlers l;
              l_propagate := l_propagate l; l_parent := Some key |}
      else l
  | None => l
  end.

Definition fixupChildren (key : string) (reg : gmap string logger) : gmap string logger :=
  map_imap (fun c l => Some (adopt key c l)) reg.

(** [logging.getLogger(name)]: the root logger for its names, the logger of
    the name when there is one, and otherwise a new logger, which takes its
    place in the hierarchy. *)
Definition getLogger (name : string) : M (gmap string logger) string :=
  fun reg =>
    let key := logger_key name in
    if String.eqb key "root" then (Ok key, reg)
    else match reg !! key with
         | Some _ => (Ok key, reg)
         | None =>
             (Ok key,
              <[key := {| l_level := 0; l_handlers := []; l_propagate := true;
                          l_parent := Some (nearest_logger reg (loop_prefixes key)) |}]>
                (fixupChildren key reg))
         end.

Definition setLevel (key : string) (lvl : Z) : M (gmap string logger) unit :=
  fun reg =>
    let l := find_logger reg key in
    (Ok tt, <[key := {| l_level := lvl; l_handlers := l_handlers l;
                        l_propagate := l_propagate l; l_parent := l_parent l |}]> reg).

Definition addHandler (key : string) (h : handler) : M (gmap string logger) unit :=
  fun reg =>
    let l := find_logger reg key in
    (Ok tt, <[key := {| l_level := l_level l; l_handlers := l_handlers l ++ [h];
                        l_propagate := l_propagate l; l_parent := l_parent l |}]> reg).

Definition handlers_of (key : string) : M (gmap string logger) (list handler) :=
  fun reg => (Ok (l_handlers (find_logger reg key)), reg).

Definition nonempty_str (s : string) : bool := negb (String.eqb s "").

(** A call to the file system whose answer is known: [log_path.mkdir(...)],
    the opening of the file by [FileHandler]. *)
Definition answered (r : option path_error) : M (gmap string logger) unit :=
  fun reg => (path_outcome r, reg).

Section Logger.
Context {pathlib : Pathlib}.

Definition setup_logger (io : setup_io) (name : string) (o : options)
  : M (gmap string logger) string :=
  logger <- getLogger name;;
  setLevel logger (level o);;;
  hs <- handlers_of logger;;
  match hs with
  | _ :: _ => ret logger
  | [] =>
      (if console_output o
       then addHandler logger {| h_sink := Console; h_level := level o |}
       else ret tt);;;
      (if file_output o
       then match log_dir o with
            | Some dir =>
                if nonempty_str dir then
                  let log_path := path_of dir in
                  answered (io_mkdir io);;;
                  let file :=
                    match log_file o with
                    | Some f => f
                    | None => "app_" +:+ strftime_Ymd_HMS (io_now io) +:+ ".log"
                    end in
                  answered (io_open io);;;
                  addHandler logger
                    {| h_sink := LogFile (joinpath log_path file); h_level := level o |}
                else ret tt
            | None => ret tt
            end
       else ret tt);;;
      ret logger
  end.

(** [get_logger(name)]. *)
Definition get_logger (name : string) : M (gmap string logger) string := getLogger name.
End Logger.

(** *** What a log call writes *)

(** The loggers above a logger, nearest first: its parent, the parent of
    that one, and so on up to the root logger. Every logger above another has
    a shorter name, or is the root logger. *)
Fixpoint lineage (fuel : nat) (reg : gmap string logger) (key : string) : list string :=
  match fuel with
  | O => []
  | S fuel' => match l_parent (find_logger reg key) with
               | Some p => p :: lineage fuel' reg p
               | None => []
               end
  end.

Definition ancestors (reg : gmap string logger) (key : string) : list string :=
  lineage (S (String.length key)) reg key.

(** [Logger.getEffectiveLevel]: the first level along the chain that is set. *)
Definition effective_level (reg : gmap string logger) (key : string) : Z :=
  match List.filter (fun lv => negb (lv =? 0))
          (map (fun k => l_level (find_logger reg k)) (key :: ancestors reg key)) with
  | lv :: _ => lv
  | [] => 0
  end.

(** [Logger.callHandlers]: handlers of the chain, up to the first logger that
    does not propagate. *)
Fixpoint chain_handlers (reg : gmap string logger) (chain : list string) : list handler :=
  match chain with
  | [] => []
  | k :: rest =>
      let l := find_logger reg k in
      l_handlers l ++ (if l_propagate l then chain_handlers reg rest else [])
  end.

(** The lines one call [logger.log(lvl, ...)] writes, as the sinks that
    receive them. [Logger.isEnabledFor] refuses a level that is not above
    [manager.disable], which nobody sets and so is 0, before it asks for the
    effective level. *)
Definition log_lines (reg : gmap string logger) (key : string) (lvl : Z) : list sink :=
  if (0 <? lvl) && (effective_level reg key <=? lvl) then
    match chain_handlers reg (key :: ancestors reg key) with
    | [] => if WARNING <=? lvl then [LastResort] else []
    | hs => map h_sink (List.filter (fun h => h_level h <=? lvl) hs)
    end
  else [].

(** ** ingestion/download_data.py *)

Section Ingestion.
Context {pathlib : Pathlib} (E : env).

(** [Path(p).mkdir(parents=True, exist_ok=True)]. *)
Definition mkdir_parents (p : string) : M trace unit :=
  effect (EvMkdir p true true) (fun t => path_outcome (mkdir_result E t p)).

(** [requests.get(url, stream=True, timeout=30)]. *)
Definition requests_get (url : string) : M trace response :=
  effect (EvGet url true 30)
    (fun t => match get_result E t url with
              | inl e => Raise (exc_of_request e)
              | inr r => Ok r
              end).

(** [response.raise_for_status()]: statuses 400 to 599 are errors. *)
Definition raise_for_status (r : response) : M trace unit :=
  if (400 <=? status_code r) && (status_code r <? 600) then raise HTTPError else ret tt.

(** [int(response.headers.get("content-length", 0))]. *)
Definition total_size_of (r : response) : M trace Z :=
  match content_length r with
  | None => ret 0
  | Some h => match int_of_str h with
              | Some n => ret n
              | None => raise ValueError
              end
  end.

(** The f-string of the size message divides before anything is logged. *)
Definition log_file_size (total_size : Z) : M trace unit :=
  if truediv_overflows total_size (1024 * 1024) then raise OverflowError
  else log DEBUG (MsgFileSize total_size).

Definition open_wb (p : string) : M trace unit :=
  effect (EvOpen p) (fun t => path_outcome (open_result E t p)).

Definition file_write (p : string) (data : chunk) : M trace unit :=
  effect (EvWrite p data) (fun t => os_outcome (write_result E t p data)).

Definition file_close (p : string) : M trace unit :=
  effect (EvClose p) (fun t => os_outcome (close_result E t p)).

(** [tqdm(total=..., unit="B", unit_scale=True, desc=...)]: the bar is drawn
    at once, and the drawing adds 0.5 to the total. *)
Definition bar_open (total : Z) (desc : string) : M trace unit :=
  effect (EvTqdmOpen total desc)
    (fun t => if to_float_overflows total then Raise OverflowError
              else bar_outcome (tqdm_result E t)).

(** [pbar.update(n)] and the closing of the bar when its [with] block ends. *)
Definition bar_update (n : Z) : M trace unit :=
  effect (EvTqdmUpdate n) (fun t => bar_outcome (tqdm_result E t)).

Definition bar_close : M trace unit :=
  effect EvTqdmClose (fun t => bar_outcome (tqdm_result E t)).

(** [for chunk in response.iter_content(chunk_size): if chunk: ...]; the
    exception that ends a broken body comes after its last chunk. *)
Definition write_body (r : response) (chunk_size : Z) (p : string) (progress : bool)
  : M trace unit :=
  let '(chunks, fault) := iter_content r chunk_size in
  for_each chunks
    (fun data =>
       match data with
       | [] => ret tt
       | _ :: _ =>
           file_write p data;;;
           if progress then bar_update (Z.of_nat (length data)) else ret tt
       end);;;
  match fault with
  | Some e => raise (exc_of_request e)
  | None => ret tt
  end.

(** The body of the [try] statement of [download_file]. *)
Definition download_attempt (url local_path : string) (chunk_size : Z) (show_progress : bool)
  : M trace bool :=
  log DEBUG (MsgStartingDownload url);;;
  response <- requests_get url;;
  raise_for_status response;;;
  total_size <- total_size_of response;;
  log_file_size total_size;;;
  open_wb local_path;;;
  finally
    (if show_progress && (0 <? total_size)
     then
       bar_open total_size (path_name local_path);;;
       finally (write_body response chunk_size local_path true) bar_close
     else write_body response chunk_size local_path false)
    (file_close local_path);;;
  log INFO (MsgDownloaded local_path);;;
  ret true.

(** Its [except] clauses, tried in the order they are written. *)
Definition download_handlers (url local_path : string) (e : exc_class) : M trace bool :=
  if issubclass e Timeout then log ERROR (MsgTimeoutError url);;; ret false
  else if issubclass e HTTPError then log ERROR (MsgHTTPError url e);;; ret false
  else if issubclass e RequestException then log ERROR (MsgRequestError url e);;; ret false
  else if issubclass e OSError then log ERROR (MsgWriteError local_path e);;; ret false
  else raise e.

Definition download_file (url local_path : string) (chunk_size : Z) (show_progress : bool)
  : M trace bool :=
  let local_path := path_of local_path in
  mkdir_parents (path_parent local_path);;;
  try_except
    (download_attempt url local_path chunk_size show_progress)
    (download_handlers url local_path).

(** [obj[key]] for a string [key]: a mapping looks the key up, and nothing
    else a document holds can be indexed by a string. *)
Definition py_getitem {S} (obj : value) (key : string) : M S value :=
  match obj with
  | VDict d => match dict_get key d with
               | Some v => ret v
               | None => raise KeyError
               end
  | VMap items => match item_get key items with
                  | Some v => ret v
                  | None => raise KeyError
                  end
  | _ => raise TypeError
  end.

(** [Path(obj)]. *)
Definition py_Path {S} (obj : value) : M S string :=
  match obj with
  | VStr s => ret (path_of s)
  | _ => raise TypeError
  end.

(** [obj.items()]. *)
Definition py_items {S} (obj : value) : M S (list (value * value)) :=
  match items_of obj with
  | Some items => ret items
  | None => raise AttributeError
  end.

(** [key.endswith("_url")] asks for a key that is a string: bytes have the
    method and refuse a string as its argument, the other keys a document
    can hold do not have the method. *)
Definition py_endswith_method {S} (key : value) : M S string :=
  match key with
  | VStr s => ret s
  | VBytes _ => raise TypeError
  | _ => raise AttributeError
  end.

(** The keys as the loop over [insee_urls.items()] meets them, in the order
    of the mapping. The loop has no effect but to fill its own mapping, so
    the first key that is no string ends it with its exception whatever was
    selected before. *)
Fixpoint str_keyed {S} (items : list (value * value)) : M S (dict value) :=
  match items with
  | [] => ret []
  | (key, url) :: rest =>
      key <- py_endswith_method key;;
      entries <- str_keyed rest;;
      ret ((key, url) :: entries)
  end.

(** [url.split("/")]: the attribute is looked up before the call; bytes have
    the method and refuse a string as separator, and of the other values a
    document holds only a string has it. *)
Definition py_split_method {S} (url : value) : M S string :=
  match url with
  | VStr s => ret s
  | VBytes _ => raise TypeError
  | _ => raise AttributeError
  end.

(** [files_to_download is None or file_type in files_to_download]. *)
Definition wanted (files_to_download : option (list string)) (file_type : string) : bool :=
  match files_to_download with
  | None => true
  | Some l => str_in file_type l
  end.

(** The loop that fills [urls_to_download]. *)
Definition urls_to_download (insee_urls : dict value) (files_to_download : option (list string))
  : dict value :=
  fold_left
    (fun acc '(key, url) =>
       if endswith key "_url" then
         let file_type := str_replace key "_url" "" in
         if wanted files_to_download file_type then dict_set file_type url acc else acc
       else acc)
    insee_urls [].

(** The loop that fills [results]. *)
Fixpoint download_each (output_dir : string) (todo : dict value) (results : dict bool)
  : M trace (dict bool) :=
  match todo with
  | [] => ret results
  | (file_type, url) :: rest =>
      url <- py_split_method url;;
      let filename := last_item (str_split "/" url) in
      let local_path := joinpath output_dir filename in
      log INFO (MsgDownloading file_type filename);;;
      log DEBUG (MsgURL url);;;
      log DEBUG (MsgDestination local_path);;;
      success <- download_file url local_path 8192 true;;
      download_each output_dir rest (dict_set file_type success results)
  end.

Definition now : M trace datetime := effect EvNow (fun t => Ok (clock E t)).

(** The destination directory: [if output_dir is None: ... else: ...]. *)
Definition destination_of (data_paths : value) (output_dir : option string)
  : M trace string :=
  match output_dir with
  | None =>
      t <- now;;
      let timestamp := strftime_Y_m t in
      bronze <- py_getitem data_paths "bronze";;
      bronze <- py_Path bronze;;
      ret (joinpath bronze timestamp)
  | Some dir => ret (path_of dir)
  end.

Definition download_insee_files (config : value) (output_dir : option string)
    (files_to_download : option (list string)) : M trace (dict bool) :=
  insee_urls <- get_insee_urls E config;;
  data_paths <- get_data_paths E config;;
  output_dir <- destination_of data_paths output_dir;;
  mkdir_parents output_dir;;;
  log INFO (MsgStartingBatch output_dir);;;
  t <- now;;
  log INFO (MsgTimestamp t);;;
  insee_urls <- py_items insee_urls;;
  insee_urls <- str_keyed insee_urls;;
  let urls := urls_to_download insee_urls files_to_download in
  log INFO (MsgFilesToDownload (dict_keys urls));;;
  results <- download_each output_dir urls [];;
  let successful := length (List.filter (fun v => v) (dict_values results)) in
  let failed := (length results - successful)%nat in
  log INFO MsgRule;;;
  log INFO (MsgSummary successful (length results));;;
  (if (0 <? failed)%nat
   then
     log WARNING (MsgFailedDownloads failed);;;
     log WARNING (MsgFailedFiles (dict_keys (List.filter (fun kv => negb (snd kv)) results)))
   else ret tt);;;
  log INFO MsgRule;;;
  ret results.
End Ingestion.

(** ** A concrete world, for examples *)

(** Paths already in normal form: joining puts a slash in between, the parent
    drops the last component. *)
Fixpoint join_with (sep : string) (l : list string) : string :=
  match l with
  | [] => ""
  | [x] => x
  | x :: l' => x +:+ sep +:+ join_with sep l'
  end.

Definition simple_parent (p : string) : string :=
  match str_split "/" p with
  | [_] => "."
  | parts => join_with "/" (removelast parts)
  end.

#[global] Instance simple_paths : Pathlib := {|
  path_of := fun s => s;
  joinpath := fun p s => p +:+ "/" +:+ s;
  path_parent := simple_parent;
  path_name := fun p => last_item (str_split "/" p)
|}.

Definition noon : datetime :=
  {| year := 2024; month := 3; day := 9; hour := 12; minute := 0; second := 0 |}.

Definition three_bytes : chunk := [Byte.x61; Byte.x62; Byte.x63].

Definition ok_response : response :=
  {| status_code := 200; content_length := Some "3";
     iter_content := fun _ => ([three_bytes], None) |}.

(** A world in which every URL answers [respond url] and the disk never fails. *)
Definition world (respond : string -> request_error + response) : env :=
  {| clock := fun _ => noon;
     exists_result := fun _ _ => inr true;
     load_result := fun _ _ => inr (VDict []);
     mkdir_result := fun _ _ => None;
     get_result := fun _ url => respond url;
     open_result := fun _ _ => None;
     write_result := fun _ _ _ => None;
     close_result := fun _ _ => None;
     tqdm_result := fun _ => None |}.

Definition calm : env := world (fun _ => inr ok_response).

Definition sample_config : value :=
  VDict [("insee", VDict [("download_urls",
                           VDict [("a_url", VStr "http://x/f1.parquet");
                                  ("b_url", VStr "http://x/f2.parquet")])]);
         ("paths", VDict [("bronze", VStr "/data/bronze")])].

(** ** Notions used in the statements *)

(** The URLs requested, in order; a transfer is attempted when its request
    is sent. *)
Definition requested (t : trace) : list string :=
  flat_map (fun ev => match ev with EvGet url _ _ => [url] | _ => [] end) t.

Definition transfers (t : trace) : nat := length (requested t).

(** The file types announced by "Downloading <file_type>: <filename>", the log
    call that precedes each call of [download_file]. *)
Definition announced (t : trace) : list string :=
  flat_map (fun ev => match ev with
                      | EvLog _ (MsgDownloading file_type _) => [file_type]
                      | _ => []
                      end) t.

(** Events that are neither a request nor such an announcement. *)
Definition silent (ev : event) : bool :=
  match ev with
  | EvGet _ _ _ | EvLog _ (MsgDownloading _ _) => false
  | _ => true
  end.

(** A computation that only adds silent events to the trace and raises only
    within [P]. *)
Definition quiet {A} (P : exc_class -> Prop) (m : M trace A) : Prop :=
  forall t, exists new,
    snd (m t) = t ++ new /\ forallb silent new = true /\
    match fst (m t) with Raise e => P e | Ok _ => True end.

(** The directories whose creation was asked for, in order. *)
Definition made_dirs (t : trace) : list string :=
  flat_map (fun ev => match ev with EvMkdir p _ _ => [p] | _ => [] end) t.

(** The mapping under [insee.download_urls] of a configuration that is a
    mapping; a missing key stands for the empty mapping. *)
Definition download_urls_of (config : value) : option (dict value) :=
  match config with
  | VDict d =>
      match dict_get "insee" d with
      | None => Some []
      | Some (VDict insee) =>
          match dict_get "download_urls" insee with
          | None => Some []
          | Some (VDict urls) => Some urls
          | Some _ => None
          end
      | Some _ => None
      end
  | _ => None
  end.

(** The file types derived from the keys that end with ["_url"], one per such
    key, in the order of the document. *)
Definition file_types (insee_urls : dict value) : list string :=
  map (fun key => str_replace key "_url" "")
      (List.filter (fun key => endswith key "_url") (dict_keys insee_urls)).

Definition is_str (v : value) : bool :=
  match v with
  | VStr _ => true
  | _ => false
  end.

Definition is_mapping (v : value) : bool :=
  match v with
  | VDict _ | VMap _ => true
  | _ => false
  end.

(** What a mapping holds under the key [key], when it has the key. *)
Definition entry (key : string) (m : value) : option value :=
  match m with
  | VDict d => dict_get key d
  | VMap items => item_get key items
  | _ => None
  end.

(** What [url.split("/")] raises on a value that is no string. *)
Definition split_fault (v : value) : exc_class :=
  match v with
  | VBytes _ => TypeError
  | _ => AttributeError
  end.

(** Every URL of the mapping is a string. *)
Definition urls_are_strings (d : dict value) : bool := forallb (fun kv => is_str (snd kv)) d.

(** The destination directory in the words of the specification: [output_dir]
    when supplied, else the bronze path joined with year and zero-padded
    month of [now]. *)
Definition spec_destination `{Pathlib} (now : datetime) (config : value)
    (output_dir : option string) : option string :=
  match output_dir with
  | Some dir => Some (path_of dir)
  | None =>
      match config with
      | VDict d =>
          match dict_get "paths" d with
          | Some (VDict paths) =>
              match dict_get "bronze" paths with
              | Some (VStr bronze) =>
                  Some (joinpath (path_of bronze)
                          (decimal (year now) +:+ "-" +:+ zero_pad 2 (decimal (month now))))
              | _ => None
              end
          | _ => None
          end
      | _ => None
      end
  end.

(** Directories can always be created. *)
Definition quiet_disk (E : env) : Prop := forall t p, mkdir_result E t p = None.

(** The size a response declares: [int(headers.get("content-length", 0))]. *)
Definition declared_size (r : response) : option Z :=
  match content_length r with
  | None => Some 0
  | Some h => int_of_str h
  end.

(** A [content-length] header, when present, is an integer that the size
    message can show and, when it is positive, that the progress bar can
    take for its total. *)
Definition usable_length (r : response) : bool :=
  match declared_size r with
  | Some n =>
      negb (truediv_overflows n (1024 * 1024)) && negb ((0 <? n) && to_float_overflows n)
  | None => false
  end.

Definition usable_lengths (E : env) : Prop :=
  forall t url r, get_result E t url = inr r -> usable_length r = true.

(** The progress bar never raises of its own. *)
Definition steady_bar (E : env) : Prop := forall t, tqdm_result E t = None.

(** Python hands every path over to the file system when a file is opened:
    the opening can fail with an [OSError] only. *)
Definition paths_accepted (E : env) : Prop :=
  forall t p e, open_result E t p = Some e -> exists o, e = PathOs o.

(** The failures that the [except] clauses of [download_file] are written
    for: those of the request and of the body, an HTTP error status, the
    [OSError] of the file system. *)
Definition transfer_fault (e : exc_class) : Prop :=
  (exists q, e = exc_of_request q) \/ e = HTTPError \/ (exists o, e = exc_of_os o).

(** What else the [try] body can raise: [ValueError] or [OverflowError] for
    a header that is no usable integer, what the opening of the destination
    file answers, what the progress bar raises. *)
Definition header_fault (E : env) (url : string) (e : exc_class) : Prop :=
  (e = ValueError \/ e = OverflowError) /\
  exists t r, get_result E t url = inr r /\ usable_length r = false.

Definition open_fault (E : env) (p : string) (e : exc_class) : Prop :=
  exists t pe, open_result E t p = Some pe /\ e = exc_of_path pe.

Definition bar_fault (E : env) (e : exc_class) : Prop :=
  exists t, tqdm_result E t = Some e.

(** A directory that could not be made, as the last thing that happened. *)
Definition mkdir_fault (E : env) (e : exc_class) (t' : trace) : Prop :=
  exists o t1 p,
    e = exc_of_path o /\ t' = t1 ++ [EvMkdir p true true] /\ mkdir_result E t1 p = Some o.

(** The handlers attached to the logger called [key]. *)
Definition handlers_at (reg : gmap string logger) (key : string) : list handler :=
  l_handlers (find_logger reg key).

(** What one call of [setup_logger] attaches to a logger without handlers:
    the console handler or not, a file handler or not. *)
Definition attached (o : options) (console : bool) (file : option string) : list handler :=
  (if console then [{| h_sink := Console; h_level := level o |}] else [])
  ++ match file with
     | Some p => [{| h_sink := LogFile p; h_level := level o |}]
     | None => []
     end.

(** Two loggers with the same level, the same handlers and the same
    propagation; the logger above may differ. *)
Definition same_settings (l l' : logger) : Prop :=
  l_level l' = l_level l /\ l_handlers l' = l_handlers l /\ l_propagate l' = l_propagate l.

(** A logger that a record passes unseen: no level of its own, no handler,
    and its records go on to the logger above. *)
Definition transparent (l : logger) : Prop :=
  l_level l = 0 /\ l_handlers l = [] /\ l_propagate l = true.

(** A chain of loggers without the logger [key]. *)
Definition without (key : string) (chain : list string) : list string :=
  List.filter (fun k => negb (String.eqb k key)) chain.

(** The level of the logger called [key]. *)
Definition level_at (reg : gmap string logger) (key : string) : Z :=
  l_level (find_logger reg key).

(** The options of [setup_logger(__name__, level=logging.DEBUG)]. *)
Definition debug_options : options :=
  {| log_dir := Some "logs"; log_file := None; level := DEBUG;
     console_output := true; file_output := true |}.

(** The sinks the options of a call ask for: the console, and the log file
    in the log directory, under the name given or under the name made of the
    time of the call. *)
Definition requested_sinks `{Pathlib} (now : datetime) (o : options) : list sink :=
  (if console_output o then [Console] else [])
  ++ (if file_output o
      then match log_dir o with
           | Some dir =>
               if nonempty_str dir
               then [LogFile (joinpath (path_of dir)
                                (match log_file o with
                                 | Some f => f
                                 | None => "app_" +:+ strftime_Ymd_HMS now +:+ ".log"
                                 end))]
               else []
           | None => []
           end
      else []).

(** The failure classes of a transfer in the words of the specification, and
    the exceptions each one covers. *)
Inductive failure_class : Type :=
| TransferTimeout | TransferHTTPError | TransferNetworkError | TransferIOError.

Definition classify (e : exc_class) : option failure_class :=
  match e with
  | Timeout | ConnectTimeout | ReadTimeout => Some TransferTimeout
  | HTTPError => Some TransferHTTPError
  | RequestException | ConnectionError | SSLError | TooManyRedirects
  | MissingSchema | InvalidURL | ChunkedEncodingError | ContentDecodingError =>
      Some TransferNetworkError
  | OSError | FileNotFoundError | FileExistsError | PermissionError | NotADirectoryError
  | IsADirectoryError =>
      Some TransferIOError
  | _ => None
  end.

(** The error line that names the cause. *)
Definition failure_log (c : failure_class) (url local_path : string) (e : exc_class) : message :=
  match c with
  | TransferTimeout => MsgTimeoutError url
  | TransferHTTPError => MsgHTTPError url e
  | TransferNetworkError => MsgRequestError url e
  | TransferIOError => MsgWriteError local_path e
  end.

(** The faults of loading the default configuration document: it is not
    there, looking for it fails, reading or parsing it fails. *)
Definition load_fault `{Pathlib} (E : env) (e : exc_class) : Prop :=
  let p := path_of default_config_path in
  (e = FileNotFoundError /\ exists t, exists_result E t p = inr false) \/
  (exists t o, exists_result E t p = inl o /\ e = exc_of_os o) \/
  (exists t failure, load_result E t p = inl failure /\ e = exc_of_load failure).

(** What Python raises on a configuration that has not the shape the code
    expects: a value without the method or the index asked for, a missing
    key. *)
Definition shape_fault (e : exc_class) : Prop :=
  e = AttributeError \/ e = TypeError \/ e = KeyError.

(** What the [try] body of [download_file] can raise. *)
Definition attempt_fault (E : env) (url p : string) (e : exc_class) : Prop :=
  transfer_fault e \/ header_fault E url e \/ open_fault E p e \/ bar_fault E e.

(** What reaches the caller from inside the [try] statement: an exception
    that no [except] clause takes, raised for the header, by the opening of
    the file or by the progress bar. *)
Definition escape (E : env) (url p : string) (e : exc_class) : Prop :=
  classify e = None /\ (header_fault E url e \/ open_fault E p e \/ bar_fault E e).

(** Two keys with the suffix that give the same file type. *)
Definition colliding_urls : dict value :=
  [("x_url", VStr "http://x/f1.parquet"); ("x_url_url", VStr "http://x/f2.parquet")].

Definition colliding_config : value :=
  VDict [("insee", VDict [("download_urls", VDict colliding_urls)]);
         ("paths", VDict [("bronze", VStr "/data/bronze")])].

(** A document in which a key of the URLs is a number, as YAML reads an
    unquoted [2024:]. *)
Definition config_with_number_key : value :=
  VDict [("insee", VDict [("download_urls",
                           VMap [(VStr "a_url", VStr "http://x/f1.parquet");
                                 (VInt 2024, VStr "http://x/f2.parquet")])]);
         ("paths", VDict [("bronze", VStr "/data/bronze")])].

(** A response whose [content-length] header is no number. *)
Definition odd_length_response : response :=
  {| status_code := 200; content_length := Some "abc";
     iter_content := fun _ => ([three_bytes], None) |}.

(** A world without the default configuration document. *)
Definition without_config_file : env :=
  {| clock := fun _ => noon;
     exists_result := fun _ _ => inr false;
     load_result := fun _ _ => inr (VDict []);
     mkdir_result := fun _ _ => None;
     get_result := fun _ _ => inr ok_response;
     open_result := fun _ _ => None;
     write_result := fun _ _ _ => None;
     close_result := fun _ _ => None;
     tqdm_result := fun _ => None |}.

(** One call of [setup_logger] in which the log directory and the log file
    can be made. *)
Definition fair_weather : setup_io := {| io_now := noon; io_mkdir := None; io_open := None |}.

(** A world whose disk refuses every directory. *)
Definition locked_disk : env :=
  {| clock := fun _ => noon;
     exists_result := fun _ _ => inr true;
     load_result := fun _ _ => inr (VDict []);
     mkdir_result := fun _ _ => Some (PathOs OsPermission);
     get_result := fun _ _ => inr ok_response;
     open_result := fun _ _ => None;
     write_result := fun _ _ _ => None;
     close_result := fun _ _ => None;
     tqdm_result := fun _ => None |}.

(** A world whose disk makes every directory and refuses to open a file for
    writing. *)
Definition locked_files : env :=
  {| clock := fun _ => noon;
     exists_result := fun _ _ => inr true;
     load_result := fun _ _ => inr (VDict []);
     mkdir_result := fun _ _ => None;
     get_result := fun _ _ => inr ok_response;
     open_result := fun _ _ => Some (PathOs OsPermission);
     write_result := fun _ _ _ => None;
     close_result := fun _ _ => None;
     tqdm_result := fun _ => None |}.

(** A response that declares [2^1024] bytes. *)
Definition huge_length : string := Eval vm_compute in decimal (2 ^ 1024).

Definition huge_response : response :=
  {| status_code := 200; content_length := Some huge_length;
     iter_content := fun _ => ([three_bytes], None) |}.

(** A world in which Python refuses the path of every file to open, as it
    does for a file name with a NUL character in it. *)
Definition nul_in_file_name : env :=
  {| clock := fun _ => noon;
     exists_result := fun _ _ => inr true;
     load_result := fun _ _ => inr (VDict []);
     mkdir_result := fun _ _ => None;
     get_result := fun _ _ => inr ok_response;
     open_result := fun _ _ => Some PathNul;
     write_result := fun _ _ _ => None;
     close_result := fun _ _ => None;
     tqdm_result := fun _ => None |}.

(** ** Further notions: what a download leaves behind *)

(** The bytes passed to [file.write] for the file [p], in order. *)
Definition written (p : string) (t : trace) : list Byte.byte :=
  flat_map (fun ev => match ev with
                      | EvWrite q data => if String.eqb p q then data else []
                      | _ => []
                      end) t.

(** The sum of the steps of the progress bar. *)
Definition progress_total (t : trace) : Z :=
  fold_right Z.add 0
    (flat_map (fun ev => match ev with EvTqdmUpdate n => [n] | _ => [] end) t).

(** The files opened for writing, in order. *)
Definition opened (t : trace) : list string :=
  flat_map (fun ev => match ev with EvOpen p => [p] | _ => [] end) t.

(** The events of the loop over the chunks when every write succeeds: empty
    chunks are skipped, the bar moves after each write when there is one. *)
Definition body_events (p : string) (progress : bool) (chunks : list chunk) : trace :=
  flat_map (fun data => match data with
                        | [] => []
                        | _ :: _ =>
                            EvWrite p data
                            :: (if progress
                                then [EvTqdmUpdate (Z.of_nat (length data))]
                                else [])
                        end) chunks.

(** The events between the opening and the closing of the destination file
    when every write succeeds. *)
Definition store_events `{Pathlib} (p : string) (show_progress : bool) (total_size : Z)
    (chunks : list chunk) : trace :=
  if show_progress && (0 <? total_size)
  then EvTqdmOpen total_size (path_name p) :: body_events p true chunks ++ [EvTqdmClose]
  else body_events p false chunks.

(** A disk on which directories and files can always be made, written and
    closed. *)
Definition sound_disk (E : env) : Prop :=
  (forall t p, mkdir_result E t p = None) /\
  (forall t p, open_result E t p = None) /\
  (forall t p data, write_result E t p data = None) /\
  (forall t p, close_result E t p = None).

(** The status is one [raise_for_status] lets pass. *)
Definition status_passes (r : response) : bool :=
  negb ((400 <=? status_code r) && (status_code r <? 600)).

(** The answer to a request is a response with a passing status whose body
    comes to its end. *)
Definition delivers (chunk_size : Z) (answer : request_error + response) : bool :=
  match answer with
  | inl _ => false
  | inr r =>
      status_passes r &&
      match snd (iter_content r chunk_size) with
      | None => true
      | Some _ => false
      end
  end.

(** The exceptions of [requests] that the first [except] clause takes. *)
Definition is_timeout (q : request_error) : bool :=
  match q with
  | ReqTimeout | ReqConnectTimeout | ReqReadTimeout => true
  | _ => false
  end.

(** A world in which no server answers in time. *)
Definition silent_server : env := world (fun _ => inl ReqConnectTimeout).

(** The answer of a server that does not have the file. *)
Definition not_found_response : response :=
  {| status_code := 404; content_length := Some "9";
     iter_content := fun _ => ([three_bytes; three_bytes; three_bytes], None) |}.

(** Every request for [url] gets the answer [respond url]. *)
Definition answers (E : env) (respond : string -> request_error + response) : Prop :=
  forall t url, get_result E t url = respond url.

(** Whether the URL of an entry was fetched to its end, as
    [download_insee_files] calls [download_file]: chunks of 8192 bytes. *)
Definition fetched (respond : string -> request_error + response) (url : value) : bool :=
  match url with
  | VStr u => delivers 8192 (respond u)
  | _ => false
  end.

(** A body that breaks off after two chunks. *)
Definition broken_response : response :=
  {| status_code := 200; content_length := Some "9";
     iter_content := fun _ => ([three_bytes; three_bytes], Some ReqChunkedEncoding) |}.

(** Servers that have the first file of the example and not the second. *)
Definition mixed_answers (url : string) : request_error + response :=
  if String.eqb url "http://x/f2.parquet" then inr not_found_response else inr ok_response.

(** The entries of the document that the loop of [download_insee_files]
    looks at twice: the key ends with ["_url"] and the file type is asked
    for. *)
Definition selected_entry (files_to_download : option (list string))
    (entry : string * value) : bool :=
  endswith (fst entry) "_url"
  && match files_to_download with
     | None => true
     | Some l => str_in (str_replace (fst entry) "_url" "") l
     end.

(** A document in which the second URL was left empty. *)
Definition config_with_empty_url : value :=
  VDict [("insee", VDict [("download_urls",
                           VDict [("a_url", VStr "http://x/f1.parquet");
                                  ("b_url", VNone);
                                  ("c_url", VStr "http://x/f3.parquet")])]);
         ("paths", VDict [("bronze", VStr "/data/bronze")])].

(** A world whose disk holds [document] as the configuration document. *)
Definition with_document (document : value) : env :=
  {| clock := fun _ => noon;
     exists_result := fun _ _ => inr true;
     load_result := fun _ _ => inr document;
     mkdir_result := fun _ _ => None;
     get_result := fun _ _ => inr ok_response;
     open_result := fun _ _ => None;
     write_result := fun _ _ _ => None;
     close_result := fun _ _ => None;
     tqdm_result := fun _ => None |}.

(** A world whose configuration document is there at first and gone once
    something has happened. *)
Definition vanishing_document : env :=
  {| clock := fun _ => noon;
     exists_result := fun t _ => match t with [] => inr true | _ :: _ => inr false end;
     load_result := fun _ _ => inr sample_config;
     mkdir_result := fun _ _ => None;
     get_result := fun _ _ => inr ok_response;
     open_result := fun _ _ => None;
     write_result := fun _ _ _ => None;
     close_result := fun _ _ => None;
     tqdm_result := fun _ => None |}.

(** ** Further notions: loggers *)

(** The console handler that [setup_logger] makes. *)
Definition console_handler (o : options) : handler :=
  {| h_sink := Console; h_level := level o |}.

(** One call of [setup_logger] in which the log directory cannot be made,
    and one in which the log file cannot be opened. *)
Definition no_log_dir : setup_io :=
  {| io_now := noon; io_mkdir := Some (PathOs OsPermission); io_open := None |}.

Definition no_log_file : setup_io :=
  {| io_now := noon; io_mkdir := None; io_open := Some (PathOs OsPermission) |}.

(** ** Further notions: the destination file *)

(** The events on a file: its opening, the writes, its closing. *)
Definition on_file (ev : event) : bool :=
  match ev with
  | EvOpen _ | EvWrite _ _ | EvClose _ => true
  | _ => false
  end.

Definition file_events (t : trace) : trace := List.filter on_file t.

Definition off_file (ev : event) : bool := negb (on_file ev).

(** What the loop over the chunks does: writes to [p] and steps of the
    progress bar. *)
Definition write_or_bar (p : string) (ev : event) : bool :=
  match ev with
  | EvWrite q _ => String.eqb p q
  | EvTqdmOpen _ _ | EvTqdmUpdate _ | EvTqdmClose => true
  | _ => false
  end.

(** A computation that adds only events within [ok] to the trace. *)
Definition emits {A} (ok : event -> bool) (m : M trace A) : Prop :=
  forall t, exists new, snd (m t) = t ++ new /\ forallb ok new = true.

(** The three ways the events on the file [p] can go: none; an opening that
    failed; an opening, writes to [p], the closing. *)
Definition file_shape (E : env) (p : string) (new : trace) : Prop :=
  file_events new = [] \/
  (file_events new = [EvOpen p] /\ exists t0 o, open_result E t0 p = Some o) \/
  (exists chunks, file_events new = EvOpen p :: map (EvWrite p) chunks ++ [EvClose p]).

(** ** Further notions: keys and file names *)

(** Whether [old] occurs in [s]. *)
Fixpoint occurs (old s : string) : bool :=
  match s with
  | EmptyString => startswith s old
  | String _ s' => startswith s old || occurs old s'
  end.

(** A mapping of URLs written by the convention: each file type under the
    key [<file_type>_url]. *)
Definition by_convention (entries : dict value) : dict value :=
  map (fun kv => (fst kv +:+ "_url", snd kv)) entries.

(** No file type holds ["_url"] itself. *)
Definition plain_file_types (entries : dict value) : bool :=
  forallb (fun kv => negb (occurs "_url" (fst kv))) entries.

(** ** notebooks/01_explore_raw_data.py *)

Section Notebook.
Context {pathlib : Pathlib} (E : env).

(** The cell [DATA_PATH = Path(get_data_paths()["bronze"])]. *)
Definition data_path_cell : M trace string :=
  data_paths <- get_data_paths E VNone;;
  bronze <- py_getitem data_paths "bronze";;
  py_Path bronze.

(** The cell [download_data.download_insee_files(config=load_config(),
    output_dir=DATA_PATH)]. *)
Definition download_cell (DATA_PATH : string) : M trace (dict bool) :=
  config <- load_config E default_config_path;;
  download_insee_files E config (Some DATA_PATH) None.

(** The two cells, the one that defines [DATA_PATH] before the one that
    uses it. *)
Definition notebook_download : M trace (dict bool) :=
  DATA_PATH <- data_path_cell;;
  download_cell DATA_PATH.
End Notebook.

(** The configuration document stays on the disk as [document]. *)
Definition stable_document `{Pathlib} (E : env) (document : value) : Prop :=
  forall t,
    exists_result E t (path_of default_config_path) = inr true /\
    load_result E t (path_of default_config_path) = inr document.

(** The bronze path of a document, when it has one. *)
Definition bronze_of (d : dict value) : option value :=
  match dict_get "paths" d with
  | Some (VDict paths) => dict_get "bronze" paths
  | _ => None
  end.

(** * Properties *)

(** ** Reasoning about computations *)

Section Monad_facts.
Context {S : Type}.

Lemma bind_ok {A B} (m : M S A) (k : A -> M S B) s a s' :
  m s = (Ok a, s') -> bind m k s = k a s'.
Proof. intros H. unfold bind. now rewrite H. Qed.

Lemma bind_raise {A B} (m : M S A) (k : A -> M S B) s e s' :
  m s = (Raise e, s') -> bind m k s = (Raise e, s').
Proof. intros H. unfold bind. now rewrite H. Qed.

(** A sequence ends where its first part raised or where its second part
    ended. *)
Lemma bind_inv {A B} (m : M S A) (k : A -> M S B) s r s' :
  bind m k s = (r, s') ->
  (exists e, m s = (Raise e, s') /\ r = Raise e) \/
  (exists a s1, m s = (Ok a, s1) /\ k a s1 = (r, s')).
Proof.
  unfold bind. destruct (m s) as [[a|e] s1]; intros H.
  - right. eauto.
  - left. inversion H; subst. eauto.
Qed.
End Monad_facts.

Lemma silent_app n1 n2 :
  forallb silent n1 = true -> forallb silent n2 = true -> forallb silent (n1 ++ n2) = true.
Proof. intros H1 H2. now rewrite forallb_app, H1, H2. Qed.

Lemma requested_app t1 t2 : requested (t1 ++ t2) = requested t1 ++ requested t2.
Proof. apply flat_map_app. Qed.

Lemma announced_app t1 t2 : announced (t1 ++ t2) = announced t1 ++ announced t2.
Proof. apply flat_map_app. Qed.

Lemma requested_silent new : forallb silent new = true -> requested new = [].
Proof.
  induction new as [|ev new IH]; [reflexivity |]. simpl.
  intros [Hev Hnew]%andb_true_iff. rewrite (IH Hnew).
  destruct ev as [ | | | | | | | | | | |? []]; try discriminate; reflexivity.
Qed.

Lemma announced_silent new : forallb silent new = true -> announced new = [].
Proof.
  induction new as [|ev new IH]; [reflexivity |]. simpl.
  intros [Hev Hnew]%andb_true_iff. rewrite (IH Hnew).
  destruct ev as [ | | | | | | | | | | |? []]; try discriminate; reflexivity.
Qed.

Lemma quiet_run {A} P (m : M trace A) t r t' :
  quiet P m -> m t = (r, t') ->
  exists new, t' = t ++ new /\ forallb silent new = true /\
              match r with Raise e => P e | Ok _ => True end.
Proof. intros Hq Hm. specialize (Hq t). now rewrite Hm in Hq. Qed.

Lemma quiet_ret {A} P (a : A) : quiet P (ret a).
Proof. intros t. exists []. simpl. now rewrite app_nil_r. Qed.

Lemma quiet_raise {A} (P : exc_class -> Prop) e : P e -> quiet P (@raise trace A e).
Proof. intros H t. exists []. simpl. now rewrite app_nil_r. Qed.

Lemma quiet_effect {A} (P : exc_class -> Prop) ev (answer : trace -> outcome A) :
  silent ev = true ->
  (forall t e, answer t = Raise e -> P e) ->
  quiet P (effect ev answer).
Proof.
  intros Hev Ha t. exists [ev]. unfold effect. simpl. rewrite Hev.
  repeat split. destruct (answer t) eqn:Hr; eauto.
Qed.

Lemma quiet_bind {A B} P (m : M trace A) (k : A -> M trace B) :
  quiet P m -> (forall a, quiet P (k a)) -> quiet P (bind m k).
Proof.
  intros Hm Hk t. destruct (Hm t) as (n1 & H1 & S1 & P1). unfold bind.
  destruct (m t) as [[a|e] t1]; simpl in *; subst.
  - destruct (Hk a (t ++ n1)) as (n2 & H2 & S2 & P2). exists (n1 ++ n2).
    rewrite H2, app_assoc. auto using silent_app.
  - now exists n1.
Qed.

Lemma quiet_raise_bind {A B} (P : exc_class -> Prop) e (k : A -> M trace B) :
  P e -> quiet P (bind (raise e) k).
Proof. intros H t. exists []. simpl. now rewrite app_nil_r. Qed.

Lemma quiet_finally {A} P (m : M trace A) (release : M trace unit) :
  quiet P m -> quiet P release -> quiet P (finally m release).
Proof.
  intros Hm Hr t. destruct (Hm t) as (n1 & H1 & S1 & P1). unfold finally.
  destruct (m t) as [r t1]; simpl in *; subst.
  destruct (Hr (t ++ n1)) as (n2 & H2 & S2 & P2).
  destruct (release (t ++ n1)) as [[[]|e] t2]; simpl in *; subst;
    exists (n1 ++ n2); rewrite app_assoc; auto using silent_app.
Qed.

Lemma quiet_for_each {A} P (l : list A) (body : A -> M trace unit) :
  (forall x, quiet P (body x)) -> quiet P (for_each l body).
Proof.
  intros Hb. induction l as [|x l IH]; simpl.
  - apply quiet_ret.
  - apply quiet_bind; auto.
Qed.

Lemma quiet_if {A} P (b : bool) (m1 m2 : M trace A) :
  quiet P m1 -> quiet P m2 -> quiet P (if b then m1 else m2).
Proof. now destruct b. Qed.

Lemma quiet_log P level msg :
  match msg with MsgDownloading _ _ => False | _ => True end ->
  quiet P (log level msg).
Proof.
  intros H. apply quiet_effect; [| discriminate]. now destruct msg.
Qed.

Lemma quiet_weaken {A} (P Q : exc_class -> Prop) (m : M trace A) :
  (forall e, P e -> Q e) -> quiet P m -> quiet Q m.
Proof.
  intros HPQ Hm t. destruct (Hm t) as (n & H1 & S1 & P1). exists n.
  repeat split; trivial. destruct (fst (m t)); auto.
Qed.

(** A first part that leaves the trace as it is. *)
Lemma quiet_bind_answer {A B} (P : exc_class -> Prop) (m : M trace A) (k : A -> M trace B) r :
  (forall t, m t = (r, t)) ->
  match r with Ok a => quiet P (k a) | Raise e => P e end ->
  quiet P (bind m k).
Proof.
  intros Hm Hk t. unfold bind. rewrite Hm. destruct r as [a|e]; [apply Hk |].
  exists []. simpl. now rewrite app_nil_r.
Qed.

(** ** download_file *)

Lemma os_outcome_raise r e : os_outcome r = Raise e -> exists o, e = exc_of_os o.
Proof. destruct r as [o|]; simpl; intros H; inversion H. now exists o. Qed.

Lemma os_outcome_fault r e : os_outcome r = Raise e -> transfer_fault e.
Proof. intros H. right. right. eapply os_outcome_raise, H. Qed.

Lemma path_outcome_raise r e :
  path_outcome r = Raise e -> exists pe, r = Some pe /\ e = exc_of_path pe.
Proof. destruct r as [pe|]; simpl; intros H; inversion H. now exists pe. Qed.

Lemma bar_outcome_raise r e : bar_outcome r = Raise e -> r = Some e.
Proof. destruct r as [e'|]; simpl; intros H; now inversion H. Qed.

(** The [except] clauses take the failures they are written for. *)
Lemma classify_transfer_fault e : transfer_fault e -> classify e <> None.
Proof.
  intros [[q ->] | [-> | [o ->]]]; [destruct q | | destruct o]; discriminate.
Qed.

Section Download_file_facts.
Context {pathlib : Pathlib} (E : env).

Lemma quiet_file_write p data : quiet transfer_fault (file_write E p data).
Proof.
  apply quiet_effect; [reflexivity |]. intros t e. apply os_outcome_fault.
Qed.

Lemma quiet_file_close p : quiet transfer_fault (file_close E p).
Proof.
  apply quiet_effect; [reflexivity |]. intros t e. apply os_outcome_fault.
Qed.

Lemma quiet_open_wb p : quiet (open_fault E p) (open_wb E p).
Proof.
  apply quiet_effect; [reflexivity |]. intros t e Hr.
  apply path_outcome_raise in Hr as (pe & Hr & ->). now exists t, pe.
Qed.

Lemma quiet_bar_update n : quiet (bar_fault E) (bar_update E n).
Proof.
  apply quiet_effect; [reflexivity |]. intros t e Hr.
  apply bar_outcome_raise in Hr. now exists t.
Qed.

Lemma quiet_bar_close : quiet (bar_fault E) (bar_close E).
Proof.
  apply quiet_effect; [reflexivity |]. intros t e Hr.
  apply bar_outcome_raise in Hr. now exists t.
Qed.

Lemma quiet_bar_open (P : exc_class -> Prop) n desc :
  (forall e, bar_fault E e -> P e) ->
  (to_float_overflows n = true -> P OverflowError) ->
  quiet P (bar_open E n desc).
Proof.
  intros Hbar Hover. apply quiet_effect; [reflexivity |]. intros t e Hr.
  destruct (to_float_overflows n).
  - inversion Hr; subst. now apply Hover.
  - apply bar_outcome_raise in Hr. apply Hbar. now exists t.
Qed.

Lemma quiet_write_body r chunk_size p progress :
  quiet (fun e => transfer_fault e \/ bar_fault E e) (write_body E r chunk_size p progress).
Proof.
  unfold write_body. destruct (iter_content r chunk_size) as [chunks fault].
  apply quiet_bind.
  - apply quiet_for_each. intros [|b data]; [apply quiet_ret |].
    apply quiet_bind.
    + eapply quiet_weaken; [| apply quiet_file_write]. auto.
    + intros _. apply quiet_if; [| apply quiet_ret].
      eapply quiet_weaken; [| apply quiet_bar_update]. auto.
  - intros _. destruct fault as [q|]; [| apply quiet_ret].
    apply quiet_raise. left. left. eauto.
Qed.

Lemma quiet_raise_for_status r : quiet transfer_fault (raise_for_status r).
Proof.
  unfold raise_for_status. apply quiet_if; [| apply quiet_ret].
  apply quiet_raise. right. now left.
Qed.

(** Once the file is to be opened: the disk, the body and the progress bar
    can fail, the bar at once when its total is too large for it. *)
Lemma quiet_store (P : exc_class -> Prop) (resp : response) local_path chunk_size
    show_progress total_size :
  (forall e, transfer_fault e -> P e) ->
  (forall e, open_fault E local_path e -> P e) ->
  (forall e, bar_fault E e -> P e) ->
  (show_progress && (0 <? total_size) = true ->
   to_float_overflows total_size = true -> P OverflowError) ->
  quiet P
    (open_wb E local_path;;;
     finally
       (if show_progress && (0 <? total_size)
        then
          bar_open E total_size (path_name local_path);;;
          finally (write_body E resp chunk_size local_path true) (bar_close E)
        else write_body E resp chunk_size local_path false)
       (file_close E local_path);;;
     log INFO (MsgDownloaded local_path);;; ret true).
Proof.
  intros Ht Ho Hb Hover.
  assert (Hbody : forall progress,
             quiet P (write_body E resp chunk_size local_path progress)).
  { intros progress. eapply quiet_weaken; [| apply quiet_write_body].
    intros e [He | He]; auto. }
  apply quiet_bind; [eapply quiet_weaken; [| apply quiet_open_wb]; auto | intros _].
  apply quiet_bind.
  - apply quiet_finally; [| eapply quiet_weaken; [| apply quiet_file_close]; auto].
    destruct (show_progress && (0 <? total_size)) eqn:Hbar; [| apply Hbody].
    apply quiet_bind; [apply quiet_bar_open; auto | intros _].
    apply quiet_finally; [apply Hbody |].
    eapply quiet_weaken; [| apply quiet_bar_close]. auto.
  - intros _. apply quiet_bind; [now apply quiet_log | intros _; apply quiet_ret].
Qed.

Lemma usable_length_declared (r : response) :
  usable_length r = true ->
  exists n, declared_size r = Some n /\
            truediv_overflows n (1024 * 1024) = false /\
            (0 <? n) && to_float_overflows n = false.
Proof.
  unfold usable_length. destruct (declared_size r) as [n|]; [| discriminate].
  intros [H1 H2]%andb_true_iff. exists n.
  apply negb_true_iff in H1, H2. auto.
Qed.

Lemma total_size_of_declared (r : response) t :
  total_size_of r t =
  (match declared_size r with
   | Some n => Ok n
   | None => Raise ValueError
   end, t).
Proof.
  unfold total_size_of, declared_size.
  destruct (content_length r) as [h|]; [destruct (int_of_str h) |]; reflexivity.
Qed.

(** What the [try] body does with the response [resp] that a request to
    [url] received. *)
Lemma quiet_after_get url t0 (resp : response) local_path chunk_size show_progress :
  get_result E t0 url = inr resp ->
  quiet (attempt_fault E url local_path)
    (raise_for_status resp;;;
     total_size <- total_size_of resp;;
     log_file_size total_size;;;
     open_wb E local_path;;;
     finally
       (if show_progress && (0 <? total_size)
        then
          bar_open E total_size (path_name local_path);;;
          finally (write_body E resp chunk_size local_path true) (bar_close E)
        else write_body E resp chunk_size local_path false)
       (file_close E local_path);;;
     log INFO (MsgDownloaded local_path);;; ret true).
Proof.
  intros Hget.
  assert (Hbad : usable_length resp = false -> forall e : exc_class,
             e = ValueError \/ e = OverflowError ->
             attempt_fault E url local_path e).
  { intros Hu e He. right. left. split; [exact He | eauto]. }
  apply quiet_bind.
  { eapply quiet_weaken; [| apply quiet_raise_for_status]. intros e He. now left. }
  intros _. eapply quiet_bind_answer; [apply total_size_of_declared |].
  unfold usable_length in Hbad.
  destruct (declared_size resp) as [n|]; [| apply Hbad; auto].
  unfold log_file_size.
  destruct (truediv_overflows n (1024 * 1024)) eqn:Hdiv.
  { apply quiet_raise_bind. apply Hbad; [reflexivity | now right]. }
  apply quiet_bind; [now apply quiet_log | intros _].
  apply quiet_store.
  - intros e He. now left.
  - intros e He. right. right. now left.
  - intros e He. right. right. now right.
  - intros Hbar Hover. apply Hbad; [| now right].
    destruct show_progress; [| discriminate]. simpl in Hbar.
    rewrite Hbar, Hover. reflexivity.
Qed.

Lemma download_attempt_true url local_path chunk_size show_progress t b t' :
  download_attempt E url local_path chunk_size show_progress t = (Ok b, t') -> b = true.
Proof.
  unfold download_attempt. intros H.
  repeat (apply bind_inv in H as [(e & _ & He) | (? & ? & _ & H)]; [discriminate |]).
  now inversion H.
Qed.

(** The [try] body logs that it starts and sends the request; whatever
    follows is silent. It returns [True] or raises. *)
Lemma download_attempt_post url local_path chunk_size show_progress t r t' :
  download_attempt E url local_path chunk_size show_progress t = (r, t') ->
  exists new,
    t' = t ++ EvLog DEBUG (MsgStartingDownload url) :: EvGet url true 30 :: new /\
    forallb silent new = true /\
    match r with
    | Ok b => b = true
    | Raise e => attempt_fault E url local_path e
    end.
Proof.
  intros H0. pose proof H0 as H. unfold download_attempt in H.
  rewrite (bind_ok _ _ t tt (t ++ [EvLog DEBUG (MsgStartingDownload url)])) in H
    by reflexivity.
  apply bind_inv in H as [(e & Hg & ->) | (resp & t1 & Hg & H)].
  - unfold requests_get, effect in Hg. inversion Hg; subst. exists [].
    rewrite <- app_assoc. repeat split.
    destruct (get_result E _ url) as [q|resp]; [| discriminate].
    inversion H1. left. left. eauto.
  - unfold requests_get, effect in Hg.
    destruct (get_result E _ url) as [q|resp'] eqn:Hget; [discriminate |].
    inversion Hg; subst. clear Hg.
    eapply quiet_run in H as (new & -> & Hs & Hr);
      [| eapply quiet_after_get, Hget].
    exists new. rewrite <- !app_assoc. split; [reflexivity | split; [exact Hs |]].
    destruct r as [b|e]; [| exact Hr].
    eapply download_attempt_true, H0.
Qed.

(** The [except] clauses sort the exceptions as the four failure classes do. *)
Lemma download_handlers_classify url local_path e t :
  download_handlers url local_path e t =
  match classify e with
  | Some c => (Ok false, t ++ [EvLog ERROR (failure_log c url local_path e)])
  | None => (Raise e, t)
  end.
Proof. destruct e; reflexivity. Qed.

Lemma failure_log_silent c url local_path e :
  silent (EvLog ERROR (failure_log c url local_path e)) = true.
Proof. now destruct c. Qed.

Lemma download_file_mkdir_failed url local_path chunk_size show_progress t o :
  mkdir_result E t (path_parent (path_of local_path)) = Some o ->
  download_file E url local_path chunk_size show_progress t
  = (Raise (exc_of_path o), t ++ [EvMkdir (path_parent (path_of local_path)) true true]).
Proof.
  intros H. unfold download_file, mkdir_parents, bind, effect. now rewrite H.
Qed.

Lemma download_file_mkdir_done url local_path chunk_size show_progress t :
  mkdir_result E t (path_parent (path_of local_path)) = None ->
  download_file E url local_path chunk_size show_progress t
  = try_except
      (download_attempt E url (path_of local_path) chunk_size show_progress)
      (download_handlers url (path_of local_path))
      (t ++ [EvMkdir (path_parent (path_of local_path)) true true]).
Proof.
  intros H. unfold download_file, mkdir_parents, bind, effect. now rewrite H.
Qed.

(** One call of [download_file]: either the directory cannot be made and
    nothing else happens, or exactly one request is sent, and then only an
    exception that no [except] clause takes is raised. *)
Lemma download_file_post url local_path chunk_size show_progress t r t' :
  download_file E url local_path chunk_size show_progress t = (r, t') ->
  let dir := path_parent (path_of local_path) in
  (exists o, mkdir_result E t dir = Some o /\ r = Raise (exc_of_path o) /\
             t' = t ++ [EvMkdir dir true true]) \/
  (mkdir_result E t dir = None /\
   exists new,
     t' = t ++ EvMkdir dir true true :: EvLog DEBUG (MsgStartingDownload url)
            :: EvGet url true 30 :: new /\
     forallb silent new = true /\
     match r with
     | Ok _ => True
     | Raise e => escape E url (path_of local_path) e
     end).
Proof.
  intros H dir. destruct (mkdir_result E t dir) as [o|] eqn:Hmk.
  - left. rewrite (download_file_mkdir_failed _ _ _ _ _ _ Hmk) in H.
    inversion H; subst. eauto.
  - right. split; [reflexivity |].
    rewrite (download_file_mkdir_done _ _ _ _ _ Hmk) in H. unfold try_except in H.
    destruct (download_attempt E url (path_of local_path) chunk_size show_progress _)
      as [[b|e] t1] eqn:Ha;
      apply download_attempt_post in Ha as (new & -> & Hs & Hr).
    + inversion H; subst. exists new. rewrite <- app_assoc. now repeat split.
    + rewrite download_handlers_classify in H.
      destruct (classify e) as [c|] eqn:Hc; inversion H; subst.
      * exists (new ++ [EvLog ERROR (failure_log c url (path_of local_path) e)]).
        rewrite <- !app_assoc. repeat split.
        apply silent_app; [exact Hs |].
        unfold forallb. now rewrite failure_log_silent.
      * exists new. rewrite <- app_assoc. split; [reflexivity | split; [exact Hs |]].
        split; [exact Hc |].
        destruct Hr as [Hr | Hr]; [| exact Hr].
        now apply classify_transfer_fault in Hr.
Qed.
End Download_file_facts.

(** C1. The docstring of [download_file] promises a boolean that tells
    whether the operation went well, and the [except IOError] clause turns
    the I/O errors of the destination file into false. The creation of the
    parent directory is written before the [try] statement: on a disk that
    refuses the directory ["/data"] the call for ["/data/f1.parquet"] ends
    in [PermissionError], a local I/O error, with nothing logged, where the
    same refusal at the opening of the file is logged and gives false. *)
Theorem download_file_io_fault_escapes :
  download_file locked_disk "http://x/f1.parquet" "/data/f1.parquet" 8192 true []
  = (Raise PermissionError, [EvMkdir "/data" true true]) /\
  classify PermissionError = Some TransferIOError /\
  download_file locked_files "http://x/f1.parquet" "/data/f1.parquet" 8192 true []
  = (Ok false,
     [EvMkdir "/data" true true;
      EvLog DEBUG (MsgStartingDownload "http://x/f1.parquet");
      EvGet "http://x/f1.parquet" true 30;
      EvLog DEBUG (MsgFileSize 3);
      EvOpen "/data/f1.parquet";
      EvLog ERROR (MsgWriteError "/data/f1.parquet" PermissionError)]).
Proof. repeat split; reflexivity. Qed.

(** C9. The first thing [download_file] does, whatever its arguments, is to
    ask for the parent directory of the destination, parents included; this
    happens before the [try] statement, so whenever the creation fails the
    [OSError] is raised to the caller: no request is sent, nothing is logged,
    no false is returned. The same holds for a path that Python refuses to
    hand to the file system. *)
Theorem download_file_mkdir_failure_propagates `{Pathlib} (E : env)
    (url local_path : string) (chunk_size : Z) (show_progress : bool) (t : trace) :
  let dir := path_parent (path_of local_path) in
  (exists rest,
     snd (download_file E url local_path chunk_size show_progress t)
     = t ++ EvMkdir dir true true :: rest) /\
  (forall o,
     mkdir_result E t dir = Some (PathOs o) ->
     download_file E url local_path chunk_size show_progress t
     = (Raise (exc_of_os o), t ++ [EvMkdir dir true true]) /\
     issubclass (exc_of_os o) OSError = true) /\
  (forall e,
     mkdir_result E t dir = Some e ->
     download_file E url local_path chunk_size show_progress t
     = (Raise (exc_of_path e), t ++ [EvMkdir dir true true])).
Proof.
  intros dir. split; [| split].
  - destruct (download_file E url local_path chunk_size show_progress t) as [r t'] eqn:Hd.
    apply download_file_post in Hd as [(o & _ & _ & ->) | (_ & new & -> & _)];
      simpl; eauto.
  - intros o Hmk. split.
    + now apply (download_file_mkdir_failed E _ _ _ _ _ (PathOs o)).
    + now destruct o.
  - intros e Hmk. now apply download_file_mkdir_failed.
Qed.

Lemma download_file_mkdir_failure_propagates_witness :
  download_file locked_disk "http://x/f1.parquet" "/data/f1.parquet" 8192 true []
  = (Raise PermissionError, [EvMkdir "/data" true true]) /\
  issubclass PermissionError OSError = true.
Proof.
  exact (proj1 (proj2 (download_file_mkdir_failure_propagates locked_disk
                         "http://x/f1.parquet" "/data/f1.parquet" 8192 true []))
           OsPermission eq_refl).
Defined.

(** ** Dictionaries *)

Section Dict_facts.
Context {V : Type}.
Implicit Types (d : dict V) (k : string) (v : V).

Lemma str_in_In k (l : list string) : str_in k l = true <-> In k l.
Proof.
  unfold str_in. rewrite existsb_exists. split.
  - intros (x & Hx & ->%String.eqb_eq). exact Hx.
  - intros Hk. exists k. split; [exact Hk | apply String.eqb_refl].
Qed.

Lemma dict_set_keys_old k v d :
  In k (dict_keys d) -> dict_keys (dict_set k v d) = dict_keys d.
Proof.
  induction d as [|[k' v'] d IH]; simpl; [tauto |].
  destruct (String.eqb_spec k k') as [-> | Hne]; [reflexivity |].
  intros [Hk | Hk]; [congruence |]. simpl. now rewrite IH.
Qed.

Lemma dict_set_keys_new k v d :
  ~ In k (dict_keys d) -> dict_keys (dict_set k v d) = dict_keys d ++ [k].
Proof.
  induction d as [|[k' v'] d IH]; simpl; [reflexivity |].
  destruct (String.eqb_spec k k') as [-> | Hne]; [tauto |].
  intros Hk. simpl. rewrite IH; tauto.
Qed.

Lemma dict_set_In k k' v d :
  In k (dict_keys (dict_set k' v d)) <-> k = k' \/ In k (dict_keys d).
Proof.
  destruct (in_dec String.string_dec k' (dict_keys d)) as [Hin | Hout].
  - rewrite dict_set_keys_old by exact Hin. split; [tauto |].
    intros [-> | H]; assumption.
  - rewrite dict_set_keys_new by exact Hout. rewrite in_app_iff. simpl.
    split; [intros [H | [H | []]] | intros [H | H]]; auto.
Qed.

Lemma dict_set_NoDup k v d : NoDup (dict_keys d) -> NoDup (dict_keys (dict_set k v d)).
Proof.
  intros Hd. destruct (in_dec String.string_dec k (dict_keys d)) as [Hin | Hout].
  - now rewrite dict_set_keys_old.
  - rewrite dict_set_keys_new by exact Hout.
    apply NoDup_app. repeat split; [exact Hd | | apply NoDup_singleton].
    intros x Hx [-> | []]%list_elem_of_In. apply Hout. now apply list_elem_of_In.
Qed.

Lemma dict_keys_length d : length (dict_keys d) = length d.
Proof. apply length_map. Qed.
End Dict_facts.

(** ** The selection of the URLs *)

Section Selection.
Variable files_to_download : option (list string).

(** The loop that fills [urls_to_download], started from any dictionary. *)
Let select (insee_urls acc : dict value) : dict value :=
  fold_left
    (fun acc '(key, url) =>
       if endswith key "_url" then
         let file_type := str_replace key "_url" "" in
         if wanted files_to_download file_type then dict_set file_type url acc else acc
       else acc)
    insee_urls acc.

Lemma select_NoDup insee_urls acc :
  NoDup (dict_keys acc) -> NoDup (dict_keys (select insee_urls acc)).
Proof.
  revert acc. induction insee_urls as [|[key url] l IH]; intros acc Hacc; [exact Hacc |].
  simpl. apply IH.
  destruct (endswith key "_url"); [| exact Hacc].
  destruct (wanted files_to_download _); [| exact Hacc].
  now apply dict_set_NoDup.
Qed.

Lemma select_In insee_urls acc file_type :
  In file_type (dict_keys (select insee_urls acc)) <->
  In file_type (dict_keys acc) \/
  (In file_type (file_types insee_urls) /\ wanted files_to_download file_type = true).
Proof.
  revert acc. induction insee_urls as [|[key url] l IH]; intros acc.
  - simpl. unfold file_types. simpl. tauto.
  - simpl. rewrite IH. unfold file_types. simpl.
    destruct (endswith key "_url"); simpl; [| tauto].
    destruct (wanted files_to_download (str_replace key "_url" "")) eqn:Hw.
    + rewrite dict_set_In. split.
      * intros [[-> | H] | [H Hw']]; [right; split | left | right; split]; auto.
      * intros [H | [[<- | H] Hw']]; auto.
    + split; [tauto |]. intros [H | [[<- | H] Hw']]; auto. congruence.
Qed.

(** The file types selected are those derived from a key with the suffix
    that the filter lets through; none is selected twice. *)
Lemma urls_to_download_In insee_urls file_type :
  In file_type (dict_keys (urls_to_download insee_urls files_to_download)) <->
  In file_type (file_types insee_urls) /\ wanted files_to_download file_type = true.
Proof.
  unfold urls_to_download. fold (select insee_urls []). rewrite select_In. simpl. tauto.
Qed.

Lemma urls_to_download_NoDup insee_urls :
  NoDup (dict_keys (urls_to_download insee_urls files_to_download)).
Proof.
  unfold urls_to_download. fold (select insee_urls []). apply select_NoDup. constructor.
Qed.

Lemma select_strings insee_urls acc :
  urls_are_strings insee_urls = true -> urls_are_strings acc = true ->
  urls_are_strings (select insee_urls acc) = true.
Proof.
  revert acc. induction insee_urls as [|[key url] l IH]; intros acc Hl Hacc; [exact Hacc |].
  simpl in *. apply andb_true_iff in Hl as [Hurl Hl]. apply IH; [exact Hl |].
  destruct (endswith key "_url"); [| exact Hacc].
  destruct (wanted files_to_download _); [| exact Hacc].
  clear IH Hl. induction acc as [|[k v] acc IHacc]; simpl in *.
  - now rewrite Hurl.
  - apply andb_true_iff in Hacc as [Hv Hacc].
    destruct (String.eqb _ k); simpl; rewrite ?Hurl, ?Hv, ?Hacc; auto.
Qed.

Lemma urls_to_download_strings insee_urls :
  urls_are_strings insee_urls = true ->
  urls_are_strings (urls_to_download insee_urls files_to_download) = true.
Proof.
  intros H. unfold urls_to_download. fold (select insee_urls []).
  now apply select_strings.
Qed.
End Selection.

Lemma urls_to_download_nothing_wanted insee_urls :
  urls_to_download insee_urls (Some []) = [].
Proof.
  unfold urls_to_download. induction insee_urls as [|[key url] l IH]; [reflexivity |].
  simpl. now destruct (endswith key "_url").
Qed.

(** Without a filter there are as many selected entries as there are
    different file types. *)
Lemma urls_to_download_all_length insee_urls :
  length (urls_to_download insee_urls None) = length (remove_dups (file_types insee_urls)).
Proof.
  rewrite <- dict_keys_length. apply Permutation_length, NoDup_Permutation.
  - apply urls_to_download_NoDup.
  - apply NoDup_remove_dups.
  - intros x. rewrite elem_of_remove_dups, !list_elem_of_In, urls_to_download_In.
    simpl. tauto.
Qed.

(** ** download_insee_files *)

Section Batch_facts.
Context {pathlib : Pathlib} (E : env).

(** The loop over the selected URLs: every round announces its file type
    and sends one request, and a round raises only when the URL is no
    string, a directory cannot be made, or [download_file] lets an exception
    through. *)
Lemma download_each_post output_dir todo results t r t' :
  download_each E output_dir todo results t = (r, t') ->
  exists new,
    t' = t ++ new /\
    match r with
    | Ok report =>
        map VStr (requested new) = dict_values todo /\
        announced new = dict_keys todo /\
        (NoDup (dict_keys results ++ dict_keys todo) ->
         dict_keys report = dict_keys results ++ dict_keys todo)
    | Raise e =>
        ((e = AttributeError \/ e = TypeError) /\ urls_are_strings todo = false) \/
        mkdir_fault E e t' \/
        (exists url p, escape E url p e)
    end.
Proof.
  revert results t. induction todo as [|[file_type url] todo IH]; intros results t H.
  - inversion H; subst. exists []. rewrite !app_nil_r. now repeat split.
  - simpl in H. destruct url as [ | | |url| | | | |];
      try (inversion H; subst; exists []; rewrite app_nil_r; split;
           [reflexivity | left; split; [auto | reflexivity]]).
    change (bind (py_split_method (VStr url)) ?k) with (bind (@ret trace _ url) k) in H.
    unfold bind at 1 in H. simpl in H.
    set (filename := last_item (str_split "/" url)) in *.
    set (local_path := joinpath output_dir filename) in *.
    rewrite (bind_ok _ _ t tt (t ++ [EvLog INFO (MsgDownloading file_type filename)])) in H
      by reflexivity.
    rewrite (bind_ok _ _ _ tt
               ((t ++ [EvLog INFO (MsgDownloading file_type filename)])
                  ++ [EvLog DEBUG (MsgURL url)])) in H by reflexivity.
    rewrite (bind_ok _ _ _ tt
               (((t ++ [EvLog INFO (MsgDownloading file_type filename)])
                   ++ [EvLog DEBUG (MsgURL url)])
                  ++ [EvLog DEBUG (MsgDestination local_path)])) in H by reflexivity.
    rewrite <- !app_assoc in H. simpl in H.
    apply bind_inv in H as [(e & Hd & ->) | (success & t1 & Hd & H)].
    + apply download_file_post in Hd as [(o & Hmk & Ho & ->) | (_ & new & -> & _ & Hr)].
      * inversion Ho; subst. eexists. rewrite <- app_assoc. split; [reflexivity |].
        right. left. exists o. eexists _, _. split; [reflexivity |].
        split; [| exact Hmk]. now rewrite <- app_assoc.
      * eexists. rewrite <- app_assoc. split; [reflexivity |]. right. right. eauto.
    + apply download_file_post in Hd as [(o & _ & Ho & _) | (_ & new & -> & Hs & _)];
        [discriminate |].
      apply IH in H as (new' & -> & Hr).
      eexists. rewrite <- !app_assoc. split; [reflexivity |].
      destruct r as [report|e].
      * destruct Hr as (Hreq & Hann & Hkeys).
        simpl. rewrite !requested_app, !announced_app. simpl.
        rewrite (requested_silent _ Hs), (announced_silent _ Hs). simpl.
        rewrite Hreq, Hann. repeat split.
        intros Hnd. rewrite Hkeys.
        -- rewrite dict_set_keys_new; [now rewrite <- app_assoc |].
           apply NoDup_app in Hnd as (_ & Hnd & _). intros Hin.
           apply (Hnd file_type); [now apply list_elem_of_In | left].
        -- rewrite dict_set_keys_new; [now rewrite <- app_assoc |].
           apply NoDup_app in Hnd as (_ & Hnd & _). intros Hin.
           apply (Hnd file_type); [now apply list_elem_of_In | left].
      * destruct Hr as [[He Hu] | [Hm | Hh]]; auto.
        right. left. destruct Hm as (o & t1 & p & -> & Ht & Hmk).
        exists o, t1, p. repeat split; trivial.
        rewrite <- Ht. now rewrite <- !app_assoc.
Qed.

(** However the loop ends, the file types announced are the first of the
    selection, in its order, and the URLs requested are those of the first
    of them: of all that were announced, or of all but the last. *)
Lemma download_each_prefix output_dir todo results t :
  exists new k j,
    snd (download_each E output_dir todo results t) = t ++ new /\
    announced new = firstn k (dict_keys todo) /\
    map VStr (requested new) = firstn j (dict_values todo) /\
    (j <= k <= S j)%nat.
Proof.
  revert results t. induction todo as [|[file_type url] todo IH]; intros results t.
  - exists [], 0%nat, 0%nat. simpl. rewrite app_nil_r. repeat split; lia.
  - simpl. destruct url as [ | | |url| | | | |];
      try (exists [], 0%nat, 0%nat; simpl; rewrite app_nil_r; repeat split; lia).
    change (bind (py_split_method (VStr url)) ?k) with (bind (@ret trace _ url) k).
    unfold bind at 1. simpl.
    set (filename := last_item (str_split "/" url)).
    set (local_path := joinpath output_dir filename).
    rewrite (bind_ok _ _ t tt (t ++ [EvLog INFO (MsgDownloading file_type filename)]))
      by reflexivity.
    rewrite (bind_ok _ _ _ tt
               ((t ++ [EvLog INFO (MsgDownloading file_type filename)])
                  ++ [EvLog DEBUG (MsgURL url)])) by reflexivity.
    rewrite (bind_ok _ _ _ tt
               (((t ++ [EvLog INFO (MsgDownloading file_type filename)])
                   ++ [EvLog DEBUG (MsgURL url)])
                  ++ [EvLog DEBUG (MsgDestination local_path)])) by reflexivity.
    rewrite <- !app_assoc. simpl.
    unfold bind.
    destruct (download_file E url local_path 8192 true _) as [[success|e] t1] eqn:Hd.
    + apply download_file_post in Hd as [(o & _ & Ho & _) | (_ & new & -> & Hs & _)];
        [discriminate |].
      match goal with
      | |- context [download_each E output_dir todo ?res ?tr] =>
          destruct (IH res tr) as (new' & k & j & Hrun & Hann & Hreq & Hjk)
      end.
      rewrite Hrun. eexists _, (S k), (S j). rewrite <- !app_assoc.
      split; [reflexivity |]. simpl.
      rewrite !requested_app, !announced_app. simpl.
      rewrite (requested_silent _ Hs), (announced_silent _ Hs). simpl.
      rewrite Hann, Hreq. repeat split; lia.
    + apply download_file_post in Hd as [(o & _ & _ & ->) | (_ & new & -> & Hs & _)].
      * eexists _, 1%nat, 0%nat. simpl. rewrite <- !app_assoc.
        split; [reflexivity |]. simpl. repeat split; lia.
      * eexists _, 1%nat, 1%nat. simpl. rewrite <- !app_assoc.
        split; [reflexivity |]. simpl.
        rewrite (requested_silent _ Hs), (announced_silent _ Hs).
        repeat split; lia.
Qed.

(** The keys of a mapping whose keys are strings pass the loop of the
    selection as they are. *)
Lemma str_keyed_strings (d : dict value) (t : trace) :
  str_keyed (map (fun kv => (VStr (fst kv), snd kv)) d) t = (Ok d, t).
Proof.
  induction d as [|[k v] d IH]; [reflexivity |].
  simpl. unfold bind. simpl. now rewrite IH.
Qed.

Lemma get_insee_urls_resolved config insee_urls t :
  download_urls_of config = Some insee_urls ->
  get_insee_urls E config t = (Ok (VDict insee_urls), t).
Proof.
  unfold download_urls_of, get_insee_urls.
  destruct config as [ | | | | |d| | |]; try discriminate.
  unfold bind, config_or_default, ret, py_get.
  destruct (dict_get "insee" d) as [[ | | | | |insee| | |]|]; try discriminate.
  - simpl. destruct (dict_get "download_urls" insee) as [[ | | | | |urls| | |]|];
      try discriminate; now intros [= <-].
  - simpl. now intros [= <-].
Qed.

(** The mapping under [paths], the empty one when the key is missing. *)
Lemma get_data_paths_dict d t :
  get_data_paths E (VDict d) t
  = (Ok (match dict_get "paths" d with Some v => v | None => VDict [] end), t).
Proof. reflexivity. Qed.

(** It looks at the clock when no [output_dir] is supplied and does nothing
    else to the world. *)
Lemma destination_of_trace data_paths output_dir t :
  snd (destination_of E data_paths output_dir t)
  = t ++ match output_dir with Some _ => [] | None => [EvNow] end.
Proof.
  unfold destination_of. destruct output_dir as [dir|]; simpl; [now rewrite app_nil_r |].
  unfold bind, now, effect.
  destruct (py_getitem data_paths "bronze" _) as [[bronze|e] t1] eqn:Hb.
  - assert (t1 = t ++ [EvNow]) as ->.
    { unfold py_getitem in Hb. destruct data_paths; try (now inversion Hb).
      - destruct (dict_get "bronze" d); now inversion Hb.
      - destruct (item_get "bronze" items); now inversion Hb. }
    destruct bronze; reflexivity.
  - unfold py_getitem in Hb. destruct data_paths; try (now inversion Hb).
    + destruct (dict_get "bronze" d); now inversion Hb.
    + destruct (item_get "bronze" items); now inversion Hb.
Qed.

(** What it raises when it raises. *)
Lemma destination_of_fault data_paths output_dir t e t' :
  destination_of E data_paths output_dir t = (Raise e, t') ->
  (e = KeyError \/ e = TypeError) /\ output_dir = None /\ t' = t ++ [EvNow].
Proof.
  intros H. pose proof (destination_of_trace data_paths output_dir t) as Ht.
  rewrite H in Ht. simpl in Ht. unfold destination_of in H.
  destruct output_dir as [dir|]; [discriminate |].
  split; [| now split].
  unfold bind, now, effect in H.
  destruct (py_getitem data_paths "bronze" _) as [[bronze|e0] t1] eqn:Hb.
  - destruct bronze; inversion H; auto.
  - inversion H; subst. unfold py_getitem in Hb.
    destruct data_paths; try (inversion Hb; now auto).
    + destruct (dict_get "bronze" d); inversion Hb; auto.
    + destruct (item_get "bronze" items); inversion Hb; auto.
Qed.

(** A run, once the URLs of the configuration are known to be a mapping with
    string keys and the destination is computed: the directory is asked for
    first; when it is there, the batch is logged, the selected URLs are
    worked through, and a summary is logged. *)
Lemma download_insee_files_from d output_dir files_to_download t insee_urls :
  download_urls_of (VDict d) = Some insee_urls ->
  let data_paths := match dict_get "paths" d with Some v => v | None => VDict [] end in
  let todo := urls_to_download insee_urls files_to_download in
  match destination_of E data_paths output_dir t with
  | (Raise e, t1) =>
      download_insee_files E (VDict d) output_dir files_to_download t = (Raise e, t1)
  | (Ok dest, t1) =>
      match mkdir_result E t1 dest with
      | Some o =>
          download_insee_files E (VDict d) output_dir files_to_download t
          = (Raise (exc_of_path o), t1 ++ [EvMkdir dest true true])
      | None =>
          exists head,
            forallb silent head = true /\
            match download_each E dest todo [] (t1 ++ EvMkdir dest true true :: head) with
            | (Ok report, t2) =>
                exists tail,
                  forallb silent tail = true /\
                  download_insee_files E (VDict d) output_dir files_to_download t
                  = (Ok report, t2 ++ tail)
            | (Raise e, t2) =>
                download_insee_files E (VDict d) output_dir files_to_download t
                = (Raise e, t2)
            end
      end
  end.
Proof.
  intros Hurls data_paths todo. unfold download_insee_files.
  rewrite (bind_ok _ _ _ _ _ (get_insee_urls_resolved _ _ _ Hurls)).
  rewrite (bind_ok _ _ _ _ _ (get_data_paths_dict _ _)).
  fold data_paths.
  destruct (destination_of E data_paths output_dir t) as [[dest|e] t1] eqn:Hdir;
    [| now apply bind_raise].
  rewrite (bind_ok _ _ _ _ _ Hdir). clear Hdir.
  destruct (mkdir_result E t1 dest) as [o|] eqn:Hmk.
  { apply bind_raise. unfold mkdir_parents, effect. now rewrite Hmk. }
  rewrite (bind_ok _ _ t1 tt (t1 ++ [EvMkdir dest true true]))
    by (unfold mkdir_parents, effect; now rewrite Hmk).
  rewrite (bind_ok _ _ _ tt
             ((t1 ++ [EvMkdir dest true true]) ++ [EvLog INFO (MsgStartingBatch dest)]))
    by reflexivity.
  set (stamp := clock E ((t1 ++ [EvMkdir dest true true])
                           ++ [EvLog INFO (MsgStartingBatch dest)])).
  rewrite (bind_ok _ _ _ stamp
             (((t1 ++ [EvMkdir dest true true]) ++ [EvLog INFO (MsgStartingBatch dest)])
                ++ [EvNow])) by reflexivity.
  rewrite (bind_ok _ _ _ tt
             ((((t1 ++ [EvMkdir dest true true]) ++ [EvLog INFO (MsgStartingBatch dest)])
                 ++ [EvNow]) ++ [EvLog INFO (MsgTimestamp stamp)])) by reflexivity.
  rewrite (bind_ok _ _ _ (map (fun kv => (VStr (fst kv), snd kv)) insee_urls)
             ((((t1 ++ [EvMkdir dest true true]) ++ [EvLog INFO (MsgStartingBatch dest)])
                 ++ [EvNow]) ++ [EvLog INFO (MsgTimestamp stamp)])) by reflexivity.
  rewrite (bind_ok _ _ _ _ _ (str_keyed_strings _ _)).
  fold todo.
  rewrite (bind_ok _ _ _ tt
             (((((t1 ++ [EvMkdir dest true true]) ++ [EvLog INFO (MsgStartingBatch dest)])
                  ++ [EvNow]) ++ [EvLog INFO (MsgTimestamp stamp)])
                ++ [EvLog INFO (MsgFilesToDownload (dict_keys todo))])) by reflexivity.
  exists [EvLog INFO (MsgStartingBatch dest); EvNow; EvLog INFO (MsgTimestamp stamp);
          EvLog INFO (MsgFilesToDownload (dict_keys todo))].
  split; [reflexivity |]. rewrite <- !app_assoc. simpl app.
  destruct (download_each E dest todo [] _) as [[report|e] t2] eqn:Hde.
  - rewrite (bind_ok _ _ _ _ _ Hde).
    set (successful := length (List.filter (fun v : bool => v) (dict_values report))).
    set (failed := (length report - successful)%nat).
    unfold bind, log, effect, ret.
    destruct (0 <? failed)%nat; eexists; (split; [| rewrite <- !app_assoc; reflexivity]);
      reflexivity.
  - apply bind_raise, Hde.
Qed.

(** The destination in the words of the specification is the one the code
    computes. *)
Lemma destination_of_spec d output_dir t dest :
  spec_destination (clock E t) (VDict d) output_dir = Some dest ->
  destination_of E (match dict_get "paths" d with Some v => v | None => VDict [] end)
    output_dir t
  = (Ok dest, t ++ match output_dir with Some _ => [] | None => [EvNow] end).
Proof.
  intros Hdest. unfold spec_destination in Hdest. unfold destination_of.
  destruct output_dir as [dir|].
  - inversion Hdest; subst. unfold ret. now rewrite app_nil_r.
  - destruct (dict_get "paths" d) as [[ | | | | |paths| | |]|]; try discriminate.
    unfold bind, now, effect, py_getitem, py_Path, ret.
    destruct (dict_get "bronze" paths) as [[ | | |bronze| | | | |]|]; try discriminate.
    now inversion Hdest.
Qed.

(** A run on a configuration whose URLs and destination resolve. *)
Lemma download_insee_files_resolved config output_dir files_to_download t insee_urls dest :
  download_urls_of config = Some insee_urls ->
  spec_destination (clock E t) config output_dir = Some dest ->
  let t1 := t ++ (match output_dir with Some _ => [] | None => [EvNow] end) in
  let todo := urls_to_download insee_urls files_to_download in
  match mkdir_result E t1 dest with
  | Some o =>
      download_insee_files E config output_dir files_to_download t
      = (Raise (exc_of_path o), t1 ++ [EvMkdir dest true true])
  | None =>
      exists head,
        forallb silent head = true /\
        match download_each E dest todo [] (t1 ++ EvMkdir dest true true :: head) with
        | (Ok report, t2) =>
            exists tail,
              forallb silent tail = true /\
              download_insee_files E config output_dir files_to_download t
              = (Ok report, t2 ++ tail)
        | (Raise e, t2) =>
            download_insee_files E config output_dir files_to_download t = (Raise e, t2)
        end
  end.
Proof.
  intros Hurls Hdest t1 todo.
  destruct config as [ | | | | |d| | |]; try discriminate.
  pose proof (download_insee_files_from d output_dir files_to_download t insee_urls Hurls)
    as Hrun.
  cbv zeta in Hrun. rewrite (destination_of_spec _ _ _ _ Hdest) in Hrun. exact Hrun.
Qed.

(** Whatever becomes of a run on a configuration whose URLs resolve, the
    file types it announces are the first of the selection and the URLs it
    requests are those of the first of them. *)
Lemma download_insee_files_prefix config output_dir files_to_download t insee_urls :
  download_urls_of config = Some insee_urls ->
  let todo := urls_to_download insee_urls files_to_download in
  exists new k j,
    snd (download_insee_files E config output_dir files_to_download t) = t ++ new /\
    announced new = firstn k (dict_keys todo) /\
    map VStr (requested new) = firstn j (dict_values todo) /\
    (j <= k <= S j)%nat.
Proof.
  intros Hurls todo.
  destruct config as [ | | | | |d| | |]; try discriminate.
  pose proof (download_insee_files_from d output_dir files_to_download t insee_urls Hurls)
    as Hrun.
  cbv zeta in Hrun. fold todo in Hrun.
  pose proof (destination_of_trace
                (match dict_get "paths" d with Some v => v | None => VDict [] end)
                output_dir t) as Ht.
  set (pre := match output_dir with Some _ => [] | None => [EvNow] end) in *.
  assert (Hpre : forallb silent pre = true) by (subst pre; now destruct output_dir).
  destruct (destination_of E _ output_dir t) as [[dest|e] t1]; simpl in Ht; subst t1.
  2:{ rewrite Hrun. exists pre, 0%nat, 0%nat. simpl.
      rewrite (announced_silent _ Hpre), (requested_silent _ Hpre). repeat split; lia. }
  destruct (mkdir_result E (t ++ pre) dest) as [o|].
  { rewrite Hrun. exists (pre ++ [EvMkdir dest true true]), 0%nat, 0%nat. simpl.
    rewrite <- app_assoc. rewrite announced_app, requested_app.
    rewrite (announced_silent _ Hpre), (requested_silent _ Hpre). repeat split; lia. }
  destruct Hrun as (head & Hhead & Hrun).
  destruct (download_each_prefix dest todo [] ((t ++ pre) ++ EvMkdir dest true true :: head))
    as (new & k & j & Hsnd & Hann & Hreq & Hjk).
  assert (Hmid : forallb silent (EvMkdir dest true true :: head) = true) by exact Hhead.
  destruct (download_each E dest todo [] _) as [[report|e] t2]; simpl in Hsnd; subst t2.
  - destruct Hrun as (tail & Htail & ->).
    exists (pre ++ (EvMkdir dest true true :: head) ++ new ++ tail), k, j. simpl snd.
    split; [now rewrite <- !app_assoc |].
    rewrite !announced_app, !requested_app.
    rewrite (announced_silent _ Hpre), (requested_silent _ Hpre),
      (announced_silent _ Hmid), (requested_silent _ Hmid),
      (announced_silent _ Htail), (requested_silent _ Htail).
    simpl. rewrite !app_nil_r. auto.
  - rewrite Hrun. exists (pre ++ (EvMkdir dest true true :: head) ++ new), k, j. simpl snd.
    split; [now rewrite <- !app_assoc |].
    rewrite !announced_app, !requested_app.
    rewrite (announced_silent _ Hpre), (requested_silent _ Hpre),
      (announced_silent _ Hmid), (requested_silent _ Hmid).
    simpl. auto.
Qed.

(** A run that returns has worked through the whole selection. *)
Lemma download_insee_files_returned config output_dir files_to_download t insee_urls
    report t' :
  download_urls_of config = Some insee_urls ->
  download_insee_files E config output_dir files_to_download t = (Ok report, t') ->
  let todo := urls_to_download insee_urls files_to_download in
  dict_keys report = dict_keys todo /\
  announced t' = announced t ++ dict_keys todo /\
  map VStr (requested t') = map VStr (requested t) ++ dict_values todo.
Proof.
  intros Hurls Hres todo.
  destruct config as [ | | | | |d| | |]; try discriminate.
  pose proof (download_insee_files_from d output_dir files_to_download t insee_urls Hurls)
    as Hrun.
  cbv zeta in Hrun. fold todo in Hrun.
  pose proof (destination_of_trace
                (match dict_get "paths" d with Some v => v | None => VDict [] end)
                output_dir t) as Ht.
  set (pre := match output_dir with Some _ => [] | None => [EvNow] end) in *.
  assert (Hpre : forallb silent pre = true) by (subst pre; now destruct output_dir).
  destruct (destination_of E _ output_dir t) as [[dest|e] t1]; simpl in Ht; subst t1;
    [| congruence].
  destruct (mkdir_result E (t ++ pre) dest) as [o|]; [congruence |].
  destruct Hrun as (head & Hhead & Hrun).
  assert (Hmid : forallb silent (EvMkdir dest true true :: head) = true) by exact Hhead.
  destruct (download_each E dest todo [] _) as [[report'|e] t2] eqn:Hde; [| congruence].
  destruct Hrun as (tail & Htail & Hrun). rewrite Hrun in Hres. inversion Hres; subst.
  apply download_each_post in Hde as (new & -> & Hreq & Hann & Hkeys).
  split; [| split].
  - apply Hkeys. simpl. apply urls_to_download_NoDup.
  - rewrite !announced_app, Hann.
    rewrite (announced_silent _ Htail), (announced_silent _ Hpre),
      (announced_silent _ Hmid).
    now rewrite !app_nil_r.
  - rewrite !requested_app, !map_app, Hreq.
    rewrite (requested_silent _ Htail), (requested_silent _ Hpre),
      (requested_silent _ Hmid).
    simpl. now rewrite !app_nil_r.
Qed.
End Batch_facts.

(** ** Runs that return a report *)

(** In a world where the headers are usable, the bar is steady and Python
    accepts the paths, no exception comes out of the [try] statement of
    [download_file]. *)
Lemma no_escape (E : env) url p e :
  usable_lengths E -> steady_bar E -> paths_accepted E -> ~ escape E url p e.
Proof.
  intros Hlen Hbar Hpaths (Hc & [Hh | [Ho | Hb]]).
  - destruct Hh as (_ & t & r & Hget & Hu). apply Hlen in Hget. congruence.
  - destruct Ho as (t & pe & Hopen & ->). apply Hpaths in Hopen as (o & ->).
    now destruct o.
  - destruct Hb as (t & Hb). now rewrite Hbar in Hb.
Qed.

Section Batch_returns.
Context {pathlib : Pathlib} (E : env).

Lemma download_each_returns output_dir todo results t :
  quiet_disk E -> usable_lengths E -> steady_bar E -> paths_accepted E ->
  urls_are_strings todo = true ->
  exists report t', download_each E output_dir todo results t = (Ok report, t').
Proof.
  intros Hdisk Hlen Hbar Hpaths Hstr.
  destruct (download_each E output_dir todo results t) as [[report|e] t'] eqn:Hd; [eauto |].
  apply download_each_post in Hd as (new & _ & [[_ Hu] | [Hm | (url & p & Hesc)]]).
  - congruence.
  - destruct Hm as (o & t1 & p & _ & _ & Hmk). now rewrite Hdisk in Hmk.
  - now apply no_escape in Hesc.
Qed.

(** When directories can be made, the headers are usable, the bar is steady
    and the paths are accepted, a run on a resolved configuration returns
    its report; the report, the announcements and the requests follow the
    selected URLs. *)
Lemma download_insee_files_returns config output_dir files_to_download t insee_urls dest :
  download_urls_of config = Some insee_urls ->
  urls_are_strings insee_urls = true ->
  spec_destination (clock E t) config output_dir = Some dest ->
  quiet_disk E -> usable_lengths E -> steady_bar E -> paths_accepted E ->
  let todo := urls_to_download insee_urls files_to_download in
  exists report t',
    download_insee_files E config output_dir files_to_download t = (Ok report, t') /\
    dict_keys report = dict_keys todo /\
    announced t' = announced t ++ dict_keys todo /\
    map VStr (requested t') = map VStr (requested t) ++ dict_values todo.
Proof.
  intros Hurls Hstr Hdest Hdisk Hlen Hbar Hpaths todo.
  pose proof (download_insee_files_resolved E config output_dir files_to_download t
                insee_urls dest Hurls Hdest) as Hrun.
  cbv zeta in Hrun. rewrite Hdisk in Hrun. destruct Hrun as (head & Hhead & Hrun).
  fold todo in Hrun.
  set (t1 := t ++ match output_dir with Some _ => [] | None => [EvNow] end) in *.
  destruct (download_each_returns dest todo [] (t1 ++ EvMkdir dest true true :: head)
              Hdisk Hlen Hbar Hpaths (urls_to_download_strings _ _ Hstr))
    as (report & t2 & Hde).
  rewrite Hde in Hrun. destruct Hrun as (tail & Htail & Hrun).
  exists report, (t2 ++ tail). split; [exact Hrun |].
  exact (download_insee_files_returned E config output_dir files_to_download t insee_urls
           report (t2 ++ tail) Hurls Hrun).
Qed.
End Batch_returns.

Lemma transfers_from_requested t t' (urls : list value) :
  map VStr (requested t') = map VStr (requested t) ++ urls ->
  transfers t' = (transfers t + length urls)%nat.
Proof.
  intros H. apply (f_equal (@length value)) in H.
  rewrite length_app, !length_map in H. exact H.
Qed.

Lemma file_types_length insee_urls :
  length (file_types insee_urls)
  = length (List.filter (fun key => endswith key "_url") (dict_keys insee_urls)).
Proof. apply length_map. Qed.

Lemma remove_dups_NoDup_id (l : list string) : NoDup l -> remove_dups l = l.
Proof.
  induction 1 as [|x l Hx Hl IH]; [reflexivity |]. simpl.
  destruct (decide_rel elem_of x l) as [Hin | _]; [contradiction | now rewrite IH].
Qed.

Lemma calm_quiet_disk : quiet_disk calm.
Proof. intros t p. reflexivity. Qed.

Lemma calm_usable_lengths : usable_lengths calm.
Proof. intros t url r [= <-]. reflexivity. Qed.

Lemma world_steady_bar respond : steady_bar (world respond).
Proof. intros t. reflexivity. Qed.

Lemma world_paths_accepted respond : paths_accepted (world respond).
Proof. intros t p e. discriminate. Qed.

(** C2. The docstring of [download_insee_files] says that without
    [files_to_download] all available files are downloaded. The loop keeps
    the keys that end with ["_url"] and files each under the key without any
    ["_url"] in it: for the two keys [x_url] and [x_url_url] the second URL
    takes the place of the first. Two keys end with ["_url"], yet the run
    sends one request, for the second file, never asks for the first, and
    reports one entry. *)
Theorem download_insee_files_merges_colliding_keys :
  length (List.filter (fun key => endswith key "_url") (dict_keys colliding_urls)) = 2%nat /\
  fst (download_insee_files calm colliding_config None None []) = Ok [("x", true)] /\
  transfers (snd (download_insee_files calm colliding_config None None [])) = 1%nat /\
  requested (snd (download_insee_files calm colliding_config None None []))
  = ["http://x/f2.parquet"] /\
  ~ In "http://x/f1.parquet"
      (requested (snd (download_insee_files calm colliding_config None None []))).
Proof.
  repeat split; try (vm_compute; reflexivity).
  vm_compute. intros [H | []]. discriminate.
Qed.




(** ** The destination directory *)

Lemma month_two_digits (m : Z) : 1 <= m <= 12 -> String.length (zero_pad 2 (decimal m)) = 2%nat.
Proof.
  intros Hm.
  assert (Hcases : m = 1 \/ m = 2 \/ m = 3 \/ m = 4 \/ m = 5 \/ m = 6 \/ m = 7 \/ m = 8 \/
                   m = 9 \/ m = 10 \/ m = 11 \/ m = 12) by lia.
  repeat (destruct Hcases as [-> | Hcases]; [reflexivity |]). now subst.
Qed.

Lemma made_dirs_silent_prefix (output_dir : option string) :
  made_dirs (match output_dir with Some _ => [] | None => [EvNow] end) = [] /\
  requested (match output_dir with Some _ => [] | None => [EvNow] end) = [].
Proof. now destruct output_dir. Qed.

(** C5. On a configuration whose URLs and destination resolve, the
    destination directory of a run is [output_dir] when supplied and else the
    bronze path joined with the year and the two-digit month of the clock;
    the first directory the run asks for is this one, with its parents, and
    no request is sent before. When the directory cannot be made the run
    stops there with the exception of [mkdir], the [OSError] when it is one:
    no transfer starts. *)
Theorem download_insee_files_makes_destination_first `{Pathlib} (E : env)
    (config : value) (output_dir : option string)
    (files_to_download : option (list string)) (t : trace)
    (insee_urls : dict value) (dest : string) :
  download_urls_of config = Some insee_urls ->
  spec_destination (clock E t) config output_dir = Some dest ->
  (1 <= month (clock E t) <= 12 ->
   String.length (zero_pad 2 (decimal (month (clock E t)))) = 2%nat) /\
  exists pre rest,
    snd (download_insee_files E config output_dir files_to_download t)
    = t ++ pre ++ EvMkdir dest true true :: rest /\
    made_dirs pre = [] /\
    requested pre = [] /\
    (forall o,
       mkdir_result E (t ++ pre) dest = Some (PathOs o) ->
       rest = [] /\
       fst (download_insee_files E config output_dir files_to_download t)
       = Raise (exc_of_os o)) /\
    (forall e,
       mkdir_result E (t ++ pre) dest = Some e ->
       rest = [] /\
       fst (download_insee_files E config output_dir files_to_download t)
       = Raise (exc_of_path e)).
Proof.
  intros Hurls Hdest. split; [apply month_two_digits |].
  pose proof (download_insee_files_resolved E config output_dir files_to_download t
                insee_urls dest Hurls Hdest) as Hrun.
  cbv zeta in Hrun.
  set (pre := match output_dir with Some _ => [] | None => [EvNow] end) in *.
  destruct (made_dirs_silent_prefix output_dir) as [Hmade Hreq]. fold pre in Hmade, Hreq.
  exists pre. destruct (mkdir_result E (t ++ pre) dest) as [o|] eqn:Hmk.
  - exists []. rewrite Hrun. simpl. rewrite <- app_assoc.
    split; [reflexivity | split; [exact Hmade | split; [exact Hreq |]]].
    split; [intros o' [= ->] | intros o' [= <-]]; now split.
  - destruct Hrun as (head & _ & Hrun).
    destruct (download_each E dest _ [] _) as [r t2] eqn:Hde.
    apply download_each_post in Hde as (new & -> & _).
    destruct r as [report|e].
    + destruct Hrun as (tail & _ & ->). exists (head ++ new ++ tail). simpl.
      rewrite <- !app_assoc. simpl.
      split; [reflexivity | split; [exact Hmade | split; [exact Hreq |]]].
      split; discriminate.
    + rewrite Hrun. exists (head ++ new). simpl.
      rewrite <- !app_assoc. simpl.
      split; [reflexivity | split; [exact Hmade | split; [exact Hreq |]]].
      split; discriminate.
Qed.

Lemma download_insee_files_makes_destination_first_witness :
  (1 <= 3 <= 12 -> String.length "03" = 2%nat) /\
  exists pre rest,
    snd (download_insee_files locked_disk sample_config None None [])
    = [] ++ pre ++ EvMkdir "/data/bronze/2024-03" true true :: rest /\
    made_dirs pre = [] /\
    requested pre = [] /\
    (forall o,
       mkdir_result locked_disk ([] ++ pre) "/data/bronze/2024-03" = Some (PathOs o) ->
       rest = [] /\
       fst (download_insee_files locked_disk sample_config None None [])
       = Raise (exc_of_os o)) /\
    (forall e,
       mkdir_result locked_disk ([] ++ pre) "/data/bronze/2024-03" = Some e ->
       rest = [] /\
       fst (download_insee_files locked_disk sample_config None None [])
       = Raise (exc_of_path e)).
Proof.
  exact (download_insee_files_makes_destination_first locked_disk sample_config None None []
           [("a_url", VStr "http://x/f1.parquet"); ("b_url", VStr "http://x/f2.parquet")]
           "/data/bronze/2024-03" eq_refl eq_refl).
Defined.



(** ** What a run can raise *)

Section Batch_faults.
Context {pathlib : Pathlib} (E : env).

Lemma load_config_fault t e t' :
  load_config E default_config_path t = (Raise e, t') -> load_fault E e.
Proof.
  unfold load_config, bind, effect, load_fault.
  destruct (exists_result E t (path_of default_config_path)) as [o|[|]] eqn:Hex; simpl.
  - intros [= <- _]. right. left. eauto.
  - destruct (load_result E _ (path_of default_config_path)) as [failure|doc] eqn:Hload;
      [| discriminate].
    intros [= <- _]. right. right. eauto.
  - intros [= <- _]. left. eauto.
Qed.

Lemma config_or_default_fault config t e t' :
  config_or_default E config t = (Raise e, t') -> config = VNone /\ load_fault E e.
Proof.
  destruct config; try discriminate. intros H. split; [reflexivity |].
  eapply load_config_fault, H.
Qed.

Lemma py_get_fault obj key default (t : trace) e t' :
  py_get obj key default t = (Raise e, t') -> e = AttributeError.
Proof. destruct obj; simpl; intros H; now inversion H. Qed.

Lemma get_insee_urls_fault config t e t' :
  get_insee_urls E config t = (Raise e, t') ->
  (config = VNone /\ load_fault E e) \/ shape_fault e.
Proof.
  unfold get_insee_urls. intros H.
  apply bind_inv in H as [(e0 & H & [= ->]) | (doc & t1 & _ & H)].
  { left. eapply config_or_default_fault, H. }
  apply bind_inv in H as [(e0 & H & [= ->]) | (insee & t2 & _ & H)];
    apply py_get_fault in H as ->; right; now left.
Qed.

Lemma get_data_paths_fault config t e t' :
  get_data_paths E config t = (Raise e, t') ->
  (config = VNone /\ load_fault E e) \/ shape_fault e.
Proof.
  unfold get_data_paths. intros H.
  apply bind_inv in H as [(e0 & H & [= ->]) | (doc & t1 & _ & H)].
  { left. eapply config_or_default_fault, H. }
  apply py_get_fault in H as ->. right. now left.
Qed.

Lemma str_keyed_fault items (t : trace) e t' :
  str_keyed items t = (Raise e, t') -> e = AttributeError \/ e = TypeError.
Proof.
  revert t. induction items as [|[key url] items IH]; intros t; [discriminate |].
  simpl. intros H.
  apply bind_inv in H as [(e0 & H & [= ->]) | (k & t1 & _ & H)].
  { destruct key; inversion H; auto. }
  apply bind_inv in H as [(e0 & H & [= ->]) | (entries & t2 & _ & H)]; [| discriminate].
  eapply IH, H.
Qed.

(** Every exception that comes out of a run. *)
Lemma download_insee_files_raise config output_dir files_to_download t e t' :
  download_insee_files E config output_dir files_to_download t = (Raise e, t') ->
  (config = VNone /\ load_fault E e) \/
  shape_fault e \/
  mkdir_fault E e t' \/
  (exists url p, escape E url p e).
Proof.
  unfold download_insee_files. intros H.
  apply bind_inv in H as [(e0 & H & [= ->]) | (insee_urls & t1 & _ & H)].
  { apply get_insee_urls_fault in H as [H | H]; auto. }
  apply bind_inv in H as [(e0 & H & [= ->]) | (data_paths & t2 & _ & H)].
  { apply get_data_paths_fault in H as [H | H]; auto. }
  apply bind_inv in H as [(e0 & H & [= ->]) | (dest & t3 & _ & H)].
  { apply destination_of_fault in H as ([-> | ->] & _). all: right; left.
    - right. now right.
    - right. now left. }
  apply bind_inv in H as [(e0 & H & [= ->]) | ([] & t4 & _ & H)].
  { unfold mkdir_parents, effect in H.
    destruct (mkdir_result E t3 dest) as [o|] eqn:Hmk; [| discriminate].
    inversion H; subst. right. right. left. exists o, t3, dest. auto. }
  apply bind_inv in H as [(e0 & H & _) | ([] & t5 & _ & H)]; [discriminate |].
  apply bind_inv in H as [(e0 & H & _) | (stamp & t6 & _ & H)]; [discriminate |].
  apply bind_inv in H as [(e0 & H & _) | ([] & t7 & _ & H)]; [discriminate |].
  apply bind_inv in H as [(e0 & H & [= ->]) | (items & t8 & _ & H)].
  { unfold py_items in H. destruct (items_of insee_urls); inversion H.
    right. left. now left. }
  apply bind_inv in H as [(e0 & H & [= ->]) | (entries & t9 & _ & H)].
  { apply str_keyed_fault in H as [-> | ->]; right; left; [now left | right; now left]. }
  apply bind_inv in H as [(e0 & H & _) | ([] & t10 & _ & H)]; [discriminate |].
  apply bind_inv in H as [(e0 & H & [= ->]) | (results & t11 & _ & H)].
  { apply download_each_post in H as (new & _ & [[[-> | ->] _] | [Hm | Hesc]]); auto.
    - right. left. now left.
    - right. left. right. now left. }
  apply bind_inv in H as [(e0 & H & _) | ([] & t12 & _ & H)]; [discriminate |].
  apply bind_inv in H as [(e0 & H & _) | ([] & t13 & _ & H)]; [discriminate |].
  apply bind_inv in H as [(e0 & H & _) | ([] & t14 & _ & H)].
  { destruct (0 <? _)%nat; [| discriminate].
    apply bind_inv in H as [(e1 & H & _) | ([] & t15 & _ & H)]; discriminate. }
  apply bind_inv in H as [(e0 & H & _) | ([] & t15 & _ & H)]; discriminate.
Qed.
End Batch_faults.




(** ** The accessors of the configuration *)

(** C6 (counterexample). In the document [insee: null] the key
    [download_urls] of [insee] is absent, and [get_insee_urls] raises
    [AttributeError]; so do both accessors, called without a configuration,
    on an empty document, in which every key is absent. *)
Lemma accessors_raise_for_null_documents :
  entry "download_urls" VNone = None /\
  get_insee_urls calm (VDict [("insee", VNone)]) [] = (Raise AttributeError, []) /\
  fst (get_insee_urls (with_document VNone) VNone []) = Raise AttributeError /\
  fst (get_data_paths (with_document VNone) VNone []) = Raise AttributeError.
Proof. repeat split; reflexivity. Qed.

(** C6 (as amended). On a loaded document that is a mapping,
    [get_data_paths] never raises: it gives what is under [paths], and the
    empty mapping when [paths] is absent. [get_insee_urls] gives the empty
    mapping when [insee] is absent; when [insee] is a mapping it gives what
    is under [download_urls], and the empty mapping when that key is absent;
    when [insee] is there and is no mapping it raises [AttributeError].
    Neither touches the world. *)
Theorem accessors_give_empty_mapping_for_missing_keys `{Pathlib} (E : env)
    (document : value) (t : trace) :
  is_mapping document = true ->
  get_data_paths E document t
  = (Ok (match entry "paths" document with Some paths => paths | None => VDict [] end), t) /\
  (entry "paths" document = None -> get_data_paths E document t = (Ok (VDict []), t)) /\
  (entry "insee" document = None -> get_insee_urls E document t = (Ok (VDict []), t)) /\
  (forall insee,
     entry "insee" document = Some insee ->
     is_mapping insee = true ->
     get_insee_urls E document t
     = (Ok (match entry "download_urls" insee with Some urls => urls | None => VDict [] end),
        t) /\
     (entry "download_urls" insee = None ->
      get_insee_urls E document t = (Ok (VDict []), t))) /\
  (forall insee,
     entry "insee" document = Some insee ->
     is_mapping insee = false ->
     get_insee_urls E document t = (Raise AttributeError, t)).
Proof.
  intros Hdoc.
  assert (Hpaths : get_data_paths E document t
                   = (Ok (match entry "paths" document with
                          | Some paths => paths
                          | None => VDict []
                          end), t)).
  { destruct document; try discriminate; reflexivity. }
  assert (Hinsee : get_insee_urls E document t
                   = py_get (match entry "insee" document with
                             | Some insee => insee
                             | None => VDict []
                             end) "download_urls" (VDict []) t).
  { destruct document; try discriminate; reflexivity. }
  split; [exact Hpaths |]. split; [| split; [| split]].
  - intros Hnone. now rewrite Hpaths, Hnone.
  - intros Hnone. now rewrite Hinsee, Hnone.
  - intros insee Hsome Hmap. rewrite Hinsee, Hsome.
    assert (Hget : py_get insee "download_urls" (VDict []) t
                   = (Ok (match entry "download_urls" insee with
                          | Some urls => urls
                          | None => VDict []
                          end), t)).
    { destruct insee; try discriminate; reflexivity. }
    split; [exact Hget |]. intros Hnone. now rewrite Hget, Hnone.
  - intros insee Hsome Hmap. rewrite Hinsee, Hsome.
    destruct insee; try discriminate; reflexivity.
Qed.

Lemma accessors_give_empty_mapping_for_missing_keys_witness :
  let document := VDict [("insee", VDict [("metadata", VDict [])])] in
  get_data_paths calm document [] = (Ok (VDict []), []) /\
  get_insee_urls calm document [] = (Ok (VDict []), []) /\
  get_insee_urls calm (VDict [("paths", VDict [])]) [] = (Ok (VDict []), []) /\
  get_insee_urls calm (VDict [("insee", VNone)]) [] = (Raise AttributeError, []).
Proof.
  intros document.
  pose proof (accessors_give_empty_mapping_for_missing_keys calm document [] eq_refl)
    as (_ & Hpaths & _ & Hinsee & _).
  pose proof (accessors_give_empty_mapping_for_missing_keys calm
                (VDict [("paths", VDict [])]) [] eq_refl) as (_ & _ & Hnone & _).
  pose proof (accessors_give_empty_mapping_for_missing_keys calm
                (VDict [("insee", VNone)]) [] eq_refl) as (_ & _ & _ & _ & Hnull).
  split; [exact (Hpaths eq_refl) |].
  split; [exact (proj2 (Hinsee (VDict [("metadata", VDict [])]) eq_refl eq_refl) eq_refl) |].
  split; [exact (Hnone eq_refl) |].
  exact (Hnull VNone eq_refl eq_refl).
Defined.

(** ** The file type of a key *)

Lemma prefix_app_within (p s a : string) :
  (String.length p <= String.length s)%nat ->
  String.prefix p (s +:+ a) = String.prefix p s.
Proof.
  revert s. induction p as [|c p IH]; intros s Hlen;
    [destruct s; [destruct a |]; reflexivity |].
  destruct s as [|c' s]; simpl in *; [lia |].
  destruct (ascii_dec c c'); [apply IH; lia | reflexivity].
Qed.

(** No occurrence of ["_url"] begins in the last three characters before a
    suffix that begins with ["_url"]. *)
Lemma no_straddling_match (x rest : string) :
  (1 <= String.length x <= 3)%nat ->
  startswith (x +:+ "_url" +:+ rest) "_url" = false.
Proof.
  intros Hlen. unfold startswith.
  destruct x as [|c1 [|c2 [|c3 [|c4 x]]]]; simpl in Hlen; try lia;
    cbv [String.append String.prefix];
    repeat match goal with
           | |- context [ascii_dec ?a ?b] =>
               destruct (ascii_dec a b) as [e|];
               [try discriminate e; try subst | try reflexivity]
           end.
Qed.

Lemma replace_from_step (c : ascii) (x suffix : string) :
  replace_from "_url" "" 0 (String c x +:+ suffix)
  = if startswith (String c x +:+ suffix) "_url"
    then replace_from "_url" "" 3 (x +:+ suffix)
    else String c (replace_from "_url" "" 0 (x +:+ suffix)).
Proof. reflexivity. Qed.

Lemma replace_from_skip (c : ascii) (x suffix : string) (k : nat) :
  replace_from "_url" "" (S k) (String c x +:+ suffix)
  = replace_from "_url" "" k (x +:+ suffix).
Proof. reflexivity. Qed.

Lemma replace_from_suffix_twice (x : string) (skip : nat) :
  (skip <= String.length x)%nat ->
  replace_from "_url" "" skip (x +:+ "_url" +:+ "_url")
  = replace_from "_url" "" skip (x +:+ "_url" +:+ "").
Proof.
  revert skip. induction x as [|c x IH]; intros skip Hskip.
  - simpl in Hskip. assert (skip = 0%nat) as -> by lia. reflexivity.
  - simpl in Hskip. destruct skip as [|k].
    2:{ rewrite !replace_from_skip. apply IH. lia. }
    rewrite !replace_from_step.
    destruct (le_lt_dec 4 (String.length (String c x))) as [Hlong | Hshort].
    + unfold startswith. rewrite !prefix_app_within by exact Hlong.
      simpl in Hlong. destruct (String.prefix "_url" (String c x)); now rewrite IH by lia.
    + rewrite !no_straddling_match by (simpl in *; lia).
      now rewrite IH by lia.
Qed.

(** C8. The file type of a key is the key without any occurrence of
    ["_url"]: one at the front or in the middle goes as the one at the end
    does. So for every [x] the keys [x_url] and [x_url_url], which both end
    with ["_url"], have the same file type; in the mapping of URLs to
    download the later entry takes the place of the earlier, and a run on
    such a configuration requests the later URL only and reports one entry
    for the two keys. *)
Theorem file_type_drops_every_occurrence :
  (forall key, str_replace ("_url" +:+ key) "_url" "" = str_replace key "_url" "") /\
  str_replace "a_url_b_url" "_url" "" = "a_b" /\
  (forall x, str_replace (x +:+ "_url" +:+ "_url") "_url" ""
             = str_replace (x +:+ "_url" +:+ "") "_url" "") /\
  endswith "x_url" "_url" = true /\
  endswith "x_url_url" "_url" = true /\
  (forall url1 url2,
     urls_to_download [("x_url", url1); ("x_url_url", url2)] None = [("x", url2)]) /\
  fst (download_insee_files calm colliding_config None None []) = Ok [("x", true)] /\
  requested (snd (download_insee_files calm colliding_config None None []))
  = ["http://x/f2.parquet"] /\
  (length [("x", true)]
   < length (List.filter (fun key => endswith key "_url") (dict_keys colliding_urls)))%nat.
Proof.
  split; [intros key; destruct key; reflexivity |]. split; [vm_compute; reflexivity |].
  split; [intros x; apply replace_from_suffix_twice; lia |].
  repeat split; try (vm_compute; reflexivity).
Qed.

(** ** setup_logger *)

Section Logger_facts.
Context {pathlib : Pathlib}.

Lemma find_logger_insert (reg : gmap string logger) key l :
  find_logger (<[key := l]> reg) key = l.
Proof. unfold find_logger. now rewrite lookup_insert_eq. Qed.

Lemma find_logger_insert_ne (reg : gmap string logger) key k l :
  k <> key -> find_logger (<[key := l]> reg) k = find_logger reg k.
Proof. intros Hk. unfold find_logger. now rewrite lookup_insert_ne by congruence. Qed.

Lemma find_logger_fixupChildren (reg : gmap string logger) key k :
  find_logger (fixupChildren key reg) k
  = match reg !! k with
    | Some l => adopt key k l
    | None => fresh_logger k
    end.
Proof.
  unfold find_logger, fixupChildren. rewrite map_lookup_imap.
  now destruct (reg !! k).
Qed.

Lemma adopt_settings key c l : same_settings l (adopt key c l).
Proof.
  unfold adopt, same_settings. destruct (l_parent l) as [p|]; [| auto].
  destruct (existsb (String.eqb key) (loop_prefixes c) && negb (startswith p key)); auto.
Qed.

Lemma adopt_parent key c l :
  l_parent (adopt key c l) = l_parent l \/ l_parent (adopt key c l) = Some key.
Proof.
  unfold adopt. destruct (l_parent l) as [p|] eqn:Hp; [| auto].
  destruct (existsb (String.eqb key) (loop_prefixes c) && negb (startswith p key)); auto.
Qed.

(** [getLogger] returns the logger of the name. *)
Lemma getLogger_eq name (reg : gmap string logger) :
  getLogger name reg = (Ok (logger_key name), snd (getLogger name reg)).
Proof.
  unfold getLogger. destruct (String.eqb (logger_key name) "root"); [reflexivity |].
  now destruct (reg !! logger_key name).
Qed.

(** It changes nothing when the logger is there. *)
Lemma getLogger_existing name (reg : gmap string logger) :
  logger_key name = "root" \/ is_Some (reg !! logger_key name) ->
  snd (getLogger name reg) = reg.
Proof.
  unfold getLogger. intros [-> | [l Hl]]; [reflexivity |].
  destruct (String.eqb (logger_key name) "root"); [reflexivity |]. now rewrite Hl.
Qed.

(** It leaves every logger its level, its handlers and its propagation; the
    logger it creates has those of a logger nobody configured. *)
Lemma getLogger_settings name (reg : gmap string logger) k :
  same_settings (find_logger reg k) (find_logger (snd (getLogger name reg)) k).
Proof.
  unfold getLogger. set (key := logger_key name).
  destruct (String.eqb key "root") eqn:Hroot; [now repeat split |].
  destruct (reg !! key) as [l|] eqn:Hl; [now repeat split |]. cbn [snd].
  destruct (decide (k = key)) as [-> | Hk].
  - rewrite find_logger_insert. unfold find_logger. rewrite Hl. unfold fresh_logger.
    rewrite Hroot. now repeat split.
  - rewrite find_logger_insert_ne by exact Hk. rewrite find_logger_fixupChildren.
    unfold find_logger. destruct (reg !! k) as [l'|]; [apply adopt_settings |].
    now repeat split.
Qed.

(** It leaves every other logger under the logger it was under, or brings
    it under the new one. *)
Lemma getLogger_parent name (reg : gmap string logger) k :
  k <> logger_key name ->
  l_parent (find_logger (snd (getLogger name reg)) k) = l_parent (find_logger reg k) \/
  l_parent (find_logger (snd (getLogger name reg)) k) = Some (logger_key name).
Proof.
  intros Hk. unfold getLogger. set (key := logger_key name) in *.
  destruct (String.eqb key "root") eqn:Hroot; [now left |].
  destruct (reg !! key) as [l|] eqn:Hl; [now left |]. cbn [snd].
  rewrite find_logger_insert_ne by exact Hk. rewrite find_logger_fixupChildren.
  unfold find_logger. destruct (reg !! k) as [l'|]; [apply adopt_parent | now left].
Qed.

Ltac run_setup name reg key :=
  unfold setup_logger;
  rewrite (bind_ok _ _ _ _ _ (getLogger_eq name reg));
  fold key; unfold bind, setLevel, handlers_of;
  cbn [fst snd]; rewrite ?find_logger_insert; cbn [l_handlers].

Ltac run_attach :=
  unfold addHandler, answered, ret, path_outcome; cbn [fst snd];
  rewrite ?find_logger_insert; cbn [l_handlers l_level l_propagate l_parent app].

Ltac setup_cases io o :=
  destruct (console_output o), (file_output o), (log_dir o) as [dir|];
  try destruct (nonempty_str dir);
  destruct (io_mkdir io), (io_open io); run_attach.

(** One call: a logger that has handlers keeps them and is returned; a
    logger without handlers gets at most the console handler and one file
    handler. *)
Lemma setup_logger_handlers io name o (reg : gmap string logger) :
  let key := logger_key name in
  match handlers_at reg key with
  | _ :: _ =>
      fst (setup_logger io name o reg) = Ok key /\
      handlers_at (snd (setup_logger io name o reg)) key = handlers_at reg key
  | [] =>
      exists console file,
        handlers_at (snd (setup_logger io name o reg)) key = attached o console file
  end.
Proof.
  intros key. unfold handlers_at.
  destruct (getLogger_settings name reg key) as (_ & Hh & _). fold key in Hh.
  rewrite <- Hh. run_setup name reg key.
  destruct (l_handlers (find_logger (snd (getLogger name reg)) key)) as [|h hs] eqn:Hhs.
  - setup_cases io o;
      first [ exists true, None; reflexivity
            | exists false, None; reflexivity
            | exists true; eexists (Some _); reflexivity
            | exists false; eexists (Some _); reflexivity ].
  - unfold ret. cbn [fst snd]. rewrite find_logger_insert. now split.
Qed.

(** A call touches the settings of the logger it names only: for the others
    it does what [getLogger] does. *)
Lemma setup_logger_other io name o (reg : gmap string logger) k :
  k <> logger_key name ->
  find_logger (snd (setup_logger io name o reg)) k
  = find_logger (snd (getLogger name reg)) k.
Proof.
  set (key := logger_key name). intros Hk. run_setup name reg key.
  destruct (l_handlers (find_logger (snd (getLogger name reg)) key)) as [|h hs].
  - setup_cases io o; now rewrite ?find_logger_insert_ne by exact Hk.
  - unfold ret. cbn [fst snd]. now rewrite ?find_logger_insert_ne by exact Hk.
Qed.

(** The level is set before the handlers are looked at. *)
Lemma setup_logger_level io name o (reg : gmap string logger) :
  level_at (snd (setup_logger io name o reg)) (logger_key name) = level o.
Proof.
  set (key := logger_key name). unfold level_at. run_setup name reg key.
  destruct (l_handlers (find_logger (snd (getLogger name reg)) key)) as [|h hs].
  - setup_cases io o; reflexivity.
  - unfold ret. cbn [fst snd]. now rewrite find_logger_insert.
Qed.

(** No call changes whether a logger passes its records on, nor the logger
    above the one it names. *)
Lemma setup_logger_propagate io name o (reg : gmap string logger) k :
  l_propagate (find_logger (snd (setup_logger io name o reg)) k)
  = l_propagate (find_logger reg k).
Proof.
  destruct (getLogger_settings name reg k) as (_ & _ & Hp). rewrite <- Hp.
  destruct (decide (k = logger_key name)) as [-> | Hk].
  - set (key := logger_key name). run_setup name reg key.
    destruct (l_handlers (find_logger (snd (getLogger name reg)) key)) as [|h hs].
    + setup_cases io o; reflexivity.
    + unfold ret. cbn [fst snd]. now rewrite find_logger_insert.
  - now rewrite setup_logger_other.
Qed.

(** The settings of the other loggers stay as they are. *)
Lemma setup_logger_settings_other io name o (reg : gmap string logger) k :
  k <> logger_key name ->
  same_settings (find_logger reg k) (find_logger (snd (setup_logger io name o reg)) k).
Proof.
  intros Hk. rewrite setup_logger_other by exact Hk. apply getLogger_settings.
Qed.

Lemma setup_logger_parent_other io name o (reg : gmap string logger) k :
  k <> logger_key name ->
  l_parent (find_logger (snd (setup_logger io name o reg)) k)
  = l_parent (find_logger reg k) \/
  l_parent (find_logger (snd (setup_logger io name o reg)) k) = Some (logger_key name).
Proof.
  intros Hk. rewrite setup_logger_other by exact Hk. now apply getLogger_parent.
Qed.

Lemma requested_sinks_NoDup now o : NoDup (requested_sinks now o).
Proof.
  unfold requested_sinks.
  destruct (console_output o), (file_output o), (log_dir o) as [dir|];
    try destruct (nonempty_str dir); simpl; repeat constructor;
    rewrite ?list_elem_of_In; simpl; intuition discriminate.
Qed.

(** A call that returns, on a logger without handlers, attaches a handler
    for each sink the options ask for, at the level of the options. *)
Lemma setup_logger_attaches io name o (reg : gmap string logger) :
  handlers_at reg (logger_key name) = [] ->
  fst (setup_logger io name o reg) = Ok (logger_key name) ->
  handlers_at (snd (setup_logger io name o reg)) (logger_key name)
  = map (fun s => {| h_sink := s; h_level := level o |}) (requested_sinks (io_now io) o).
Proof.
  set (key := logger_key name). unfold handlers_at, requested_sinks. intros H0.
  destruct (getLogger_settings name reg key) as (_ & Hh & _). fold key in Hh.
  rewrite <- Hh in H0. run_setup name reg key. rewrite H0.
  setup_cases io o; rewrite ?H0; cbn [app]; intros Hok;
    first [discriminate Hok | reflexivity].
Qed.

(** The console handler is attached, when asked for, before the disk is
    touched. *)
Lemma setup_logger_console io name o (reg : gmap string logger) :
  handlers_at reg (logger_key name) = [] ->
  exists file,
    handlers_at (snd (setup_logger io name o reg)) (logger_key name)
    = attached o (console_output o) file.
Proof.
  set (key := logger_key name). unfold handlers_at. intros H0.
  destruct (getLogger_settings name reg key) as (_ & Hh & _). fold key in Hh.
  rewrite <- Hh in H0. run_setup name reg key. rewrite H0.
  setup_cases io o; rewrite ?H0; cbn [app];
    first [ exists None; reflexivity | eexists (Some _); reflexivity ].
Qed.

Lemma attached_levels o console file h :
  In h (attached o console file) -> h_level h = level o.
Proof.
  destruct console, file as [p|]; simpl; intros Hh;
    repeat (destruct Hh as [<- | Hh]; [reflexivity |]); destruct Hh.
Qed.

Lemma filter_none {A} (f : A -> bool) (l : list A) :
  (forall x, In x l -> f x = false) -> List.filter f l = [].
Proof.
  induction l as [|x l IH]; intros Hl; [reflexivity |].
  simpl. rewrite (Hl x) by now left. apply IH. intros y Hy. apply Hl. now right.
Qed.

Lemma filter_all {A} (f : A -> bool) (l : list A) :
  (forall x, In x l -> f x = true) -> List.filter f l = l.
Proof.
  induction l as [|x l IH]; intros Hl; [reflexivity |].
  simpl. rewrite (Hl x) by now left. f_equal. apply IH. intros y Hy. apply Hl. now right.
Qed.

(** The lines of a log call when only the logger itself has handlers. *)
Lemma log_lines_own (reg : gmap string logger) key lvl :
  chain_handlers reg (ancestors reg key) = [] ->
  log_lines reg key lvl =
  if (0 <? lvl) && (effective_level reg key <=? lvl) then
    match handlers_at reg key with
    | [] => if WARNING <=? lvl then [LastResort] else []
    | hs => map h_sink (List.filter (fun h => h_level h <=? lvl) hs)
    end
  else [].
Proof.
  intros Hanc. unfold log_lines, handlers_at. cbn [chain_handlers]. rewrite Hanc.
  destruct (l_propagate (find_logger reg key)); now rewrite app_nil_r.
Qed.

(** The lines of a log call that passes the levels of a logger and of its
    handlers: one to each of its sinks, and then what the loggers above
    write. *)
Lemma log_lines_passed (reg : gmap string logger) key lvl :
  0 < lvl ->
  effective_level reg key <= lvl ->
  handlers_at reg key <> [] ->
  (forall h, In h (handlers_at reg key) -> h_level h <= lvl) ->
  log_lines reg key lvl
  = map h_sink (handlers_at reg key)
    ++ (if l_propagate (find_logger reg key)
        then map h_sink (List.filter (fun h => h_level h <=? lvl)
                           (chain_handlers reg (ancestors reg key)))
        else []).
Proof.
  intros Hpos Heff Hne Hlevels. unfold log_lines.
  apply Z.ltb_lt in Hpos. apply Z.leb_le in Heff. rewrite Hpos, Heff. cbn [andb].
  cbn [chain_handlers]. fold (handlers_at reg key).
  destruct (handlers_at reg key) as [|h hs] eqn:Hhs; [contradiction |].
  set (above := if l_propagate (find_logger reg key)
                then chain_handlers reg (ancestors reg key) else []).
  transitivity (map h_sink (List.filter (fun h1 => h_level h1 <=? lvl) ((h :: hs) ++ above)));
    [reflexivity |].
  rewrite List.filter_app, map_app.
  rewrite (filter_all _ (h :: hs)) by (intros x Hx; apply Z.leb_le; now apply Hlevels).
  subst above. now destruct (l_propagate (find_logger reg key)).
Qed.
End Logger_facts.



(** * Further properties *)

(** ** A download that returns true *)

Section Monad_inversions.
Context {S : Type}.

Lemma finally_ok_inv {A} (m : M S A) (release : M S unit) s a s' :
  finally m release s = (Ok a, s') ->
  exists s1, m s = (Ok a, s1) /\ release s1 = (Ok tt, s').
Proof.
  unfold finally. destruct (m s) as [r s1]. destruct (release s1) as [[[]|e] s2] eqn:Hr;
    intros H; inversion H; subst. eauto.
Qed.

Lemma bind_ok_inv {A B} (m : M S A) (k : A -> M S B) s b s' :
  bind m k s = (Ok b, s') ->
  exists a s1, m s = (Ok a, s1) /\ k a s1 = (Ok b, s').
Proof.
  intros H. apply bind_inv in H as [(e & _ & He) | H]; [discriminate | exact H].
Qed.
End Monad_inversions.

Section Download_success.
Context {pathlib : Pathlib} (E : env).

Lemma effect_ok_inv {A} ev (answer : trace -> outcome A) t a t' :
  effect ev answer t = (Ok a, t') -> answer t = Ok a /\ t' = t ++ [ev].
Proof. unfold effect. intros H. inversion H. now split. Qed.

(** The loop over the chunks, when it comes to its end. *)
Lemma write_loop_ok_inv p (progress : bool) (chunks : list chunk) t t' :
  for_each chunks
    (fun data =>
       match data with
       | [] => ret tt
       | _ :: _ =>
           file_write E p data;;;
           if progress then bar_update E (Z.of_nat (length data)) else ret tt
       end) t = (Ok tt, t') ->
  t' = t ++ body_events p progress chunks.
Proof.
  revert t. induction chunks as [|data chunks IH]; intros t H.
  - inversion H. now rewrite app_nil_r.
  - cbn [for_each] in H. apply bind_ok_inv in H as ([] & t1 & Hd & H).
    apply IH in H as ->. unfold body_events. cbn [flat_map].
    fold (body_events p progress chunks). rewrite app_assoc. f_equal.
    destruct data as [|b data]; [inversion Hd; now rewrite app_nil_r |].
    apply bind_ok_inv in Hd as ([] & t2 & Hw & Hu).
    apply effect_ok_inv in Hw as [_ ->].
    destruct progress; [apply effect_ok_inv in Hu as [_ ->] | inversion Hu; subst];
      try rewrite <- app_assoc; reflexivity.
Qed.

Lemma write_body_ok_inv (r : response) chunk_size p progress t t' :
  write_body E r chunk_size p progress t = (Ok tt, t') ->
  snd (iter_content r chunk_size) = None /\
  t' = t ++ body_events p progress (fst (iter_content r chunk_size)).
Proof.
  unfold write_body. destruct (iter_content r chunk_size) as [chunks fault]. intros H.
  apply bind_ok_inv in H as ([] & t1 & Hl & H). apply write_loop_ok_inv in Hl as ->.
  destruct fault; inversion H. now split.
Qed.

Lemma total_size_of_ok_inv (r : response) t n t' :
  total_size_of r t = (Ok n, t') -> declared_size r = Some n /\ t' = t.
Proof.
  unfold total_size_of, declared_size.
  destruct (content_length r) as [h|]; [destruct (int_of_str h) |];
    intros H; inversion H; now split.
Qed.

Lemma log_file_size_ok_inv n t t' :
  log_file_size n t = (Ok tt, t') -> t' = t ++ [EvLog DEBUG (MsgFileSize n)].
Proof.
  unfold log_file_size. destruct (truediv_overflows n (1024 * 1024)); intros H;
    now inversion H.
Qed.

Lemma raise_for_status_ok_inv (r : response) t t' :
  raise_for_status r t = (Ok tt, t') ->
  (400 <=? status_code r) && (status_code r <? 600) = false /\ t' = t.
Proof.
  unfold raise_for_status. destruct ((400 <=? status_code r) && (status_code r <? 600));
    intros H; inversion H; now split.
Qed.

(** What has happened when the [try] body returns. *)
Lemma download_attempt_ok_inv url p chunk_size show_progress t b t' :
  download_attempt E url p chunk_size show_progress t = (Ok b, t') ->
  exists resp n,
    get_result E (t ++ [EvLog DEBUG (MsgStartingDownload url)]) url = inr resp /\
    (400 <=? status_code resp) && (status_code resp <? 600) = false /\
    declared_size resp = Some n /\
    snd (iter_content resp chunk_size) = None /\
    t' = t ++ [EvLog DEBUG (MsgStartingDownload url); EvGet url true 30;
               EvLog DEBUG (MsgFileSize n); EvOpen p]
           ++ store_events p show_progress n (fst (iter_content resp chunk_size))
           ++ [EvClose p; EvLog INFO (MsgDownloaded p)].
Proof.
  unfold download_attempt. intros H.
  apply bind_ok_inv in H as ([] & t1 & Hlog & H). inversion Hlog; subst; clear Hlog.
  apply bind_ok_inv in H as (resp & t2 & Hget & H).
  unfold requests_get, effect in Hget.
  destruct (get_result E _ url) as [q|resp'] eqn:Hresp; inversion Hget; subst; clear Hget.
  apply bind_ok_inv in H as ([] & t3 & Hst & H).
  apply raise_for_status_ok_inv in Hst as [Hst ->].
  apply bind_ok_inv in H as (n & t4 & Hn & H). apply total_size_of_ok_inv in Hn as [Hn ->].
  apply bind_ok_inv in H as ([] & t5 & Hs & H). apply log_file_size_ok_inv in Hs as ->.
  apply bind_ok_inv in H as ([] & t6 & Ho & H). apply effect_ok_inv in Ho as [_ ->].
  apply bind_ok_inv in H as ([] & t7 & Hf & H).
  apply finally_ok_inv in Hf as (t8 & Hbody & Hc). apply effect_ok_inv in Hc as [_ ->].
  apply bind_ok_inv in H as ([] & t9 & Hl & H). inversion Hl; subst; clear Hl.
  inversion H; subst; clear H.
  exists resp, n. split; [reflexivity |]. split; [exact Hst |]. split; [exact Hn |].
  unfold store_events. destruct (show_progress && (0 <? n)).
  - apply bind_ok_inv in Hbody as ([] & t10 & Hopen & Hbody).
    apply effect_ok_inv in Hopen as [_ ->].
    apply finally_ok_inv in Hbody as (t11 & Hbody & Hclose).
    apply effect_ok_inv in Hclose as [_ ->].
    apply write_body_ok_inv in Hbody as [Hfault ->]. split; [exact Hfault |].
    rewrite <- !app_assoc. cbn [app]. rewrite <- !app_assoc. reflexivity.
  - apply write_body_ok_inv in Hbody as [Hfault ->]. split; [exact Hfault |].
    rewrite <- !app_assoc. cbn [app]. reflexivity.
Qed.

(** The effects of a call of [download_file] that returns true. *)
Lemma download_file_true_inv url local_path chunk_size show_progress t t' :
  download_file E url local_path chunk_size show_progress t = (Ok true, t') ->
  let p := path_of local_path in
  let dir := path_parent p in
  exists resp n,
    get_result E (t ++ [EvMkdir dir true true; EvLog DEBUG (MsgStartingDownload url)]) url
    = inr resp /\
    (400 <=? status_code resp) && (status_code resp <? 600) = false /\
    declared_size resp = Some n /\
    snd (iter_content resp chunk_size) = None /\
    t' = t ++ [EvMkdir dir true true; EvLog DEBUG (MsgStartingDownload url);
               EvGet url true 30; EvLog DEBUG (MsgFileSize n); EvOpen p]
           ++ store_events p show_progress n (fst (iter_content resp chunk_size))
           ++ [EvClose p; EvLog INFO (MsgDownloaded p)].
Proof.
  intros H p dir.
  destruct (mkdir_result E t dir) as [o|] eqn:Hmk.
  { rewrite (download_file_mkdir_failed E _ _ _ _ _ _ Hmk) in H. discriminate. }
  rewrite (download_file_mkdir_done E _ _ _ _ _ Hmk) in H. fold p dir in H.
  unfold try_except in H.
  destruct (download_attempt E url p chunk_size show_progress _) as [[b|e] t1] eqn:Ha.
  - inversion H; subst.
    apply download_attempt_ok_inv in Ha as (resp & n & Hget & Hst & Hn & Hf & ->).
    exists resp, n. rewrite <- !app_assoc in *. simpl in *. now repeat split.
  - rewrite download_handlers_classify in H. destruct (classify e); discriminate.
Qed.
End Download_success.

Lemma written_app p t1 t2 : written p (t1 ++ t2) = written p t1 ++ written p t2.
Proof. apply flat_map_app. Qed.

Lemma opened_app t1 t2 : opened (t1 ++ t2) = opened t1 ++ opened t2.
Proof. apply flat_map_app. Qed.

Lemma progress_total_app t1 t2 :
  progress_total (t1 ++ t2) = progress_total t1 + progress_total t2.
Proof.
  unfold progress_total. rewrite flat_map_app, fold_right_app.
  induction (flat_map _ t1) as [|n l IH]; simpl; [reflexivity |]. rewrite IH. lia.
Qed.

Lemma body_events_cons p progress data chunks :
  body_events p progress (data :: chunks)
  = match data with
    | [] => []
    | _ :: _ =>
        EvWrite p data
        :: (if progress then [EvTqdmUpdate (Z.of_nat (length data))] else [])
    end ++ body_events p progress chunks.
Proof. reflexivity. Qed.

Lemma written_body_events p progress chunks :
  written p (body_events p progress chunks) = concat chunks.
Proof.
  induction chunks as [|data chunks IH]; [reflexivity |].
  rewrite body_events_cons, written_app, IH. simpl concat. f_equal.
  destruct data as [|b data]; [reflexivity |].
  simpl. rewrite String.eqb_refl. destruct progress; simpl; now rewrite app_nil_r.
Qed.

Lemma opened_body_events p progress chunks : opened (body_events p progress chunks) = [].
Proof.
  induction chunks as [|data chunks IH]; [reflexivity |].
  rewrite body_events_cons, opened_app, IH.
  destruct data; [reflexivity |]. now destruct progress.
Qed.

Lemma progress_body_events p progress chunks :
  progress_total (body_events p progress chunks)
  = if progress then Z.of_nat (length (concat chunks)) else 0.
Proof.
  induction chunks as [|data chunks IH]; [now destruct progress |].
  rewrite body_events_cons, progress_total_app, IH. simpl concat. rewrite length_app.
  destruct data as [|b data]; destruct progress; unfold progress_total; simpl; lia.
Qed.

Lemma written_store_events `{Pathlib} p show_progress n chunks :
  written p (store_events p show_progress n chunks) = concat chunks.
Proof.
  unfold store_events. destruct (show_progress && (0 <? n)).
  - change (EvTqdmOpen n (path_name p) :: ?l) with ([EvTqdmOpen n (path_name p)] ++ l).
    rewrite !written_app, written_body_events. simpl. now rewrite app_nil_r.
  - apply written_body_events.
Qed.

Lemma opened_store_events `{Pathlib} p show_progress n chunks :
  opened (store_events p show_progress n chunks) = [].
Proof.
  unfold store_events. destruct (show_progress && (0 <? n)).
  - change (EvTqdmOpen n (path_name p) :: ?l) with ([EvTqdmOpen n (path_name p)] ++ l).
    rewrite !opened_app, opened_body_events. reflexivity.
  - apply opened_body_events.
Qed.

Lemma progress_store_events `{Pathlib} p show_progress n chunks :
  progress_total (store_events p show_progress n chunks)
  = if show_progress && (0 <? n) then Z.of_nat (length (concat chunks)) else 0.
Proof.
  unfold store_events. destruct (show_progress && (0 <? n)).
  - change (EvTqdmOpen n (path_name p) :: ?l) with ([EvTqdmOpen n (path_name p)] ++ l).
    rewrite !progress_total_app, progress_body_events. unfold progress_total. simpl. lia.
  - apply progress_body_events.
Qed.

(** X1. Whenever [download_file] returns true, the request was answered by a
    response whose body came to its end, the destination file was opened
    once, and the bytes written to it are the chunks of that body, in order
    and complete. *)
Theorem download_file_writes_the_whole_body `{Pathlib} (E : env) (url local_path : string)
    (chunk_size : Z) (show_progress : bool) (t t' : trace) :
  download_file E url local_path chunk_size show_progress t = (Ok true, t') ->
  let p := path_of local_path in
  exists resp,
    get_result E (t ++ [EvMkdir (path_parent p) true true;
                        EvLog DEBUG (MsgStartingDownload url)]) url = inr resp /\
    snd (iter_content resp chunk_size) = None /\
    written p t' = written p t ++ concat (fst (iter_content resp chunk_size)) /\
    opened t' = opened t ++ [p].
Proof.
  intros Hrun p.
  apply download_file_true_inv in Hrun as (resp & n & Hget & _ & _ & Hfault & ->).
  fold p. exists resp. split; [exact Hget |]. split; [exact Hfault |]. split.
  - rewrite !written_app, written_store_events. simpl. now rewrite app_nil_r.
  - rewrite !opened_app, opened_store_events. reflexivity.
Qed.

Lemma download_file_writes_the_whole_body_witness :
  exists resp,
    get_result calm ([] ++ [EvMkdir "/d" true true;
                            EvLog DEBUG (MsgStartingDownload "http://x/f1.parquet")])
      "http://x/f1.parquet" = inr resp /\
    snd (iter_content resp 8192) = None /\
    written "/d/f1.parquet"
      (snd (download_file calm "http://x/f1.parquet" "/d/f1.parquet" 8192 true []))
    = written "/d/f1.parquet" [] ++ concat (fst (iter_content resp 8192)) /\
    opened (snd (download_file calm "http://x/f1.parquet" "/d/f1.parquet" 8192 true []))
    = opened [] ++ ["/d/f1.parquet"].
Proof.
  exact (download_file_writes_the_whole_body calm "http://x/f1.parquet" "/d/f1.parquet"
           8192 true [] _ eq_refl).
Defined.

(** X2. Whenever [download_file] returns true, the progress bar has been
    moved by exactly the number of bytes written when progress was asked for
    and the response declared a positive size, and not at all otherwise:
    with [show_progress] false, or with no [content-length] header. *)
Theorem download_file_progress_counts_written_bytes `{Pathlib} (E : env)
    (url local_path : string) (chunk_size : Z) (show_progress : bool) (t t' : trace) :
  download_file E url local_path chunk_size show_progress t = (Ok true, t') ->
  let p := path_of local_path in
  exists resp n,
    get_result E (t ++ [EvMkdir (path_parent p) true true;
                        EvLog DEBUG (MsgStartingDownload url)]) url = inr resp /\
    declared_size resp = Some n /\
    (content_length resp = None -> n = 0) /\
    progress_total t' - progress_total t
    = if show_progress && (0 <? n)
      then Z.of_nat (length (concat (fst (iter_content resp chunk_size))))
      else 0.
Proof.
  intros Hrun p.
  apply download_file_true_inv in Hrun as (resp & n & Hget & _ & Hn & _ & ->).
  fold p. exists resp, n. split; [exact Hget |]. split; [exact Hn |]. split.
  - intros Hnone. unfold declared_size in Hn. rewrite Hnone in Hn. now inversion Hn.
  - rewrite !progress_total_app, progress_store_events. unfold progress_total. simpl. lia.
Qed.

Lemma download_file_progress_counts_written_bytes_witness :
  exists resp n,
    get_result calm ([] ++ [EvMkdir "/d" true true;
                            EvLog DEBUG (MsgStartingDownload "http://x/f1.parquet")])
      "http://x/f1.parquet" = inr resp /\
    declared_size resp = Some n /\
    (content_length resp = None -> n = 0) /\
    progress_total (snd (download_file calm "http://x/f1.parquet" "/d/f1.parquet" 8192 true []))
    - progress_total []
    = if true && (0 <? n)
      then Z.of_nat (length (concat (fst (iter_content resp 8192))))
      else 0.
Proof.
  exact (download_file_progress_counts_written_bytes calm "http://x/f1.parquet"
           "/d/f1.parquet" 8192 true [] _ eq_refl).
Defined.

(** ** A download that returns false *)



(** X4. A response with a status from 400 to 599 makes [download_file]
    return false after the HTTP error line, before the destination file is
    opened: nothing of the body is read or written. *)
Theorem download_file_http_error `{Pathlib} (E : env) (url local_path : string)
    (chunk_size : Z) (show_progress : bool) (t : trace) (resp : response) :
  let p := path_of local_path in
  let dir := path_parent p in
  mkdir_result E t dir = None ->
  get_result E (t ++ [EvMkdir dir true true; EvLog DEBUG (MsgStartingDownload url)]) url
  = inr resp ->
  400 <= status_code resp < 600 ->
  download_file E url local_path chunk_size show_progress t
  = (Ok false,
     t ++ [EvMkdir dir true true; EvLog DEBUG (MsgStartingDownload url);
           EvGet url true 30; EvLog ERROR (MsgHTTPError url HTTPError)]).
Proof.
  intros p dir Hmk Hget Hstatus. rewrite (download_file_mkdir_done E _ _ _ _ _ Hmk).
  fold p dir. unfold try_except, download_attempt.
  rewrite (bind_ok _ _ _ tt
             ((t ++ [EvMkdir dir true true]) ++ [EvLog DEBUG (MsgStartingDownload url)]))
    by reflexivity.
  rewrite <- app_assoc. cbn [app].
  erewrite bind_ok; [| unfold requests_get, effect; rewrite Hget; reflexivity].
  assert (Hst : forall t0, raise_for_status resp t0 = (Raise HTTPError, t0)).
  { intros t0. unfold raise_for_status.
    replace ((400 <=? status_code resp) && (status_code resp <? 600)) with true
      by (symmetry; apply andb_true_iff; split; [apply Z.leb_le | apply Z.ltb_lt]; lia).
    reflexivity. }
  rewrite (bind_raise _ _ _ _ _ (Hst _)).
  rewrite download_handlers_classify. cbn [classify failure_log].
  try rewrite <- !app_assoc. reflexivity.
Qed.

Lemma download_file_http_error_witness :
  download_file (world (fun _ => inr not_found_response))
    "http://x/f2.parquet" "/d/f2.parquet" 8192 true []
  = (Ok false,
     [] ++ [EvMkdir "/d" true true; EvLog DEBUG (MsgStartingDownload "http://x/f2.parquet");
            EvGet "http://x/f2.parquet" true 30;
            EvLog ERROR (MsgHTTPError "http://x/f2.parquet" HTTPError)]).
Proof.
  assert (Hstatus : 400 <= status_code not_found_response < 600) by (simpl; lia).
  exact (download_file_http_error (world (fun _ => inr not_found_response))
           "http://x/f2.parquet" "/d/f2.parquet" 8192 true [] not_found_response
           eq_refl eq_refl Hstatus).
Defined.

(** ** Downloads on a sound disk *)

Section Sound_disk.
Context {pathlib : Pathlib} (E : env).
Hypothesis Hdisk : sound_disk E.
Hypothesis Hbar : steady_bar E.

Lemma write_loop_sound p (progress : bool) (chunks : list chunk) t :
  for_each chunks
    (fun data =>
       match data with
       | [] => ret tt
       | _ :: _ =>
           file_write E p data;;;
           if progress then bar_update E (Z.of_nat (length data)) else ret tt
       end) t = (Ok tt, t ++ body_events p progress chunks).
Proof.
  destruct Hdisk as (_ & _ & Hwrite & _).
  revert t. induction chunks as [|data chunks IH]; intros t.
  - simpl. unfold ret. now rewrite app_nil_r.
  - cbn [for_each]. rewrite body_events_cons, app_assoc.
    erewrite bind_ok; [apply IH |].
    destruct data as [|b data]; [unfold ret; now rewrite app_nil_r |].
    unfold bind, file_write, effect. rewrite Hwrite. cbn [os_outcome].
    destruct progress; unfold bar_update, effect, ret; rewrite ?Hbar; cbn [bar_outcome app];
      try rewrite <- app_assoc; reflexivity.
Qed.

Lemma write_body_sound (r : response) chunk_size p progress t :
  write_body E r chunk_size p progress t
  = (match snd (iter_content r chunk_size) with
     | Some q => Raise (exc_of_request q)
     | None => Ok tt
     end,
     t ++ body_events p progress (fst (iter_content r chunk_size))).
Proof.
  unfold write_body. destruct (iter_content r chunk_size) as [chunks fault].
  erewrite bind_ok; [| apply write_loop_sound]. now destruct fault.
Qed.

(** The block that stores the body, up to the closing of the file. *)
Lemma store_sound (r : response) chunk_size p show_progress n t :
  show_progress && (0 <? n) && to_float_overflows n = false ->
  finally
    (if show_progress && (0 <? n)
     then
       bar_open E n (path_name p);;;
       finally (write_body E r chunk_size p true) (bar_close E)
     else write_body E r chunk_size p false)
    (file_close E p) t
  = (match snd (iter_content r chunk_size) with
     | Some q => Raise (exc_of_request q)
     | None => Ok tt
     end,
     t ++ store_events p show_progress n (fst (iter_content r chunk_size)) ++ [EvClose p]).
Proof.
  intros Hfits. destruct Hdisk as (_ & _ & _ & Hclose).
  unfold finally at 1, store_events. destruct (show_progress && (0 <? n)).
  - cbn [andb] in Hfits.
    erewrite bind_ok; [| unfold bar_open, effect; rewrite Hfits, Hbar; reflexivity].
    unfold finally at 1. rewrite write_body_sound.
    unfold bar_close at 1, effect at 1. rewrite Hbar. cbn [bar_outcome].
    unfold file_close, effect. rewrite Hclose.
    cbn [os_outcome]. rewrite <- !app_assoc. cbn [app].
    destruct (snd (iter_content r chunk_size)); rewrite <- ?app_assoc; reflexivity.
  - rewrite write_body_sound. unfold file_close, effect. rewrite Hclose.
    cbn [os_outcome]. rewrite <- !app_assoc. cbn [app].
    destruct (snd (iter_content r chunk_size)); reflexivity.
Qed.

(** The [try] body once a response with a passing status and a usable
    [content-length] is there: the body is stored as far as it comes. *)
Lemma download_attempt_sound url p chunk_size show_progress t (r : response) n :
  get_result E (t ++ [EvLog DEBUG (MsgStartingDownload url)]) url = inr r ->
  status_passes r = true ->
  declared_size r = Some n ->
  truediv_overflows n (1024 * 1024) = false ->
  (0 <? n) && to_float_overflows n = false ->
  download_attempt E url p chunk_size show_progress t
  = (match snd (iter_content r chunk_size) with
     | Some q => Raise (exc_of_request q)
     | None => Ok true
     end,
     t ++ [EvLog DEBUG (MsgStartingDownload url); EvGet url true 30;
           EvLog DEBUG (MsgFileSize n); EvOpen p]
       ++ store_events p show_progress n (fst (iter_content r chunk_size))
       ++ EvClose p
          :: match snd (iter_content r chunk_size) with
             | Some _ => []
             | None => [EvLog INFO (MsgDownloaded p)]
             end).
Proof.
  intros Hget Hstatus Hn Hover Hfits. destruct Hdisk as (_ & Hopen & _ & _).
  unfold download_attempt.
  erewrite bind_ok; [| reflexivity].
  erewrite bind_ok; [| unfold requests_get, effect; rewrite Hget; reflexivity].
  erewrite bind_ok.
  2:{ unfold raise_for_status. unfold status_passes in Hstatus.
      apply negb_true_iff in Hstatus. rewrite Hstatus. reflexivity. }
  erewrite bind_ok.
  2:{ unfold total_size_of. unfold declared_size in Hn.
      destruct (content_length r) as [h|]; [rewrite Hn | inversion Hn; subst]; reflexivity. }
  erewrite bind_ok; [| unfold log_file_size; rewrite Hover; reflexivity].
  erewrite bind_ok; [| unfold open_wb, effect; rewrite Hopen; reflexivity].
  unfold bind at 1. rewrite store_sound
    by (rewrite <- andb_assoc, Hfits; apply andb_false_r).
  destruct (snd (iter_content r chunk_size)) as [q|].
  - rewrite <- !app_assoc. reflexivity.
  - unfold bind, log, effect, ret. rewrite <- !app_assoc. cbn [app].
    try rewrite <- !app_assoc. reflexivity.
Qed.

(** On a sound disk the result of [download_file] tells whether the answer
    to its request delivers, unless a header is unusable. *)
Lemma download_file_sound url local_path chunk_size show_progress t :
  let p := path_of local_path in
  let t0 := t ++ [EvMkdir (path_parent p) true true; EvLog DEBUG (MsgStartingDownload url)] in
  (forall r, get_result E t0 url = inr r -> status_passes r = true -> usable_length r = true) ->
  fst (download_file E url local_path chunk_size show_progress t)
  = Ok (delivers chunk_size (get_result E t0 url)).
Proof.
  intros p t0 Husable. pose proof Hdisk as (Hmk & _).
  rewrite (download_file_mkdir_done E _ _ _ _ _ (Hmk _ _)). fold p. unfold try_except.
  destruct (get_result E t0 url) as [q|r] eqn:Hget.
  - unfold download_attempt. erewrite bind_ok; [| reflexivity].
    erewrite bind_raise.
    2:{ unfold requests_get, effect. rewrite <- app_assoc. cbn [app]. fold t0.
        rewrite Hget. reflexivity. }
    rewrite download_handlers_classify. now destruct q.
  - destruct (status_passes r) eqn:Hstatus.
    + destruct (usable_length_declared r (Husable r eq_refl Hstatus))
        as (n & Hn & Hover & Hfits).
      erewrite download_attempt_sound;
        [| | exact Hstatus | exact Hn | exact Hover | exact Hfits].
      2:{ rewrite <- app_assoc. exact Hget. }
      cbn [delivers]. rewrite Hstatus.
      destruct (snd (iter_content r chunk_size)) as [q|]; [| reflexivity].
      rewrite download_handlers_classify. now destruct q.
    + unfold download_attempt. erewrite bind_ok; [| reflexivity].
      erewrite bind_ok.
      2:{ unfold requests_get, effect. rewrite <- app_assoc. cbn [app]. fold t0.
          rewrite Hget. reflexivity. }
      erewrite bind_raise.
      2:{ unfold raise_for_status. unfold status_passes in Hstatus.
          apply negb_false_iff in Hstatus. rewrite Hstatus. reflexivity. }
      rewrite download_handlers_classify. cbn [delivers]. now rewrite Hstatus.
Qed.
End Sound_disk.

(** X5. On a sound disk and with a progress bar that does not fail, a body
    that breaks off, in a response with a passing status and a
    [content-length] header that is usable, makes [download_file] return
    false, and the chunks received before the break stay written in the
    destination file, which was opened and closed: a partial file is left
    behind. *)
Theorem download_file_broken_body_leaves_partial_file `{Pathlib} (E : env)
    (url local_path : string) (chunk_size : Z) (show_progress : bool) (t : trace)
    (r : response) (q : request_error) :
  let p := path_of local_path in
  sound_disk E ->
  steady_bar E ->
  get_result E (t ++ [EvMkdir (path_parent p) true true;
                      EvLog DEBUG (MsgStartingDownload url)]) url = inr r ->
  status_passes r = true ->
  usable_length r = true ->
  snd (iter_content r chunk_size) = Some q ->
  exists t',
    download_file E url local_path chunk_size show_progress t = (Ok false, t') /\
    written p t' = written p t ++ concat (fst (iter_content r chunk_size)) /\
    In (EvClose p) t'.
Proof.
  intros p Hdisk Hbar Hget Hstatus Husable Hbreak. pose proof Hdisk as (Hmk & _).
  rewrite (download_file_mkdir_done E _ _ _ _ _ (Hmk _ _)). fold p. unfold try_except.
  destruct (usable_length_declared r Husable) as (n & Hn & Hover & Hfits).
  erewrite (download_attempt_sound E Hdisk Hbar);
    [| | exact Hstatus | exact Hn | exact Hover | exact Hfits].
  2:{ rewrite <- app_assoc. exact Hget. }
  rewrite Hbreak, download_handlers_classify.
  assert (Hc : exists c, classify (exc_of_request q) = Some c) by (destruct q; simpl; eauto).
  destruct Hc as [c ->]. eexists. split; [reflexivity |]. split.
  - rewrite !written_app, written_store_events. simpl. now rewrite !app_nil_r.
  - rewrite !in_app_iff. left. right. right. right. now left.
Qed.

Lemma download_file_broken_body_leaves_partial_file_witness :
  exists t',
    download_file (world (fun _ => inr broken_response))
      "http://x/f1.parquet" "/d/f1.parquet" 8192 true [] = (Ok false, t') /\
    written "/d/f1.parquet" t' = written "/d/f1.parquet" [] ++ concat [three_bytes; three_bytes] /\
    In (EvClose "/d/f1.parquet") t'.
Proof.
  assert (Hdisk : sound_disk (world (fun _ => inr broken_response))).
  { repeat split; intros; reflexivity. }
  exact (download_file_broken_body_leaves_partial_file
           (world (fun _ => inr broken_response)) "http://x/f1.parquet" "/d/f1.parquet"
           8192 true [] broken_response ReqChunkedEncoding
           Hdisk (world_steady_bar _) eq_refl eq_refl eq_refl eq_refl).
Defined.


Lemma world_sound_disk respond : sound_disk (world respond).
Proof. repeat split; intros; reflexivity. Qed.



(** ** The report of a run *)

Lemma dict_set_new {V} k (v : V) (d : dict V) :
  ~ In k (dict_keys d) -> dict_set k v d = d ++ [(k, v)].
Proof.
  induction d as [|[k' v'] d IH]; simpl; [reflexivity |].
  destruct (String.eqb_spec k k') as [-> | Hne]; [tauto |].
  intros Hk. rewrite IH; tauto.
Qed.

Section Report.
Context {pathlib : Pathlib} (E : env) (respond : string -> request_error + response).
Hypothesis Hdisk : sound_disk E.
Hypothesis Hbar : steady_bar E.
Hypothesis Hlen : usable_lengths E.
Hypothesis Hans : answers E respond.

Lemma download_each_report output_dir todo results t :
  urls_are_strings todo = true ->
  NoDup (dict_keys results ++ dict_keys todo) ->
  fst (download_each E output_dir todo results t)
  = Ok (results ++ map (fun kv => (fst kv, fetched respond (snd kv))) todo).
Proof.
  revert results t. induction todo as [|[file_type url] todo IH]; intros results t Hstr Hnd.
  - simpl. now rewrite app_nil_r.
  - simpl in Hstr. apply andb_true_iff in Hstr as [Hurl Hstr].
    destruct url as [ | | |u| | | | |]; try discriminate. cbn [download_each].
    change (py_split_method (VStr u)) with (@ret trace _ u).
    erewrite bind_ok; [| reflexivity].
    erewrite bind_ok; [| reflexivity].
    erewrite bind_ok; [| reflexivity].
    erewrite bind_ok; [| reflexivity].
    match goal with
    | |- context [bind (download_file E u ?lp 8192 true) ?k ?t0] =>
        pose proof (download_file_sound E Hdisk Hbar u lp 8192 true t0
                      (fun r Hget _ => Hlen _ _ _ Hget)) as Hd;
        destruct (download_file E u lp 8192 true t0) as [r t1] eqn:Hrun
    end.
    cbn [fst] in Hd. subst r. rewrite Hans in Hrun.
    erewrite bind_ok; [| exact Hrun].
    assert (Hfresh : ~ In file_type (dict_keys results)).
    { apply NoDup_app in Hnd as (_ & Hnd & _). intros Hin.
      apply (Hnd file_type); [now apply list_elem_of_In | left]. }
    rewrite dict_set_new by exact Hfresh. rewrite IH.
    + cbn [map fst snd fetched]. now rewrite <- app_assoc.
    + exact Hstr.
    + unfold dict_keys in *. rewrite map_app. cbn [map fst] in *.
      now rewrite <- app_assoc.
Qed.
End Report.



(** ** The order of the selection *)

Lemma file_types_cons key url insee_urls :
  file_types ((key, url) :: insee_urls)
  = (if endswith key "_url" then [str_replace key "_url" ""] else [])
    ++ file_types insee_urls.
Proof. unfold file_types. simpl. now destruct (endswith key "_url"). Qed.

Lemma select_in_order files_to_download (insee_urls acc : dict value) :
  NoDup (dict_keys acc ++ file_types insee_urls) ->
  fold_left
    (fun acc '(key, url) =>
       if endswith key "_url" then
         let file_type := str_replace key "_url" "" in
         if wanted files_to_download file_type then dict_set file_type url acc else acc
       else acc)
    insee_urls acc
  = acc ++ map (fun kv => (str_replace (fst kv) "_url" "", snd kv))
             (List.filter (selected_entry files_to_download) insee_urls).
Proof.
  revert acc. induction insee_urls as [|[key url] l IH]; intros acc Hnd.
  - simpl. now rewrite app_nil_r.
  - rewrite file_types_cons in Hnd. cbn [fold_left List.filter].
    unfold selected_entry at 1. cbn [fst snd].
    destruct (endswith key "_url") eqn:Hkey; cbn [andb].
    + fold (wanted files_to_download (str_replace key "_url" "")).
      destruct (wanted files_to_download (str_replace key "_url" "")) eqn:Hw.
      * assert (Hfresh : ~ In (str_replace key "_url" "") (dict_keys acc)).
        { apply NoDup_app in Hnd as (_ & Hnd & _). intros Hin.
          apply (Hnd (str_replace key "_url" "")); [now apply list_elem_of_In |].
          apply list_elem_of_In. left. reflexivity. }
        rewrite dict_set_new by exact Hfresh. rewrite IH.
        -- cbn [map fst snd]. now rewrite <- app_assoc.
        -- unfold dict_keys in *. rewrite map_app. cbn [map fst].
           rewrite <- app_assoc. exact Hnd.
      * apply IH. rewrite app_assoc in Hnd. apply NoDup_app in Hnd as (Hnd & Hdis & Hl).
        apply NoDup_app. split; [now apply NoDup_app in Hnd as (Hnd & _) |].
        split; [| exact Hl]. intros x Hx. apply Hdis.
        apply list_elem_of_In, in_app_iff. left. now apply list_elem_of_In.
    + apply IH. exact Hnd.
Qed.

(** X8. When the keys that end with ["_url"] give different file types, the
    URLs to download are the entries of the document with such a key and a
    file type that is asked for, in the order of the document, each under
    its file type and with its own URL. *)
Theorem urls_to_download_in_document_order (insee_urls : dict value)
    (files_to_download : option (list string)) :
  NoDup (file_types insee_urls) ->
  urls_to_download insee_urls files_to_download
  = map (fun kv => (str_replace (fst kv) "_url" "", snd kv))
      (List.filter (selected_entry files_to_download) insee_urls).
Proof.
  intros Hnd. unfold urls_to_download. now rewrite select_in_order.
Qed.

Lemma urls_to_download_in_document_order_witness :
  urls_to_download
    [("b_url", VStr "http://x/f2.parquet"); ("note", VStr "n"); ("a_url", VStr "http://x/f1.parquet")]
    (Some ["a"; "b"])
  = map (fun kv => (str_replace (fst kv) "_url" "", snd kv))
      (List.filter (selected_entry (Some ["a"; "b"]))
         [("b_url", VStr "http://x/f2.parquet"); ("note", VStr "n");
          ("a_url", VStr "http://x/f1.parquet")]).
Proof.
  apply urls_to_download_in_document_order. vm_compute.
  repeat constructor; rewrite ?list_elem_of_In; simpl; intuition discriminate.
Defined.

(** ** The summary of a run *)

Lemma count_true_false (report : dict bool) :
  (length (List.filter (fun v : bool => v) (dict_values report))
   + length (dict_keys (List.filter (fun kv => negb (snd kv)) report)))%nat
  = length report.
Proof.
  induction report as [|[k [|]] report IH]; simpl in *; lia.
Qed.

(** X9. A run that returns its report has logged the tally last, between two
    rules: the number of entries that are true and the number of all
    entries; and, exactly when some entry is false, a warning with the number
    of false entries and a warning that lists their file types in the order
    of the report. The two numbers add up to the size of the report. *)
Theorem download_insee_files_summary `{Pathlib} (E : env) (config : value)
    (output_dir : option string) (files_to_download : option (list string))
    (t t' : trace) (report : dict bool) :
  download_insee_files E config output_dir files_to_download t = (Ok report, t') ->
  let successful := length (List.filter (fun v : bool => v) (dict_values report)) in
  let failed_files := dict_keys (List.filter (fun kv => negb (snd kv)) report) in
  (successful + length failed_files)%nat = length report /\
  exists before,
    t' = before
         ++ [EvLog INFO MsgRule; EvLog INFO (MsgSummary successful (length report))]
         ++ match failed_files with
            | [] => []
            | _ :: _ =>
                [EvLog WARNING (MsgFailedDownloads (length failed_files));
                 EvLog WARNING (MsgFailedFiles failed_files)]
            end
         ++ [EvLog INFO MsgRule].
Proof.
  intros Hrun successful failed_files. split; [apply count_true_false |].
  unfold download_insee_files in Hrun.
  do 10 (apply bind_ok_inv in Hrun as (? & ? & _ & Hrun)).
  apply bind_ok_inv in Hrun as (results & t2 & _ & Hrun).
  exists t2.
  pose proof (count_true_false results) as Hcount.
  set (s := length (List.filter (fun v : bool => v) (dict_values results))) in *.
  set (ff := dict_keys (List.filter (fun kv => negb (snd kv)) results)) in *.
  unfold bind, log, effect, ret in Hrun.
  destruct (0 <? length results - s)%nat eqn:Hfailed;
    inversion Hrun; subst report t'; clear Hrun;
    subst successful failed_files; fold s ff.
  - apply Nat.ltb_lt in Hfailed.
    destruct ff as [|k ks] eqn:Hff; [simpl in Hcount; lia |].
    rewrite <- !app_assoc. cbn [app].
    replace (length results - s)%nat with (length (k :: ks)) by lia. reflexivity.
  - apply Nat.ltb_ge in Hfailed.
    destruct ff as [|k ks] eqn:Hff; [| simpl in Hcount; lia].
    rewrite <- !app_assoc. reflexivity.
Qed.

Lemma download_insee_files_summary_witness :
  let report := [("a", true); ("b", false)] in
  let t' := snd (download_insee_files (world mixed_answers) sample_config None None []) in
  (1 + 1)%nat = length report /\
  exists before,
    t' = before
         ++ [EvLog INFO MsgRule; EvLog INFO (MsgSummary 1 2)]
         ++ [EvLog WARNING (MsgFailedDownloads 1); EvLog WARNING (MsgFailedFiles ["b"])]
         ++ [EvLog INFO MsgRule].
Proof.
  assert (Hrun : download_insee_files (world mixed_answers) sample_config None None []
                 = (Ok [("a", true); ("b", false)],
                    snd (download_insee_files (world mixed_answers) sample_config
                           None None []))).
  { vm_compute. reflexivity. }
  exact (download_insee_files_summary (world mixed_answers) sample_config None None [] _ _
           Hrun).
Defined.

(** ** A URL that is no string *)

Section Bad_url.
Context {pathlib : Pathlib} (E : env).
Hypothesis Hdisk : quiet_disk E.
Hypothesis Hlen : usable_lengths E.
Hypothesis Hbar : steady_bar E.
Hypothesis Hpaths : paths_accepted E.

Lemma download_each_stops_at_bad_url output_dir good file_type v rest results t :
  urls_are_strings good = true ->
  is_str v = false ->
  exists new,
    download_each E output_dir (good ++ (file_type, v) :: rest) results t
    = (Raise (split_fault v), t ++ new) /\
    map VStr (requested new) = dict_values good /\
    announced new = dict_keys good.
Proof.
  intros Hgood Hv. revert results t.
  induction good as [|[k url] good IH]; intros results t.
  - exists []. rewrite app_nil_r. simpl. destruct v; try discriminate; now repeat split.
  - simpl in Hgood. apply andb_true_iff in Hgood as [Hurl Hgood].
    destruct url as [ | | |u| | | | |]; try discriminate.
    cbn [app download_each].
    change (py_split_method (VStr u)) with (@ret trace _ u).
    erewrite bind_ok; [| reflexivity].
    erewrite bind_ok; [| reflexivity].
    erewrite bind_ok; [| reflexivity].
    erewrite bind_ok; [| reflexivity].
    match goal with
    | |- context [bind (download_file E u ?lp 8192 true) ?k ?t0] =>
        destruct (download_file E u lp 8192 true t0) as [r t1] eqn:Hrun
    end.
    pose proof Hrun as Hpost.
    apply download_file_post in Hpost as [(o & Hmk & _) | (_ & new & Ht1 & Hs & Hr)].
    { now rewrite Hdisk in Hmk. }
    destruct r as [b|e].
    2:{ now apply no_escape in Hr. }
    erewrite bind_ok; [| exact Hrun].
    destruct (IH Hgood (dict_set k b results) t1) as (new' & Heq & Hreq & Hann).
    rewrite Heq, Ht1. eexists. rewrite <- !app_assoc. cbn [app].
    split; [reflexivity |].
    change (?a :: ?b :: ?c :: ?d :: ?e :: EvGet u true 30 :: new ++ new')
      with ([a; b; c; d; e] ++ [EvGet u true 30] ++ new ++ new').
    split.
    + rewrite !requested_app, !map_app, (requested_silent _ Hs), Hreq. reflexivity.
    + rewrite !announced_app, (announced_silent _ Hs), Hann. reflexivity.
Qed.
End Bad_url.



(** ** The accessors without a configuration *)

Section Default_document.
Context {pathlib : Pathlib} (E : env).

Lemma config_or_default_missing t :
  exists_result E t (path_of default_config_path) = inr false ->
  config_or_default E VNone t
  = (Raise FileNotFoundError, t ++ [EvExists (path_of default_config_path)]).
Proof. intros Hex. unfold config_or_default, load_config, bind, effect. now rewrite Hex. Qed.

Lemma config_or_default_loaded t document :
  exists_result E t (path_of default_config_path) = inr true ->
  load_result E (t ++ [EvExists (path_of default_config_path)])
    (path_of default_config_path) = inr document ->
  config_or_default E VNone t
  = (Ok document,
     t ++ [EvExists (path_of default_config_path);
           EvLoadYaml (path_of default_config_path)]).
Proof.
  intros Hex Hload. unfold config_or_default, load_config, bind, effect.
  rewrite Hex. cbn [negb]. rewrite Hload. now rewrite <- app_assoc.
Qed.
End Default_document.

(** X11. Called without a configuration, each accessor looks for
    [configs/config.yaml] and loads it, once. A missing document raises
    [FileNotFoundError] before anything is read. A document that is a
    mapping is looked up as a supplied one is. A document that is no
    mapping, the [None] of an empty file for one, makes the accessor raise
    [AttributeError]: it is not loaded a second time. *)
Theorem accessors_load_default_document `{Pathlib} (E : env) (t : trace) :
  let p := path_of default_config_path in
  let loaded := t ++ [EvExists p; EvLoadYaml p] in
  (exists_result E t p = inr false ->
   get_insee_urls E VNone t = (Raise FileNotFoundError, t ++ [EvExists p]) /\
   get_insee_metadata E VNone t = (Raise FileNotFoundError, t ++ [EvExists p]) /\
   get_data_paths E VNone t = (Raise FileNotFoundError, t ++ [EvExists p])) /\
  (forall document,
     exists_result E t p = inr true ->
     load_result E (t ++ [EvExists p]) p = inr document ->
     if is_mapping document
     then get_insee_urls E VNone t = get_insee_urls E document loaded /\
          get_insee_metadata E VNone t = get_insee_metadata E document loaded /\
          get_data_paths E VNone t = get_data_paths E document loaded
     else get_insee_urls E VNone t = (Raise AttributeError, loaded) /\
          get_insee_metadata E VNone t = (Raise AttributeError, loaded) /\
          get_data_paths E VNone t = (Raise AttributeError, loaded)).
Proof.
  intros p loaded. split.
  - intros Hex. pose proof (config_or_default_missing E t Hex) as Hc.
    unfold get_insee_urls, get_insee_metadata, get_data_paths.
    now rewrite !(bind_raise _ _ _ _ _ Hc).
  - intros document Hex Hload.
    pose proof (config_or_default_loaded E t document Hex Hload) as Hc.
    unfold get_insee_urls, get_insee_metadata, get_data_paths.
    rewrite !(bind_ok _ _ _ _ _ Hc). fold p loaded.
    destruct document; cbn [is_mapping]; repeat split; reflexivity.
Qed.

Lemma accessors_load_default_document_witness :
  get_data_paths without_config_file VNone []
  = (Raise FileNotFoundError, [EvExists "configs/config.yaml"]) /\
  get_data_paths (with_document sample_config) VNone []
  = (Ok (VDict [("bronze", VStr "/data/bronze")]),
     [EvExists "configs/config.yaml"; EvLoadYaml "configs/config.yaml"]) /\
  get_insee_urls (with_document VNone) VNone []
  = (Raise AttributeError,
     [EvExists "configs/config.yaml"; EvLoadYaml "configs/config.yaml"]).
Proof.
  split; [| split].
  - exact (proj2 (proj2 (proj1 (accessors_load_default_document without_config_file [])
                           eq_refl))).
  - exact (proj2 (proj2 (proj2 (accessors_load_default_document
                                  (with_document sample_config) [])
                           sample_config eq_refl eq_refl))).
  - exact (proj1 (proj2 (accessors_load_default_document (with_document VNone) [])
                    VNone eq_refl eq_refl)).
Defined.

(** X12. A run without a configuration reads the default document twice,
    once for the URLs and once more for the paths. When the document is gone
    by the second time the run raises [FileNotFoundError] after the first
    reading; when it is read the same both times the run goes on as a run
    that was given the document. *)
Theorem download_insee_files_loads_document_twice `{Pathlib} (E : env)
    (output_dir : option string) (files_to_download : option (list string)) (t : trace)
    (document : value) (insee_urls : dict value) :
  let p := path_of default_config_path in
  let once := t ++ [EvExists p; EvLoadYaml p] in
  exists_result E t p = inr true ->
  load_result E (t ++ [EvExists p]) p = inr document ->
  download_urls_of document = Some insee_urls ->
  (exists_result E once p = inr false ->
   download_insee_files E VNone output_dir files_to_download t
   = (Raise FileNotFoundError, once ++ [EvExists p])) /\
  (exists_result E once p = inr true ->
   load_result E (once ++ [EvExists p]) p = inr document ->
   download_insee_files E VNone output_dir files_to_download t
   = download_insee_files E document output_dir files_to_download
       (once ++ [EvExists p; EvLoadYaml p])).
Proof.
  intros p once Hex Hload Hurls.
  pose proof (config_or_default_loaded E t document Hex Hload) as Hc. fold p once in Hc.
  assert (Hfirst : get_insee_urls E VNone t = (Ok (VDict insee_urls), once)).
  { unfold get_insee_urls. rewrite (bind_ok _ _ _ _ _ Hc).
    pose proof (get_insee_urls_resolved E document insee_urls once Hurls) as Hg.
    unfold get_insee_urls in Hg. destruct document; try discriminate. exact Hg. }
  split.
  - intros Hex2. unfold download_insee_files. rewrite (bind_ok _ _ _ _ _ Hfirst).
    apply bind_raise. unfold get_data_paths. apply bind_raise.
    apply config_or_default_missing. exact Hex2.
  - intros Hex2 Hload2.
    pose proof (config_or_default_loaded E once document Hex2 Hload2) as Hc2.
    fold p in Hc2.
    unfold download_insee_files at 1. rewrite (bind_ok _ _ _ _ _ Hfirst).
    assert (Hsecond : forall t0, get_data_paths E document t0
                                 = (fst (get_data_paths E document t0), t0)).
    { intros t0. destruct document; try discriminate. reflexivity. }
    assert (Hpaths : get_data_paths E VNone once
                     = (fst (get_data_paths E document (once ++ [EvExists p; EvLoadYaml p])),
                        once ++ [EvExists p; EvLoadYaml p])).
    { unfold get_data_paths at 1. rewrite (bind_ok _ _ _ _ _ Hc2).
      destruct document; try discriminate. reflexivity. }
    unfold download_insee_files.
    rewrite (bind_ok _ _ _ _ _
               (get_insee_urls_resolved E document insee_urls _ Hurls)).
    destruct document as [ | | | | |d| | |]; try discriminate.
    unfold bind at 1. rewrite Hpaths. cbn [fst].
    unfold bind at 2. rewrite get_data_paths_dict. reflexivity.
Qed.

Lemma download_insee_files_loads_document_twice_witness :
  download_insee_files vanishing_document VNone None None []
  = (Raise FileNotFoundError,
     [EvExists "configs/config.yaml"; EvLoadYaml "configs/config.yaml";
      EvExists "configs/config.yaml"]) /\
  download_insee_files (with_document sample_config) VNone None None []
  = download_insee_files (with_document sample_config) sample_config None None
      [EvExists "configs/config.yaml"; EvLoadYaml "configs/config.yaml";
       EvExists "configs/config.yaml"; EvLoadYaml "configs/config.yaml"].
Proof.
  split.
  - exact (proj1 (download_insee_files_loads_document_twice vanishing_document None None []
                    sample_config _ eq_refl eq_refl eq_refl) eq_refl).
  - exact (proj2 (download_insee_files_loads_document_twice (with_document sample_config)
                    None None [] sample_config _ eq_refl eq_refl eq_refl)
             eq_refl eq_refl).
Defined.

(** ** More on setup_logger *)

Section Logger_more.
Context {pathlib : Pathlib}.

(** What a log call writes depends on the settings of the loggers of its
    chain only. *)
Lemma chain_handlers_ext (reg reg' : gmap string logger) chain :
  (forall k, In k chain -> same_settings (find_logger reg k) (find_logger reg' k)) ->
  chain_handlers reg' chain = chain_handlers reg chain.
Proof.
  induction chain as [|k chain IH]; intros Hsame; [reflexivity |].
  cbn [chain_handlers]. destruct (Hsame k) as (_ & -> & ->); [now left |].
  rewrite IH; [reflexivity |]. intros k' Hk'. apply Hsame. now right.
Qed.

Lemma chain_levels_ext (reg reg' : gmap string logger) chain :
  (forall k, In k chain -> same_settings (find_logger reg k) (find_logger reg' k)) ->
  map (fun k => l_level (find_logger reg' k)) chain
  = map (fun k => l_level (find_logger reg k)) chain.
Proof.
  intros Hsame. apply map_ext_in. intros k Hk. now destruct (Hsame k Hk) as (-> & _).
Qed.

Lemma log_lines_ext (reg reg' : gmap string logger) key lvl :
  ancestors reg' key = ancestors reg key ->
  (forall k, In k (key :: ancestors reg key) ->
             same_settings (find_logger reg k) (find_logger reg' k)) ->
  log_lines reg' key lvl = log_lines reg key lvl.
Proof.
  intros Hanc Hsame. unfold log_lines, effective_level. rewrite Hanc.
  now rewrite (chain_handlers_ext reg reg' _ Hsame), (chain_levels_ext reg reg' _ Hsame).
Qed.

Lemma chain_handlers_propagating (reg : gmap string logger) chain :
  (forall k, In k chain -> l_propagate (find_logger reg k) = true) ->
  chain_handlers reg chain = flat_map (handlers_at reg) chain.
Proof.
  induction chain as [|k chain IH]; intros Hp; [reflexivity |].
  cbn [chain_handlers flat_map]. rewrite (Hp k) by now left.
  rewrite IH; [reflexivity |]. intros k' Hk'. apply Hp. now right.
Qed.

(** A logger without level and without handlers that passes its records on
    can be left out of a chain. *)
Lemma chain_handlers_without (reg : gmap string logger) key chain :
  transparent (find_logger reg key) ->
  chain_handlers reg (without key chain) = chain_handlers reg chain.
Proof.
  intros (_ & Hh & Hp). induction chain as [|k chain IH]; [reflexivity |].
  unfold without in *. cbn [List.filter chain_handlers].
  destruct (String.eqb_spec k key) as [-> | Hk]; cbn [negb].
  - now rewrite Hh, Hp, IH.
  - cbn [chain_handlers]. now rewrite IH.
Qed.

Lemma chain_levels_without (reg : gmap string logger) key chain :
  transparent (find_logger reg key) ->
  List.filter (fun lv => negb (lv =? 0))
    (map (fun k => l_level (find_logger reg k)) (without key chain))
  = List.filter (fun lv => negb (lv =? 0))
      (map (fun k => l_level (find_logger reg k)) chain).
Proof.
  intros (Hl & _). induction chain as [|k chain IH]; [reflexivity |].
  unfold without in *. cbn [List.filter map].
  destruct (String.eqb_spec k key) as [-> | Hk]; cbn [negb].
  - now rewrite Hl, IH.
  - cbn [map List.filter]. now rewrite IH.
Qed.

Lemma log_lines_without (reg reg' : gmap string logger) key k lvl :
  (forall c, same_settings (find_logger reg c) (find_logger reg' c)) ->
  transparent (find_logger reg key) ->
  without key (ancestors reg' k) = without key (ancestors reg k) ->
  log_lines reg' k lvl = log_lines reg k lvl.
Proof.
  intros Hsame Htr Hanc.
  assert (Htr' : transparent (find_logger reg' key)).
  { destruct Htr as (Hl & Hh & Hp). destruct (Hsame key) as (Hl' & Hh' & Hp').
    unfold transparent. now rewrite Hl', Hh', Hp'. }
  assert (Hchain : without key (k :: ancestors reg' k) = without key (k :: ancestors reg k)).
  { unfold without in *. cbn [List.filter]. now rewrite Hanc. }
  unfold log_lines, effective_level.
  rewrite <- (chain_handlers_without reg' key _ Htr'),
    <- (chain_levels_without reg' key _ Htr'), Hchain.
  rewrite (chain_handlers_ext reg reg') by (intros c _; apply Hsame).
  rewrite (chain_levels_ext reg reg') by (intros c _; apply Hsame).
  now rewrite (chain_handlers_without reg key _ Htr), (chain_levels_without reg key _ Htr).
Qed.

(** The chain of a logger is the chain it had when the one logger that can
    have come in is not on it. *)
Lemma lineage_frame (reg reg' : gmap string logger) key fuel k :
  (forall c, c <> key ->
             l_parent (find_logger reg' c) = l_parent (find_logger reg c) \/
             l_parent (find_logger reg' c) = Some key) ->
  ~ In key (k :: lineage fuel reg' k) ->
  lineage fuel reg' k = lineage fuel reg k.
Proof.
  intros Hpar. revert k. induction fuel as [|fuel IH]; intros k Hout; [reflexivity |].
  assert (Hk : k <> key) by (intros ->; apply Hout; now left).
  cbn [lineage] in *. destruct (Hpar k Hk) as [Hsame | Hnew].
  - rewrite Hsame in *. destruct (l_parent (find_logger reg k)) as [p|]; [| reflexivity].
    f_equal. apply IH. intros Hin. apply Hout. right. exact Hin.
  - rewrite Hnew in Hout. exfalso. apply Hout. right. now left.
Qed.

Lemma effective_level_own (reg : gmap string logger) key :
  level_at reg key <> 0 -> effective_level reg key = level_at reg key.
Proof.
  intros Hl. unfold effective_level, level_at in *. cbn [map List.filter].
  destruct (l_level (find_logger reg key) =? 0) eqn:Hz; [| reflexivity].
  apply Z.eqb_eq in Hz. contradiction.
Qed.

Lemma attached_console o file :
  exists rest, attached o true file = console_handler o :: rest.
Proof. destruct file; eexists; reflexivity. Qed.
End Logger_more.



(** X14. A first call of [setup_logger] that asks for the console and for a
    log file, and whose log directory cannot be made or whose log file cannot
    be opened, raises the error, an [OSError] when the file system refuses,
    with the console handler already attached. Every later call for the name
    then finds a handler and returns at once: the logger never gets its log
    file. *)
Theorem setup_logger_failure_leaves_console_only `{Pathlib} (io : setup_io) (name : string)
    (o : options) (reg : gmap string logger) (dir : string) (e : path_error) :
  let key := logger_key name in
  let first := setup_logger io name o reg in
  handlers_at reg key = [] ->
  console_output o = true ->
  file_output o = true ->
  log_dir o = Some dir ->
  nonempty_str dir = true ->
  io_mkdir io = Some e \/ (io_mkdir io = None /\ io_open io = Some e) ->
  fst first = Raise (exc_of_path e) /\
  handlers_at (snd first) key = [console_handler o] /\
  forall io2 o2,
    fst (setup_logger io2 name o2 (snd first)) = Ok key /\
    handlers_at (snd (setup_logger io2 name o2 (snd first))) key = [console_handler o].
Proof.
  intros key first H0 Hc Hf Hd Hn Hio.
  assert (Hfirst : fst first = Raise (exc_of_path e) /\
                   handlers_at (snd first) key = [console_handler o]).
  { subst first. unfold handlers_at in *.
    destruct (getLogger_settings name reg key) as (_ & Hh & _). fold key in Hh.
    rewrite <- Hh in H0.
    unfold setup_logger. rewrite (bind_ok _ _ _ _ _ (getLogger_eq name reg)). fold key.
    unfold bind, setLevel, handlers_of.
    cbn [fst snd]. rewrite ?find_logger_insert. cbn [l_handlers]. rewrite H0, Hc, Hf, Hd, Hn.
    destruct Hio as [Hm | [Hm Ho]]; rewrite Hm; try rewrite Ho;
      unfold addHandler, answered, ret, path_outcome; cbn [fst snd];
      rewrite ?find_logger_insert; cbn [l_handlers app]; rewrite ?H0;
      split; reflexivity. }
  destruct Hfirst as [Hr Hh]. split; [exact Hr |]. split; [exact Hh |].
  intros io2 o2.
  pose proof (setup_logger_handlers io2 name o2 (snd first)) as Hb. cbv zeta in Hb.
  fold key in Hb. rewrite Hh in Hb. exact Hb.
Qed.

Lemma setup_logger_failure_leaves_console_only_witness :
  let name := "ingestion.download_data" in
  let first := setup_logger no_log_dir name default_options ∅ in
  fst first = Raise PermissionError /\
  handlers_at (snd first) name = [console_handler default_options] /\
  forall io2 o2,
    fst (setup_logger io2 name o2 (snd first)) = Ok name /\
    handlers_at (snd (setup_logger io2 name o2 (snd first))) name
    = [console_handler default_options].
Proof.
  intros name first.
  assert (H0 : handlers_at ∅ (logger_key name) = []) by reflexivity.
  exact (setup_logger_failure_leaves_console_only no_log_dir name default_options ∅
           "logs" (PathOs OsPermission) H0 eq_refl eq_refl eq_refl eq_refl
           (or_introl eq_refl)).
Defined.

(** X15. With file output switched off, or with no log directory, [None] or
    the empty string, a call of [setup_logger] on a logger without handlers
    never fails, whatever the disk would answer: it attaches the console
    handler when that one is asked for and nothing else. *)
Theorem setup_logger_without_log_file `{Pathlib} (io : setup_io) (name : string)
    (o : options) (reg : gmap string logger) :
  let key := logger_key name in
  handlers_at reg key = [] ->
  file_output o = false \/ log_dir o = None \/ log_dir o = Some "" ->
  fst (setup_logger io name o reg) = Ok key /\
  handlers_at (snd (setup_logger io name o reg)) key
  = if console_output o then [console_handler o] else [].
Proof.
  intros key H0 Hoff. unfold handlers_at in *.
  destruct (getLogger_settings name reg key) as (_ & Hh & _). fold key in Hh.
  rewrite <- Hh in H0.
  unfold setup_logger. rewrite (bind_ok _ _ _ _ _ (getLogger_eq name reg)). fold key.
  unfold bind, setLevel, handlers_of.
  cbn [fst snd]. rewrite ?find_logger_insert. cbn [l_handlers]. rewrite H0.
  destruct Hoff as [Hf | [Hd | Hd]]; rewrite ?Hf, ?Hd;
    destruct (console_output o), (file_output o);
    unfold addHandler, answered, ret, path_outcome, nonempty_str;
    cbn [String.eqb negb fst snd];
    rewrite ?find_logger_insert; cbn [l_handlers app]; rewrite ?H0;
    split; reflexivity.
Qed.

Lemma setup_logger_without_log_file_witness :
  let name := "ingestion.download_data" in
  let o := {| log_dir := Some ""; log_file := None; level := INFO;
              console_output := true; file_output := true |} in
  fst (setup_logger no_log_dir name o ∅) = Ok name /\
  handlers_at (snd (setup_logger no_log_dir name o ∅)) name = [console_handler o].
Proof.
  intros name o.
  assert (H0 : handlers_at ∅ (logger_key name) = []) by reflexivity.
  exact (setup_logger_without_log_file no_log_dir name o ∅ H0
           (or_intror (or_intror eq_refl))).
Defined.

(** X16. [get_logger] returns the logger of the name and configures
    nothing: every logger has the level, the handlers and the propagation it
    had. When the logger is there already, nothing changes at all. A logger
    that is created has no level and no handler and passes its records on:
    the log calls on a logger whose chain is, but for the new logger, the
    chain it had write what they would have written before. *)
Theorem get_logger_configures_nothing `{Pathlib} (name : string)
    (reg : gmap string logger) :
  let key := logger_key name in
  let reg' := snd (get_logger name reg) in
  fst (get_logger name reg) = Ok key /\
  (forall k, level_at reg' k = level_at reg k /\
             handlers_at reg' k = handlers_at reg k /\
             l_propagate (find_logger reg' k) = l_propagate (find_logger reg k)) /\
  (key = "root" \/ is_Some (reg !! key) -> reg' = reg) /\
  (key <> "root" -> reg !! key = None ->
   transparent (find_logger reg' key) /\
   forall k lvl,
     without key (ancestors reg' k) = without key (ancestors reg k) ->
     log_lines reg' k lvl = log_lines reg k lvl).
Proof.
  intros key reg'. unfold get_logger in *.
  split; [now rewrite getLogger_eq |]. split; [| split].
  - intros k. apply getLogger_settings.
  - apply getLogger_existing.
  - intros Hroot Hnone.
    assert (Htr : transparent (find_logger reg key)).
    { unfold find_logger. rewrite Hnone. unfold fresh_logger, transparent.
      destruct (String.eqb_spec key "root"); [contradiction | auto]. }
    split.
    + destruct Htr as (Hl & Hh & Hp).
      destruct (getLogger_settings name reg key) as (Hl' & Hh' & Hp').
      unfold transparent. fold key reg' in Hl', Hh', Hp'. now rewrite Hl', Hh', Hp'.
    + intros k lvl Hanc. apply (log_lines_without reg reg' key); trivial.
      intros c. apply getLogger_settings.
Qed.

Lemma get_logger_configures_nothing_witness :
  let reg := snd (setup_logger fair_weather "ingestion.download_data" default_options ∅) in
  let reg' := snd (get_logger "ingestion" reg) in
  fst (get_logger "ingestion" reg) = Ok "ingestion" /\
  ancestors reg "ingestion.download_data" = ["root"] /\
  ancestors reg' "ingestion.download_data" = ["ingestion"; "root"] /\
  transparent (find_logger reg' "ingestion") /\
  forall lvl,
    log_lines reg' "ingestion.download_data" lvl = log_lines reg "ingestion.download_data" lvl.
Proof.
  intros reg reg'.
  destruct (get_logger_configures_nothing "ingestion" reg) as (Hfst & _ & _ & Hnew).
  assert (Hroot : logger_key "ingestion" <> "root") by (vm_compute; discriminate).
  assert (Hnone : reg !! logger_key "ingestion" = None) by (vm_compute; reflexivity).
  destruct (Hnew Hroot Hnone) as (Htr & Hlines).
  split; [exact Hfst |]. split; [vm_compute; reflexivity |].
  split; [vm_compute; reflexivity |]. split; [exact Htr |].
  intros lvl. apply Hlines. vm_compute. reflexivity.
Defined.

(** X17. A call of [setup_logger] leaves every logger but the one it names
    its level, its handlers and its propagation; the log calls on a logger
    that, after the call, is neither this one nor below it in the hierarchy
    write what they wrote before. *)
Theorem setup_logger_touches_one_logger `{Pathlib} (io : setup_io) (name : string)
    (o : options) (reg : gmap string logger) (k : string) :
  let reg' := snd (setup_logger io name o reg) in
  (k <> logger_key name ->
   level_at reg' k = level_at reg k /\
   handlers_at reg' k = handlers_at reg k /\
   l_propagate (find_logger reg' k) = l_propagate (find_logger reg k)) /\
  (~ In (logger_key name) (k :: ancestors reg' k) ->
   ancestors reg' k = ancestors reg k /\
   forall lvl, log_lines reg' k lvl = log_lines reg k lvl).
Proof.
  intros reg'. split.
  - intros Hk. now apply setup_logger_settings_other.
  - intros Hout.
    assert (Hanc : ancestors reg' k = ancestors reg k).
    { apply (lineage_frame reg reg' (logger_key name)); [| exact Hout].
      intros c Hc. now apply setup_logger_parent_other. }
    split; [exact Hanc |].
    intros lvl. apply log_lines_ext; [exact Hanc |]. intros k' Hk'.
    apply setup_logger_settings_other. intros ->. apply Hout.
    rewrite Hanc. exact Hk'.
Qed.

Lemma setup_logger_touches_one_logger_witness :
  let reg := snd (setup_logger fair_weather "utils.config" default_options ∅) in
  let reg' := snd (setup_logger fair_weather "ingestion.download_data" debug_options reg) in
  (level_at reg' "utils.config" = level_at reg "utils.config" /\
   handlers_at reg' "utils.config" = handlers_at reg "utils.config" /\
   l_propagate (find_logger reg' "utils.config")
   = l_propagate (find_logger reg "utils.config")) /\
  ancestors reg' "utils.config" = ancestors reg "utils.config" /\
  forall lvl, log_lines reg' "utils.config" lvl = log_lines reg "utils.config" lvl.
Proof.
  intros reg reg'.
  pose proof (setup_logger_touches_one_logger fair_weather "ingestion.download_data"
                debug_options reg "utils.config") as [Hmap Hlines].
  split.
  - apply Hmap. vm_compute. discriminate.
  - apply Hlines. vm_compute. intros [Hk | [Hk | []]]; discriminate.
Defined.

(** X18. The handlers are attached once per logger, not once per line: when
    a logger and one that is above it in the hierarchy once both are set up
    have each been given console output, a record logged on the lower one
    that passes both levels is written to the console twice. *)
Theorem setup_logger_parent_and_child_write_twice `{Pathlib} (io1 io2 : setup_io)
    (parent child : string) (o1 o2 : options) (reg : gmap string logger) :
  let pk := logger_key parent in
  let ck := logger_key child in
  let reg1 := snd (setup_logger io1 parent o1 reg) in
  let reg2 := snd (setup_logger io2 child o2 reg1) in
  In pk (ancestors reg2 ck) ->
  pk <> ck ->
  (forall k, l_propagate (find_logger reg k) = true) ->
  handlers_at reg pk = [] ->
  handlers_at reg ck = [] ->
  console_output o1 = true ->
  console_output o2 = true ->
  forall lvl,
    0 < lvl -> level o1 <= lvl -> level o2 <= lvl -> level o2 <> 0 ->
    exists between after,
      log_lines reg2 ck lvl = Console :: between ++ Console :: after.
Proof.
  intros pk ck reg1 reg2 Hin Hne Hprop Hp0 Hc0 Hcon1 Hcon2 lvl Hpos Hl1 Hl2 Hnz.
  destruct (setup_logger_console io1 parent o1 reg Hp0) as (f1 & Hp1).
  fold pk reg1 in Hp1. rewrite Hcon1 in Hp1.
  assert (Hc1 : handlers_at reg1 ck = []).
  { destruct (setup_logger_settings_other io1 parent o1 reg ck) as (_ & Hh & _);
      [fold pk; congruence |].
    unfold handlers_at, reg1. now rewrite Hh. }
  destruct (setup_logger_console io2 child o2 reg1 Hc1) as (f2 & Hc2).
  fold ck reg2 in Hc2. rewrite Hcon2 in Hc2.
  assert (Hp2 : handlers_at reg2 pk = attached o1 true f1).
  { destruct (setup_logger_settings_other io2 child o2 reg1 pk) as (_ & Hh & _);
      [fold ck; congruence |].
    unfold handlers_at, reg2. now rewrite Hh. }
  assert (Hprop2 : forall k, l_propagate (find_logger reg2 k) = true).
  { intros k. unfold reg2, reg1. now rewrite !setup_logger_propagate. }
  assert (Hlevel : level_at reg2 ck = level o2) by apply setup_logger_level.
  unfold log_lines. rewrite effective_level_own by (rewrite Hlevel; exact Hnz).
  rewrite Hlevel. apply Z.leb_le in Hl1, Hl2. apply Z.ltb_lt in Hpos.
  rewrite Hpos, Hl2. cbn [andb].
  rewrite chain_handlers_propagating by (intros k _; apply Hprop2).
  apply in_split in Hin as (a & b & Hanc). rewrite Hanc.
  cbn [flat_map]. rewrite flat_map_app. cbn [flat_map]. rewrite Hc2, Hp2.
  destruct (attached_console o2 f2) as (r2 & ->).
  destruct (attached_console o1 f1) as (r1 & ->).
  cbn [app List.filter console_handler h_level]. rewrite Hl2. cbn [map h_sink].
  rewrite !List.filter_app, !map_app. cbn [List.filter].
  change (h_level (console_handler o1)) with (level o1). rewrite Hl1.
  cbn [map]. change (h_sink (console_handler o1)) with Console.
  change (h_sink (console_handler o2)) with Console.
  rewrite app_assoc. eauto.
Qed.

Lemma setup_logger_parent_and_child_write_twice_witness :
  let reg1 := snd (setup_logger fair_weather "ingestion" default_options ∅) in
  let reg2 := snd (setup_logger fair_weather "ingestion.download_data" default_options
                     reg1) in
  ancestors reg2 "ingestion.download_data" = ["ingestion"; "root"] /\
  exists between after,
    log_lines reg2 "ingestion.download_data" INFO = Console :: between ++ Console :: after.
Proof.
  intros reg1 reg2.
  assert (Hin : In (logger_key "ingestion") (ancestors reg2 (logger_key "ingestion.download_data")))
    by (vm_compute; auto).
  assert (Hne : logger_key "ingestion" <> logger_key "ingestion.download_data")
    by (vm_compute; discriminate).
  assert (Hprop : forall k, l_propagate (find_logger (∅ : gmap string logger) k) = true).
  { intros k. unfold find_logger. now rewrite lookup_empty. }
  assert (Hp0 : handlers_at ∅ (logger_key "ingestion") = []) by reflexivity.
  assert (Hc0 : handlers_at ∅ (logger_key "ingestion.download_data") = []) by reflexivity.
  split; [vm_compute; reflexivity |].
  apply (setup_logger_parent_and_child_write_twice fair_weather fair_weather
           "ingestion" "ingestion.download_data" default_options default_options ∅
           Hin Hne Hprop Hp0 Hc0 eq_refl eq_refl INFO);
    [reflexivity | vm_compute; discriminate | vm_compute; discriminate
     | vm_compute; discriminate].
Defined.

(** ** The destination file of a download *)

Section Emits.
Context {A : Type} (ok : event -> bool).

Lemma emits_ret (a : A) : emits ok (ret a).
Proof. intros t. exists []. simpl. now rewrite app_nil_r. Qed.

Lemma emits_raise e : emits ok (@raise trace A e).
Proof. intros t. exists []. simpl. now rewrite app_nil_r. Qed.

Lemma emits_effect ev (answer : trace -> outcome A) :
  ok ev = true -> emits ok (effect ev answer).
Proof. intros Hev t. exists [ev]. unfold effect. simpl. now rewrite Hev. Qed.

Lemma emits_bind {B} (m : M trace B) (k : B -> M trace A) :
  emits ok m -> (forall b, emits ok (k b)) -> emits ok (bind m k).
Proof.
  intros Hm Hk t. destruct (Hm t) as (n1 & H1 & S1). unfold bind.
  destruct (m t) as [[b|e] t1]; simpl in *; subst.
  - destruct (Hk b (t ++ n1)) as (n2 & H2 & S2). exists (n1 ++ n2).
    rewrite H2, app_assoc, forallb_app, S1, S2. now split.
  - now exists n1.
Qed.

Lemma emits_finally (m : M trace A) (release : M trace unit) :
  emits ok m -> emits ok release -> emits ok (finally m release).
Proof.
  intros Hm Hr t. destruct (Hm t) as (n1 & H1 & S1). unfold finally.
  destruct (m t) as [r t1]; simpl in *; subst.
  destruct (Hr (t ++ n1)) as (n2 & H2 & S2).
  destruct (release (t ++ n1)) as [[[]|e] t2]; simpl in *; subst;
    exists (n1 ++ n2); rewrite app_assoc, forallb_app, S1, S2; now split.
Qed.

Lemma emits_try_except (m : M trace A) (h : exc_class -> M trace A) :
  emits ok m -> (forall e, emits ok (h e)) -> emits ok (try_except m h).
Proof.
  intros Hm Hh t. destruct (Hm t) as (n1 & H1 & S1). unfold try_except.
  destruct (m t) as [[a|e] t1]; simpl in *; subst.
  - now exists n1.
  - destruct (Hh e (t ++ n1)) as (n2 & H2 & S2). exists (n1 ++ n2).
    rewrite H2, app_assoc, forallb_app, S1, S2. now split.
Qed.
End Emits.

Lemma emits_for_each {B} ok (l : list B) (body : B -> M trace unit) :
  (forall x, emits ok (body x)) -> emits ok (for_each l body).
Proof.
  intros Hb. induction l as [|x l IH]; simpl.
  - apply emits_ret.
  - apply emits_bind; auto.
Qed.

Lemma file_events_app t1 t2 : file_events (t1 ++ t2) = file_events t1 ++ file_events t2.
Proof. apply List.filter_app. Qed.

Lemma file_events_off new : forallb off_file new = true -> file_events new = [].
Proof.
  induction new as [|ev new IH]; [reflexivity |]. simpl.
  intros [Hev Hnew]%andb_true_iff. unfold off_file in Hev.
  destruct (on_file ev); [discriminate | now apply IH].
Qed.

Lemma file_events_body p new :
  forallb (write_or_bar p) new = true ->
  exists chunks, file_events new = map (EvWrite p) chunks.
Proof.
  induction new as [|ev new IH]; [now exists [] |]. simpl.
  intros [Hev Hnew]%andb_true_iff. destruct (IH Hnew) as (chunks & Hc).
  destruct ev; try discriminate; simpl; eauto.
  apply String.eqb_eq in Hev as <-. exists (data :: chunks). simpl. now rewrite Hc.
Qed.

Section File_discipline.
Context {pathlib : Pathlib} (E : env).

Lemma emits_write_body (r : response) chunk_size p progress :
  emits (write_or_bar p) (write_body E r chunk_size p progress).
Proof.
  unfold write_body. destruct (iter_content r chunk_size) as [chunks fault].
  apply emits_bind.
  - apply emits_for_each. intros [|b data]; [apply emits_ret |].
    apply emits_bind.
    + apply emits_effect. simpl. apply String.eqb_refl.
    + intros _. destruct progress; [now apply emits_effect | apply emits_ret].
  - intros _. destruct fault; [apply emits_raise | apply emits_ret].
Qed.

Lemma emits_store (r : response) chunk_size p show_progress total_size :
  emits (write_or_bar p)
    (if show_progress && (0 <? total_size)
     then bind (bar_open E total_size (path_name p))
            (fun _ => finally (write_body E r chunk_size p true) (bar_close E))
     else write_body E r chunk_size p false).
Proof.
  destruct (show_progress && (0 <? total_size)).
  - apply emits_bind; [now apply emits_effect |]. intros _.
    apply emits_finally; [apply emits_write_body | now apply emits_effect].
  - apply emits_write_body.
Qed.

Lemma emits_download_handlers url p e : emits off_file (download_handlers url p e).
Proof.
  unfold download_handlers.
  repeat match goal with
         | |- emits _ (if ?c then _ else _) => destruct c
         | |- emits _ (bind _ _) => apply emits_bind; [now apply emits_effect | intros _]
         end; first [apply emits_ret | apply emits_raise].
Qed.

(** From the opening on: the body between the opening and the closing, and
    nothing on the file afterwards. *)
Lemma file_shape_from_open {B} (body : M trace B) (after : B -> M trace bool) p t :
  emits (write_or_bar p) body ->
  (forall b, emits off_file (after b)) ->
  exists new,
    snd (bind (open_wb E p) (fun _ => bind (finally body (file_close E p)) after) t)
    = t ++ new /\
    file_shape E p new.
Proof.
  intros Hbody Hafter. unfold bind at 1, open_wb, effect.
  destruct (open_result E t p) as [o|] eqn:Hopen; cbn [path_outcome].
  - exists [EvOpen p]. split; [reflexivity |]. right. left. split; [reflexivity | eauto].
  - destruct (Hbody (t ++ [EvOpen p])) as (nb & Hb & Sb).
    destruct (file_events_body p nb Sb) as (chunks & Hchunks).
    assert (Hfin : exists r,
               finally body (file_close E p) (t ++ [EvOpen p])
               = (r, (t ++ [EvOpen p]) ++ nb ++ [EvClose p])).
    { unfold finally. destruct (body (t ++ [EvOpen p])) as [r t1]. simpl in Hb. subst t1.
      unfold file_close, effect.
      destruct (os_outcome (close_result E _ p)) as [[]|e];
        rewrite <- app_assoc; eauto. }
    destruct Hfin as (r & Hfin). unfold bind. rewrite Hfin.
    destruct r as [b|e].
    + destruct (Hafter b ((t ++ [EvOpen p]) ++ nb ++ [EvClose p])) as (na & Ha & Sa).
      exists ([EvOpen p] ++ nb ++ [EvClose p] ++ na). rewrite Ha.
      split; [now rewrite <- !app_assoc |].
      right. right. exists chunks.
      rewrite !file_events_app, Hchunks, (file_events_off na Sa). reflexivity.
    + exists ([EvOpen p] ++ nb ++ [EvClose p]). split; [now rewrite <- !app_assoc |].
      right. right. exists chunks. rewrite !file_events_app, Hchunks. reflexivity.
Qed.

Lemma file_shape_after p pre new :
  forallb off_file pre = true -> file_shape E p new -> file_shape E p (pre ++ new).
Proof.
  intros Hpre Hnew. unfold file_shape in *.
  now rewrite file_events_app, (file_events_off pre Hpre).
Qed.

Lemma file_shape_before p new post :
  forallb off_file post = true -> file_shape E p new -> file_shape E p (new ++ post).
Proof.
  intros Hpost Hnew. unfold file_shape in *.
  now rewrite file_events_app, (file_events_off post Hpost), app_nil_r.
Qed.

Lemma file_shape_off p new : forallb off_file new = true -> file_shape E p new.
Proof. intros Hnew. left. now apply file_events_off. Qed.

Lemma download_attempt_file_shape url p chunk_size show_progress t :
  exists new,
    snd (download_attempt E url p chunk_size show_progress t) = t ++ new /\
    file_shape E p new.
Proof.
  unfold download_attempt, log at 1, effect at 1, bind at 1.
  set (t1 := t ++ [EvLog DEBUG (MsgStartingDownload url)]).
  unfold bind at 1, requests_get, effect at 1.
  set (t2 := t1 ++ [EvGet url true 30]).
  assert (Hoff : forall r : outcome bool, exists new,
             snd (r, t2) = t ++ new /\ file_shape E p new).
  { intros r. exists [EvLog DEBUG (MsgStartingDownload url); EvGet url true 30].
    subst t2 t1. split; [now rewrite <- app_assoc | now left]. }
  destruct (get_result E t1 url) as [q|resp]; [apply Hoff |].
  unfold bind at 1, raise_for_status.
  destruct ((400 <=? status_code resp) && (status_code resp <? 600)); [apply Hoff |].
  cbn [ret]. unfold bind at 1, total_size_of.
  assert (Hsized : forall n, exists new,
             snd (bind (log_file_size n)
                    (fun _ =>
                       bind (open_wb E p)
                         (fun _ =>
                            bind
                              (finally
                                 (if show_progress && (0 <? n)
                                  then bind (bar_open E n (path_name p))
                                         (fun _ => finally (write_body E resp chunk_size p true)
                                                     (bar_close E))
                                  else write_body E resp chunk_size p false)
                                 (file_close E p))
                              (fun _ => bind (log INFO (MsgDownloaded p))
                                          (fun _ => ret true)))) t2)
             = t ++ new /\ file_shape E p new).
  { intros n. unfold bind at 1, log_file_size.
    destruct (truediv_overflows n (1024 * 1024)); [apply Hoff |].
    unfold log at 1, effect at 1.
    destruct (file_shape_from_open
                (if show_progress && (0 <? n)
                 then bind (bar_open E n (path_name p))
                        (fun _ => finally (write_body E resp chunk_size p true)
                                    (bar_close E))
                 else write_body E resp chunk_size p false)
                (fun _ : unit => bind (log INFO (MsgDownloaded p)) (fun _ => ret true))
                p (t2 ++ [EvLog DEBUG (MsgFileSize n)]))
      as (new & Hnew & Hshape).
    - apply emits_store.
    - intros _. apply emits_bind; [now apply emits_effect | intros _; apply emits_ret].
    - rewrite Hnew.
      exists ([EvLog DEBUG (MsgStartingDownload url); EvGet url true 30;
               EvLog DEBUG (MsgFileSize n)] ++ new).
      split; [subst t2 t1; now rewrite <- !app_assoc |].
      now apply file_shape_after. }
  destruct (content_length resp) as [h|]; [| apply Hsized].
  destruct (int_of_str h) as [n|]; [apply Hsized | apply Hoff].
Qed.
End File_discipline.

(** X19. Whatever fails, [download_file] does not leave the destination file
    open, and touches no other file. Of the events of a call, those on files
    are none at all, when the call ends before the opening; or the one
    opening, which failed; or the opening, then writes to that file only,
    then its closing, once, also when a write, the body or the closing
    itself raised. *)
Theorem download_file_closes_the_file_it_opened `{Pathlib} (E : env)
    (url local_path : string) (chunk_size : Z) (show_progress : bool) (t : trace) :
  let p := path_of local_path in
  exists new,
    snd (download_file E url local_path chunk_size show_progress t) = t ++ new /\
    (file_events new = [] \/
     (file_events new = [EvOpen p] /\ exists t0 o, open_result E t0 p = Some o) \/
     (exists chunks, file_events new = EvOpen p :: map (EvWrite p) chunks ++ [EvClose p])).
Proof.
  intros p. unfold download_file. fold p.
  unfold bind, mkdir_parents, effect.
  destruct (mkdir_result E t (path_parent p)) as [o|]; cbn [path_outcome].
  { exists [EvMkdir (path_parent p) true true]. split; [reflexivity | now left]. }
  set (t1 := t ++ [EvMkdir (path_parent p) true true]).
  destruct (download_attempt_file_shape E url p chunk_size show_progress t1)
    as (new & Hnew & Hshape).
  unfold try_except.
  destruct (download_attempt E url p chunk_size show_progress t1) as [[b|e] t2];
    simpl in Hnew; subst t2.
  - exists ([EvMkdir (path_parent p) true true] ++ new).
    split; [subst t1; now rewrite <- app_assoc |].
    now apply (file_shape_after E).
  - destruct (emits_download_handlers url p e (t1 ++ new)) as (nh & Hh & Sh).
    exists ([EvMkdir (path_parent p) true true] ++ new ++ nh). rewrite Hh.
    split; [subst t1; now rewrite <- !app_assoc |].
    apply (file_shape_after E); [reflexivity |]. now apply file_shape_before.
Qed.

(** ** Keys written by the convention *)

Lemma append_cons c (a b : string) : String c a +:+ b = String c (a +:+ b).
Proof. reflexivity. Qed.

Lemma length_append (a b : string) :
  String.length (a +:+ b) = (String.length a + String.length b)%nat.
Proof.
  induction a as [|c a IH]; [reflexivity |].
  rewrite append_cons. cbn [String.length]. now rewrite IH.
Qed.

Lemma substring_append (a b : string) n :
  String.substring (String.length a) n (a +:+ b) = String.substring 0 n b.
Proof.
  induction a as [|c a IH]; [reflexivity |].
  rewrite append_cons. cbn [String.length String.substring]. exact IH.
Qed.

Lemma endswith_suffix (ft : string) : endswith (ft +:+ "_url") "_url" = true.
Proof.
  unfold endswith. rewrite length_append. cbn [String.length].
  replace (4 <=? String.length ft + 4)%nat with true
    by (symmetry; apply Nat.leb_le; lia).
  replace (String.length ft + 4 - 4)%nat with (String.length ft) by lia.
  now rewrite substring_append.
Qed.

Lemma replace_suffix_only (ft : string) :
  occurs "_url" ft = false -> str_replace (ft +:+ "_url") "_url" "" = ft.
Proof.
  unfold str_replace. induction ft as [|c x IH]; intros Hocc; [reflexivity |].
  cbn [occurs] in Hocc. apply orb_false_iff in Hocc as [Hhere Hlater].
  rewrite replace_from_step.
  assert (Hstart : startswith (String c x +:+ "_url") "_url" = false).
  { destruct (le_lt_dec 4 (String.length (String c x))) as [Hlong | Hshort].
    - unfold startswith in *. now rewrite prefix_app_within.
    - apply (no_straddling_match (String c x) ""). cbn [String.length] in *. lia. }
  rewrite Hstart. now rewrite IH.
Qed.

Lemma file_types_by_convention (entries : dict value) :
  plain_file_types entries = true ->
  file_types (by_convention entries) = dict_keys entries.
Proof.
  induction entries as [|[ft url] l IH]; [reflexivity |].
  cbn [plain_file_types forallb fst]. intros [Hft Hl]%andb_true_iff.
  apply negb_true_iff in Hft.
  cbn [by_convention map fst snd]. rewrite file_types_cons.
  rewrite endswith_suffix, (replace_suffix_only ft Hft).
  fold (by_convention l). rewrite (IH Hl). reflexivity.
Qed.

Lemma selected_by_convention files_to_download (entries : dict value) :
  plain_file_types entries = true ->
  map (fun kv => (str_replace (fst kv) "_url" "", snd kv))
    (List.filter (selected_entry files_to_download) (by_convention entries))
  = List.filter (fun kv => wanted files_to_download (fst kv)) entries.
Proof.
  induction entries as [|[ft url] l IH]; [reflexivity |].
  cbn [plain_file_types forallb fst]. intros [Hft Hl]%andb_true_iff.
  apply negb_true_iff in Hft.
  cbn [by_convention map List.filter fst snd]. fold (by_convention l).
  unfold selected_entry at 1. cbn [fst]. rewrite endswith_suffix. cbn [andb].
  rewrite (replace_suffix_only ft Hft).
  fold (wanted files_to_download ft).
  destruct (wanted files_to_download ft).
  - cbn [map fst snd]. rewrite (replace_suffix_only ft Hft). now rewrite (IH Hl).
  - exact (IH Hl).
Qed.

(** X20. A mapping written by the convention is read back as it was written.
    When every file type stands under the key [<file_type>_url], no file
    type holds ["_url"] itself and no file type comes twice, the URLs to
    download are the file types asked for, each with its own URL, in the
    order of the document; without a filter they are all of them. *)
Theorem urls_to_download_reads_the_convention_back (entries : dict value)
    (files_to_download : option (list string)) :
  NoDup (dict_keys entries) ->
  plain_file_types entries = true ->
  urls_to_download (by_convention entries) files_to_download
  = List.filter (fun kv => wanted files_to_download (fst kv)) entries /\
  urls_to_download (by_convention entries) None = entries.
Proof.
  intros Hnd Hplain.
  assert (Hall : forall ftd,
             urls_to_download (by_convention entries) ftd
             = List.filter (fun kv => wanted ftd (fst kv)) entries).
  { intros ftd. unfold urls_to_download. rewrite select_in_order.
    - cbn [app]. now apply selected_by_convention.
    - cbn [dict_keys map app]. now rewrite file_types_by_convention. }
  split; [apply Hall |]. rewrite Hall. cbn [wanted].
  clear. induction entries as [|kv l IH]; [reflexivity |]. cbn [List.filter]. now rewrite IH.
Qed.

Lemma urls_to_download_reads_the_convention_back_witness :
  let entries := [("stock_etablissement", VStr "http://x/StockEtablissement_utf8.parquet");
                  ("stock_unitelegale", VStr "http://x/StockUniteLegale_utf8.parquet")] in
  urls_to_download (by_convention entries) (Some ["stock_unitelegale"])
  = List.filter (fun kv => wanted (Some ["stock_unitelegale"]) (fst kv)) entries /\
  urls_to_download (by_convention entries) None = entries.
Proof.
  intros entries.
  assert (Hnd : NoDup (dict_keys entries)).
  { vm_compute. repeat constructor; rewrite ?list_elem_of_In; simpl; intuition discriminate. }
  exact (urls_to_download_reads_the_convention_back entries (Some ["stock_unitelegale"])
           Hnd eq_refl).
Defined.

(** ** The file name of a URL *)

Lemma str_split_no_separator (name : string) :
  occurs "/" name = false -> str_split "/" name = [name].
Proof.
  induction name as [|c s IH]; intros Hocc; [reflexivity |].
  cbn [occurs] in Hocc. apply orb_false_iff in Hocc as [Hhere Hlater].
  cbn [str_split]. destruct (Ascii.eqb c "/") eqn:Hc.
  - apply Ascii.eqb_eq in Hc. subst c. clear -Hhere.
    destruct s; vm_compute in Hhere; discriminate Hhere.
  - now rewrite (IH Hlater).
Qed.

Lemma str_split_after_separator (front rest : string) :
  exists pieces,
    pieces <> [] /\
    str_split "/" (front +:+ "/" +:+ rest) = pieces ++ str_split "/" rest.
Proof.
  induction front as [|c s (pieces & Hne & IH)].
  - exists [EmptyString]. split; [discriminate | reflexivity].
  - rewrite append_cons. cbn [str_split]. rewrite IH.
    destruct (Ascii.eqb c "/").
    + exists (EmptyString :: pieces). split; [discriminate | reflexivity].
    + destruct pieces as [|piece pieces]; [contradiction |].
      exists (String c piece :: pieces). split; [discriminate | reflexivity].
Qed.

Lemma last_after {A} (l1 l2 : list A) d : l2 <> [] -> List.last (l1 ++ l2) d = List.last l2 d.
Proof.
  intros Hne. induction l1 as [|x l1 IH]; [reflexivity |].
  cbn [app]. destruct (l1 ++ l2) eqn:Happ.
  - apply app_eq_nil in Happ as [_ ->]. contradiction.
  - cbn [List.last]. exact IH.
Qed.

(** X21. The file name under which [download_insee_files] stores a
    download is what follows the last slash of the URL, all of a URL without
    a slash: a round of the sweep on such a URL announces the file type with
    this name, logs the URL and the destination, and calls [download_file]
    with the destination directory joined with this name, before it goes on
    with the entries that are left. For a URL that ends with a slash the
    name is empty. *)
Theorem filename_follows_the_last_slash `{Pathlib} (E : env) (output_dir : string)
    (file_type url name : string) (rest : dict value) (results : dict bool) (t : trace) :
  occurs "/" name = false ->
  url = name \/ (exists front, url = front +:+ "/" +:+ name) ->
  last_item (str_split "/" url) = name /\
  download_each E output_dir ((file_type, VStr url) :: rest) results t
  = bind (download_file E url (joinpath output_dir name) 8192 true)
      (fun success => download_each E output_dir rest (dict_set file_type success results))
      (t ++ [EvLog INFO (MsgDownloading file_type name);
             EvLog DEBUG (MsgURL url);
             EvLog DEBUG (MsgDestination (joinpath output_dir name))]).
Proof.
  intros Hname Hurl. pose proof (str_split_no_separator name Hname) as Hsplit.
  assert (Hlast : last_item (str_split "/" url) = name).
  { destruct Hurl as [-> | (front & ->)]; [now rewrite Hsplit |].
    destruct (str_split_after_separator front name) as (pieces & _ & ->).
    unfold last_item. rewrite last_after by (rewrite Hsplit; discriminate).
    now rewrite Hsplit. }
  split; [exact Hlast |].
  cbn [download_each]. change (py_split_method (VStr url)) with (@ret trace _ url).
  unfold bind at 1, ret. rewrite Hlast.
  unfold bind at 1, log at 1, effect at 1.
  unfold bind at 1, log at 1, effect at 1.
  unfold bind at 1, log at 1, effect at 1.
  now rewrite <- !app_assoc.
Qed.

Lemma filename_follows_the_last_slash_witness :
  last_item (str_split "/" "https://files.data.gouv.fr/insee-sirene/StockEtablissement_utf8.parquet")
  = "StockEtablissement_utf8.parquet" /\
  requested (snd (download_each calm "/data/bronze"
                    [("stock_etablissement",
                      VStr "https://files.data.gouv.fr/insee-sirene/StockEtablissement_utf8.parquet")]
                    [] []))
  = ["https://files.data.gouv.fr/insee-sirene/StockEtablissement_utf8.parquet"] /\
  opened (snd (download_each calm "/data/bronze"
                 [("stock_etablissement",
                   VStr "https://files.data.gouv.fr/insee-sirene/StockEtablissement_utf8.parquet")]
                 [] []))
  = ["/data/bronze/StockEtablissement_utf8.parquet"].
Proof.
  assert (Hname : occurs "/" "StockEtablissement_utf8.parquet" = false) by reflexivity.
  destruct (filename_follows_the_last_slash calm "/data/bronze" "stock_etablissement"
              "https://files.data.gouv.fr/insee-sirene/StockEtablissement_utf8.parquet"
              "StockEtablissement_utf8.parquet" [] [] [] Hname
              (or_intror (ex_intro _ "https://files.data.gouv.fr/insee-sirene" eq_refl)))
    as [Hlast Hround].
  split; [exact Hlast |]. rewrite Hround. split; vm_compute; reflexivity.
Defined.

(** ** The notebook *)

(** X22. The notebook reads the configuration document twice, once for the
    bronze path and once for the configuration, and then downloads every
    file into the bronze directory itself: the run is the run of
    [download_insee_files] on the document with the bronze path as
    [output_dir], so no directory of the month is made. When the document
    gives no mapping of paths, or one without [bronze], the notebook stops
    with [KeyError] after the first reading, before any download. *)
Theorem notebook_downloads_into_bronze `{Pathlib} (E : env) (d : dict value) (t : trace) :
  let p := path_of default_config_path in
  stable_document E (VDict d) ->
  (forall bronze,
     bronze_of d = Some (VStr bronze) ->
     notebook_download E t
     = download_insee_files E (VDict d) (Some (path_of bronze)) None
         (t ++ [EvExists p; EvLoadYaml p; EvExists p; EvLoadYaml p])) /\
  (dict_get "paths" d = None \/
   (exists paths, dict_get "paths" d = Some (VDict paths) /\ dict_get "bronze" paths = None) ->
   notebook_download E t = (Raise KeyError, t ++ [EvExists p; EvLoadYaml p])).
Proof.
  intros p Hdoc.
  assert (Hload : forall t0,
             config_or_default E VNone t0 = (Ok (VDict d), t0 ++ [EvExists p; EvLoadYaml p])).
  { intros t0. apply config_or_default_loaded; apply Hdoc. }
  assert (Hpaths : get_data_paths E VNone t
                   = (Ok (match dict_get "paths" d with Some v => v | None => VDict [] end),
                      t ++ [EvExists p; EvLoadYaml p])).
  { unfold get_data_paths. now rewrite (bind_ok _ _ _ _ _ (Hload t)). }
  split.
  - intros bronze Hb. unfold bronze_of in Hb.
    destruct (dict_get "paths" d) as [[ | | | | |paths| | |]|] eqn:Hp; try discriminate.
    unfold notebook_download, data_path_cell.
    assert (Hcell : (data_paths <- get_data_paths E VNone;;
                     bronze0 <- py_getitem data_paths "bronze";; py_Path bronze0)%py t
                    = (Ok (path_of bronze), t ++ [EvExists p; EvLoadYaml p])).
    { rewrite (bind_ok _ _ _ _ _ Hpaths). unfold bind, py_getitem. now rewrite Hb. }
    rewrite (bind_ok _ _ _ _ _ Hcell). unfold download_cell.
    rewrite (bind_ok _ _ _ _ _ (Hload _)). now rewrite <- app_assoc.
  - intros Hnone. unfold notebook_download, data_path_cell.
    apply bind_raise. rewrite (bind_ok _ _ _ _ _ Hpaths).
    apply bind_raise. unfold py_getitem.
    destruct Hnone as [-> | (paths & -> & Hb)]; [reflexivity | now rewrite Hb].
Qed.

Lemma notebook_downloads_into_bronze_witness :
  notebook_download (with_document sample_config) []
  = download_insee_files (with_document sample_config) sample_config (Some "/data/bronze")
      None
      [EvExists "configs/config.yaml"; EvLoadYaml "configs/config.yaml";
       EvExists "configs/config.yaml"; EvLoadYaml "configs/config.yaml"] /\
  notebook_download (with_document (VDict [])) []
  = (Raise KeyError, [EvExists "configs/config.yaml"; EvLoadYaml "configs/config.yaml"]).
Proof.
  split.
  - exact (proj1 (notebook_downloads_into_bronze (with_document sample_config) _ []
                    (fun _ => conj eq_refl eq_refl))
             "/data/bronze" eq_refl).
  - exact (proj2 (notebook_downloads_into_bronze (with_document (VDict [])) [] []
                    (fun _ => conj eq_refl eq_refl))
             (or_introl eq_refl)).
Defined.

(** ** The sweep over the selected URLs *)



(** ** What comes out of a call of download_file *)


Section Before_the_body.
Context {pathlib : Pathlib} (E : env).

(** The [try] body up to the opening of the destination file, for a
    response with a passing status whose size the size message can show. *)
Lemma download_attempt_reaches_open url p chunk_size show_progress t (r : response) n :
  get_result E (t ++ [EvLog DEBUG (MsgStartingDownload url)]) url = inr r ->
  status_passes r = true ->
  declared_size r = Some n ->
  truediv_overflows n (1024 * 1024) = false ->
  download_attempt E url p chunk_size show_progress t
  = (open_wb E p;;;
     finally
       (if show_progress && (0 <? n)
        then
          bar_open E n (path_name p);;;
          finally (write_body E r chunk_size p true) (bar_close E)
        else write_body E r chunk_size p false)
       (file_close E p);;;
     log INFO (MsgDownloaded p);;; ret true)%py
      (t ++ [EvLog DEBUG (MsgStartingDownload url); EvGet url true 30;
             EvLog DEBUG (MsgFileSize n)]).
Proof.
  intros Hget Hstatus Hn Hover. unfold download_attempt.
  erewrite bind_ok; [| reflexivity].
  erewrite bind_ok; [| unfold requests_get, effect; rewrite Hget; reflexivity].
  erewrite bind_ok.
  2:{ unfold raise_for_status. unfold status_passes in Hstatus.
      apply negb_true_iff in Hstatus. rewrite Hstatus. reflexivity. }
  erewrite bind_ok; [| rewrite total_size_of_declared, Hn; reflexivity].
  erewrite bind_ok; [| unfold log_file_size; rewrite Hover; reflexivity].
  now rewrite <- !app_assoc.
Qed.
End Before_the_body.

(** X25. A [content-length] header can be an integer that the size message
    shows and that is too large for the progress bar, from [2^1024 - 2^970]
    on: with progress asked for, the call opens the destination file, the
    making of the bar raises [OverflowError], the file is closed with
    nothing written to it, and the exception, which no [except] clause
    takes, reaches the caller. *)
Theorem download_file_total_too_large_for_the_bar `{Pathlib} (E : env)
    (url local_path : string) (chunk_size : Z) (t : trace) (r : response) (n : Z) :
  let p := path_of local_path in
  let dir := path_parent p in
  let t1 := t ++ [EvMkdir dir true true; EvLog DEBUG (MsgStartingDownload url);
                  EvGet url true 30; EvLog DEBUG (MsgFileSize n)] in
  mkdir_result E t dir = None ->
  get_result E (t ++ [EvMkdir dir true true; EvLog DEBUG (MsgStartingDownload url)]) url
  = inr r ->
  status_passes r = true ->
  declared_size r = Some n ->
  float_overflow_bound <= n < float_overflow_bound * (1024 * 1024) ->
  open_result E t1 p = None ->
  close_result E (t1 ++ [EvOpen p; EvTqdmOpen n (path_name p)]) p = None ->
  usable_length r = false /\
  download_file E url local_path chunk_size true t
  = (Raise OverflowError, t1 ++ [EvOpen p; EvTqdmOpen n (path_name p); EvClose p]).
Proof.
  intros p dir t1 Hmk Hget Hstatus Hn Hrange Hopen Hclose.
  assert (Hbound : 0 < float_overflow_bound) by reflexivity.
  assert (Hpos : (0 <? n) = true) by (apply Z.ltb_lt; lia).
  assert (Hfloat : to_float_overflows n = true).
  { unfold to_float_overflows. apply Z.leb_le. lia. }
  assert (Hdiv : truediv_overflows n (1024 * 1024) = false).
  { unfold truediv_overflows. apply Z.leb_gt. lia. }
  split.
  { unfold usable_length. rewrite Hn, Hdiv, Hpos, Hfloat. reflexivity. }
  rewrite (download_file_mkdir_done E _ _ _ _ _ Hmk). fold p dir. unfold try_except.
  rewrite (download_attempt_reaches_open E url p chunk_size true _ r n);
    [| now rewrite <- app_assoc | exact Hstatus | exact Hn | exact Hdiv].
  rewrite <- !app_assoc. cbn [app]. fold t1.
  unfold bind at 1, open_wb, effect at 1. rewrite Hopen. cbn [path_outcome].
  cbn [andb]. rewrite Hpos.
  unfold bind at 1, finally at 1, bind at 1, bar_open, effect at 1. rewrite Hfloat.
  unfold file_close, effect. rewrite <- !app_assoc. cbn [app]. rewrite Hclose.
  cbn [os_outcome]. rewrite download_handlers_classify. reflexivity.
Qed.

Lemma download_file_total_too_large_for_the_bar_witness :
  int_of_str huge_length = Some (2 ^ 1024) /\
  usable_length huge_response = false /\
  download_file (world (fun _ => inr huge_response)) "http://x/f1.parquet" "/d/f1.parquet"
    8192 true []
  = (Raise OverflowError,
     [EvMkdir "/d" true true; EvLog DEBUG (MsgStartingDownload "http://x/f1.parquet");
      EvGet "http://x/f1.parquet" true 30; EvLog DEBUG (MsgFileSize (2 ^ 1024))]
     ++ [EvOpen "/d/f1.parquet"; EvTqdmOpen (2 ^ 1024) "f1.parquet";
         EvClose "/d/f1.parquet"]).
Proof.
  assert (Hsize : declared_size huge_response = Some (2 ^ 1024))
    by (vm_compute; reflexivity).
  assert (Hrange : float_overflow_bound <= 2 ^ 1024 < float_overflow_bound * (1024 * 1024))
    by (split; [apply Z.leb_le | apply Z.ltb_lt]; vm_compute; reflexivity).
  split; [exact Hsize |].
  exact (download_file_total_too_large_for_the_bar (world (fun _ => inr huge_response))
           "http://x/f1.parquet" "/d/f1.parquet" 8192 [] huge_response (2 ^ 1024)
           eq_refl eq_refl eq_refl Hsize Hrange eq_refl eq_refl).
Defined.

(** X26. When the destination file cannot be opened, what becomes of the
    call depends on who refuses. An [OSError] of the file system is logged
    as an error of writing the file and gives false. A path that Python does
    not hand over, one with a NUL character or with a lone surrogate in it,
    gives a [ValueError] or a [UnicodeEncodeError]: no [except] clause takes
    it, nothing is logged, and it reaches the caller. *)
Theorem download_file_cannot_open `{Pathlib} (E : env)
    (url local_path : string) (chunk_size : Z) (show_progress : bool) (t : trace)
    (r : response) (n : Z) (e : path_error) :
  let p := path_of local_path in
  let dir := path_parent p in
  let t1 := t ++ [EvMkdir dir true true; EvLog DEBUG (MsgStartingDownload url);
                  EvGet url true 30; EvLog DEBUG (MsgFileSize n)] in
  mkdir_result E t dir = None ->
  get_result E (t ++ [EvMkdir dir true true; EvLog DEBUG (MsgStartingDownload url)]) url
  = inr r ->
  status_passes r = true ->
  declared_size r = Some n ->
  truediv_overflows n (1024 * 1024) = false ->
  open_result E t1 p = Some e ->
  download_file E url local_path chunk_size show_progress t
  = match e with
    | PathOs o =>
        (Ok false, t1 ++ [EvOpen p; EvLog ERROR (MsgWriteError p (exc_of_os o))])
    | PathNul => (Raise ValueError, t1 ++ [EvOpen p])
    | PathSurrogate => (Raise UnicodeEncodeError, t1 ++ [EvOpen p])
    end.
Proof.
  intros p dir t1 Hmk Hget Hstatus Hn Hdiv Hopen.
  rewrite (download_file_mkdir_done E _ _ _ _ _ Hmk). fold p dir. unfold try_except.
  rewrite (download_attempt_reaches_open E url p chunk_size show_progress _ r n);
    [| now rewrite <- app_assoc | exact Hstatus | exact Hn | exact Hdiv].
  rewrite <- !app_assoc. cbn [app]. fold t1.
  unfold bind at 1, open_wb, effect at 1. rewrite Hopen. cbn [path_outcome].
  rewrite download_handlers_classify.
  destruct e as [o| |]; cbn [exc_of_path classify]; [| reflexivity | reflexivity].
  destruct o; cbn [exc_of_os classify failure_log]; rewrite <- !app_assoc; reflexivity.
Qed.

Lemma download_file_cannot_open_witness :
  download_file nul_in_file_name "http://x/f1.parquet" "/d/f1.parquet" 8192 true []
  = (Raise ValueError,
     [EvMkdir "/d" true true; EvLog DEBUG (MsgStartingDownload "http://x/f1.parquet");
      EvGet "http://x/f1.parquet" true 30; EvLog DEBUG (MsgFileSize 3)]
     ++ [EvOpen "/d/f1.parquet"]).
Proof.
  exact (download_file_cannot_open nul_in_file_name "http://x/f1.parquet" "/d/f1.parquet"
           8192 true [] ok_response 3 PathNul eq_refl eq_refl eq_refl eq_refl eq_refl
           eq_refl).
Defined.

(** ** One transfer for each file type *)


